(** * sanctum-sdk-node: the RPC transport and session core

    A shallow embedding of [src/protocol.ts], [src/errors.ts],
    [src/types.ts] and [src/client.ts], and the properties of the frame
    codec, the error mapper, the receive path and the request
    multiplexer, the connection target, the key file and the
    authentication handshake, the operations on credentials, and the
    lease bookkeeping.

    Conventions.
    - A [Buffer] is a [list byte].  A JavaScript string is held as the
      [string] of its UTF-8 code units, so [Buffer.from(s)] and
      [buf.toString()] are the two conversions of the Standard Library.
    - A JavaScript number that the SDK uses (request ids, lengths, ports)
      is an integer and is held as a [Z].
    - A function that can throw returns a [Completion]; an [async]
      method returns an [Outcome] together with the new client state.
    - Payloads are read through the interfaces of [types.ts].  Where a
      run depends on what JavaScript does with a value of another type,
      or on a JSON text outside the fragment parsed here, its result is
      [Unmodelled] (for an [async] method, [OffModel]) instead of a guess. *)

From Stdlib Require Import ZArith Lia List String Ascii DecimalString DecimalPos.
From Stdlib.Strings Require Import Byte.
From stdpp Require Import base option list gmap strings.

Local Open Scope string_scope.
Local Open Scope Z_scope.
Local Open Scope list_scope.

(** ** JSON values *)

Local Set Warnings "-register-all".

(** The values [JSON.parse] produces.  An object is the list of its own
    properties in the order JavaScript enumerates them. *)
Inductive json : Type :=
| JNull
| JBool (b : bool)
| JNum (n : Z)
| JStr (s : string)
| JArr (items : list json)
| JObj (props : list (string * json)).

Definition dquote : ascii := "034"%char.
Definition backslash : ascii := "092"%char.

(** Own-property read [o[k]] on a plain property list. *)
Fixpoint assoc {A : Type} (k : string) (l : list (string * A)) : option A :=
  match l with
  | [] => None
  | (k', v) :: r => if String.eqb k k' then Some v else assoc k r
  end.

(** ** JSON.stringify *)

Definition hexdigit (n : N) : ascii :=
  ascii_of_N (if (n <? 10)%N then 48 + n else 87 + n)%N.

(** QuoteJSONString, one code unit at a time. *)
Definition escape_char (c : ascii) : string :=
  let n := N_of_ascii c in
  if (n =? 8)%N then String backslash "b"
  else if (n =? 9)%N then String backslash "t"
  else if (n =? 10)%N then String backslash "n"
  else if (n =? 12)%N then String backslash "f"
  else if (n =? 13)%N then String backslash "r"
  else if (n =? 34)%N then String backslash (String dquote EmptyString)
  else if (n =? 92)%N then String backslash (String backslash EmptyString)
  else if (n <? 32)%N then
    String backslash
      (String "u" (String "0" (String "0"
         (String (hexdigit (n / 16)) (String (hexdigit (n mod 16)) EmptyString)))))
  else String c EmptyString.

Fixpoint escape_chars (s : string) : string :=
  match s with
  | EmptyString => EmptyString
  | String c r => escape_char c +:+ escape_chars r
  end.

Definition quote (s : string) : string :=
  String dquote (escape_chars s +:+ String dquote EmptyString).

(** The decimal digits of an integer.  This is the text JavaScript
    prints for the integers a double holds exactly, up to 2^53 in
    magnitude; from 10^21 on JavaScript prints an exponent instead, and
    the properties that depend on the text of a number are stated on
    [in_fragment], which stays below. *)
Definition number_to_string (n : Z) : string :=
  NilZero.string_of_int (Z.to_int n).

(** [JSON.stringify(v)] without a replacer or indentation. *)
Fixpoint JSON_stringify (v : json) : string :=
  match v with
  | JNull => "null"
  | JBool true => "true"
  | JBool false => "false"
  | JNum n => number_to_string n
  | JStr s => quote s
  | JArr items =>
      "[" +:+
      (fix elements (l : list json) : string :=
         match l with
         | [] => EmptyString
         | [x] => JSON_stringify x
         | x :: r => JSON_stringify x +:+ "," +:+ elements r
         end) items +:+ "]"
  | JObj props =>
      "{" +:+
      (fix members (l : list (string * json)) : string :=
         match l with
         | [] => EmptyString
         | [(k, x)] => quote k +:+ ":" +:+ JSON_stringify x
         | (k, x) :: r => quote k +:+ ":" +:+ JSON_stringify x +:+ "," +:+ members r
         end) props +:+ "}"
  end.

(** ** JSON.parse *)

(** The parser covers the fragment of JSON this development needs:
    integer number literals up to 2^53 in magnitude and ASCII text.
    On a text outside the fragment it answers [Unsupported] rather than
    guess what JavaScript computes. *)
Inductive parse_result (A : Type) : Type :=
| Parsed (a : A) (rest : string)
| SyntaxError
| Unsupported.
Arguments Parsed {A} a rest.
Arguments SyntaxError {A}.
Arguments Unsupported {A}.

Definition parse_map {A B : Type} (f : A -> B) (r : parse_result A) : parse_result B :=
  match r with
  | Parsed a rest => Parsed (f a) rest
  | SyntaxError => SyntaxError
  | Unsupported => Unsupported
  end.

Definition is_ws (c : ascii) : bool :=
  let n := N_of_ascii c in
  ((n =? 32) || (n =? 9) || (n =? 10) || (n =? 13))%N.

Fixpoint skip_ws (s : string) : string :=
  match s with
  | EmptyString => EmptyString
  | String c r => if is_ws c then skip_ws r else s
  end.

Definition is_digit (c : ascii) : bool :=
  let n := N_of_ascii c in ((48 <=? n) && (n <=? 57))%N.

Definition digit_val (c : ascii) : Z := Z.of_N (N_of_ascii c) - 48.

Definition hexval (c : ascii) : option N :=
  let n := N_of_ascii c in
  if ((48 <=? n) && (n <=? 57))%N then Some (n - 48)%N
  else if ((97 <=? n) && (n <=? 102))%N then Some (n - 87)%N
  else if ((65 <=? n) && (n <=? 70))%N then Some (n - 55)%N
  else None.

(** The characters of a string literal, after its opening quote. *)
Fixpoint parse_chars (s : string) : parse_result string :=
  match s with
  | EmptyString => SyntaxError
  | String c r =>
      let n := N_of_ascii c in
      if (n =? 34)%N then Parsed EmptyString r
      else if (n =? 92)%N then
        match r with
        | EmptyString => SyntaxError
        | String e r' =>
            let m := N_of_ascii e in
            if (m =? 34)%N then parse_map (String dquote) (parse_chars r')
            else if (m =? 92)%N then parse_map (String backslash) (parse_chars r')
            else if (m =? 47)%N then parse_map (String "/") (parse_chars r')
            else if (m =? 98)%N then parse_map (String "008") (parse_chars r')
            else if (m =? 102)%N then parse_map (String "012") (parse_chars r')
            else if (m =? 110)%N then parse_map (String "010") (parse_chars r')
            else if (m =? 114)%N then parse_map (String "013") (parse_chars r')
            else if (m =? 116)%N then parse_map (String "009") (parse_chars r')
            else if (m =? 117)%N then
              match r' with
              | String h1 (String h2 (String h3 (String h4 r''))) =>
                  match hexval h1, hexval h2, hexval h3, hexval h4 with
                  | Some a, Some b, Some c', Some d =>
                      let u := (((a * 16 + b) * 16 + c') * 16 + d)%N in
                      if (u <? 128)%N
                      then parse_map (String (ascii_of_N u)) (parse_chars r'')
                      else Unsupported
                  | _, _, _, _ => SyntaxError
                  end
              | _ => SyntaxError
              end
            else SyntaxError
        end
      else if (n <? 32)%N then SyntaxError
      else if (128 <=? n)%N then Unsupported
      else parse_map (String c) (parse_chars r)
  end.

Fixpoint parse_digits (s : string) (acc : Z) : Z * string :=
  match s with
  | EmptyString => (acc, s)
  | String c r => if is_digit c then parse_digits r (10 * acc + digit_val c) else (acc, s)
  end.

Definition starts_fraction (s : string) : bool :=
  match s with
  | String c _ =>
      let n := N_of_ascii c in ((n =? 46) || (n =? 101) || (n =? 69))%N
  | EmptyString => false
  end.

(** An integer literal; [-0] is the number [0]. *)
Definition parse_number (s : string) : parse_result json :=
  let '(neg, s1) :=
    match s with
    | String "-" r => (true, r)
    | _ => (false, s)
    end in
  match s1 with
  | EmptyString => SyntaxError
  | String c r =>
      if is_digit c then
        let '(n, rest) :=
          if (N_of_ascii c =? 48)%N then (0, r) else parse_digits r (digit_val c) in
        if starts_fraction rest then Unsupported
        else if 2 ^ 53 <? n then Unsupported
        else Parsed (JNum (if neg : bool then - n else n)) rest
      else SyntaxError
  end.

Fixpoint strip_prefix (p s : string) : option string :=
  match p, s with
  | EmptyString, _ => Some s
  | String a p', String b s' => if Ascii.eqb a b then strip_prefix p' s' else None
  | String _ _, EmptyString => None
  end.

Definition parse_literal (lit : string) (v : json) (s : string) : parse_result json :=
  match strip_prefix lit s with
  | Some rest => Parsed v rest
  | None => SyntaxError
  end.

(** Array index keys ("0", "1", ... below 2^32 - 1) are enumerated first,
    in ascending order; every other key in insertion order. *)
Definition array_index (k : string) : option Z :=
  match k with
  | EmptyString => None
  | String c r =>
      if is_digit c then
        if (N_of_ascii c =? 48)%N then
          match r with EmptyString => Some 0 | _ => None end
        else
          match parse_digits r (digit_val c) with
          | (n, EmptyString) => if n <? 2 ^ 32 - 1 then Some n else None
          | _ => None
          end
      else None
  end.

Fixpoint replace_prop (k : string) (v : json) (l : list (string * json))
  : option (list (string * json)) :=
  match l with
  | [] => None
  | (k', v') :: r =>
      if String.eqb k k' then Some ((k, v) :: r)
      else option_map (cons (k', v')) (replace_prop k v r)
  end.

Fixpoint insert_index (i : Z) (k : string) (v : json) (l : list (string * json))
  : list (string * json) :=
  match l with
  | [] => [(k, v)]
  | (k', v') :: r =>
      match array_index k' with
      | Some j => if j <? i then (k', v') :: insert_index i k v r else (k, v) :: l
      | None => (k, v) :: l
      end
  end.

(** CreateDataProperty on the object under construction. *)
Definition define_prop (l : list (string * json)) (kv : string * json)
  : list (string * json) :=
  let '(k, v) := kv in
  match replace_prop k v l with
  | Some l' => l'
  | None =>
      match array_index k with
      | Some i => insert_index i k v l
      | None => l ++ [(k, v)]
      end
  end.

Definition object_of_members (ms : list (string * json)) : json :=
  JObj (fold_left define_prop ms []).

Fixpoint parse_value (fuel : nat) (s : string) : parse_result json :=
  match fuel with
  | O => Unsupported
  | S fuel' =>
      match skip_ws s with
      | EmptyString => SyntaxError
      | String c r =>
          let n := N_of_ascii c in
          if (n =? 34)%N then parse_map JStr (parse_chars r)
          else if (n =? 91)%N then
            match skip_ws r with
            | String "]" rest => Parsed (JArr []) rest
            | _ => parse_map JArr (parse_elements fuel' r)
            end
          else if (n =? 123)%N then
            match skip_ws r with
            | String "}" rest => Parsed (JObj []) rest
            | _ => parse_map object_of_members (parse_members fuel' r)
            end
          else if (n =? 116)%N then parse_literal "true" (JBool true) (String c r)
          else if (n =? 102)%N then parse_literal "false" (JBool false) (String c r)
          else if (n =? 110)%N then parse_literal "null" JNull (String c r)
          else if (n =? 45)%N || is_digit c then parse_number (String c r)
          else SyntaxError
      end
  end
with parse_elements (fuel : nat) (s : string) : parse_result (list json) :=
  match fuel with
  | O => Unsupported
  | S fuel' =>
      match parse_value fuel' s with
      | Parsed v rest =>
          match skip_ws rest with
          | String "," rest' => parse_map (cons v) (parse_elements fuel' rest')
          | String "]" rest' => Parsed [v] rest'
          | _ => SyntaxError
          end
      | SyntaxError => SyntaxError
      | Unsupported => Unsupported
      end
  end
with parse_members (fuel : nat) (s : string) : parse_result (list (string * json)) :=
  match fuel with
  | O => Unsupported
  | S fuel' =>
      match skip_ws s with
      | String c r =>
          if (N_of_ascii c =? 34)%N then
            match parse_chars r with
            | Parsed k rest =>
                match skip_ws rest with
                | String ":" rest' =>
                    match parse_value fuel' rest' with
                    | Parsed v rest'' =>
                        match skip_ws rest'' with
                        | String "," r3 => parse_map (cons (k, v)) (parse_members fuel' r3)
                        | String "}" r3 => Parsed [(k, v)] r3
                        | _ => SyntaxError
                        end
                    | SyntaxError => SyntaxError
                    | Unsupported => Unsupported
                    end
                | _ => SyntaxError
                end
            | SyntaxError => SyntaxError
            | Unsupported => Unsupported
            end
          else SyntaxError
      | EmptyString => SyntaxError
      end
  end.

Definition parse_fuel (s : string) : nat := S (S (2 * String.length s)).

(** The whole text must be one value, white space around it allowed. *)
Definition parse_text (s : string) : parse_result json :=
  match parse_value (parse_fuel s) s with
  | Parsed v rest =>
      match skip_ws rest with
      | EmptyString => Parsed v EmptyString
      | _ => SyntaxError
      end
  | SyntaxError => SyntaxError
  | Unsupported => Unsupported
  end.

(** ** errors.ts *)

(** The error classes: [VaultError] and its seven subclasses. *)
Inductive ErrorClass : Type :=
| VaultError
| AuthError
| AccessDenied
| CredentialNotFound
| VaultLocked
| LeaseExpired
| RateLimited
| SessionExpired.

Global Instance ErrorClass_eq_dec : EqDecision ErrorClass.
Proof. solve_decision. Defined.

(** The [opts] argument of the constructors.  A field is [None] when the
    property is absent or holds [undefined] or [null]. *)
Record ErrorOpts : Type := {
  opt_code : option string;
  opt_detail : option string;
  opt_suggestion : option string;
  opt_docsUrl : option string;
  opt_context : option json
}.

Definition no_opts : ErrorOpts :=
  {| opt_code := None; opt_detail := None; opt_suggestion := None;
     opt_docsUrl := None; opt_context := None |}.

Definition code_opts (c : string) : ErrorOpts :=
  {| opt_code := Some c; opt_detail := None; opt_suggestion := None;
     opt_docsUrl := None; opt_context := None |}.

(** An instance of [VaultError] or of a subclass. *)
Record ErrorObject : Type := {
  cls : ErrorClass;
  name : string;
  message : string;
  code : string;
  detail : option string;
  suggestion : option string;
  docsUrl : option string;
  context : json
}.

Definition new_VaultError (msg : string) (opts : ErrorOpts) : ErrorObject :=
  {| cls := VaultError;
     name := "VaultError";
     message := msg;
     code := default "UNKNOWN" (opt_code opts);
     detail := opt_detail opts;
     suggestion := opt_suggestion opts;
     docsUrl := opt_docsUrl opts;
     context := default (JObj []) (opt_context opts) |}.

(** [{ code: c, ...opts }] *)
Definition spread_code (c : string) (opts : ErrorOpts) : ErrorOpts :=
  {| opt_code := Some (default c (opt_code opts));
     opt_detail := opt_detail opts;
     opt_suggestion := opt_suggestion opts;
     opt_docsUrl := opt_docsUrl opts;
     opt_context := opt_context opts |}.

(** A subclass constructor: [super(message, { code: c, ...opts })] and
    then [this.name = nm]. *)
Definition new_subclass (k : ErrorClass) (nm c : string) (msg : string) (opts : ErrorOpts)
  : ErrorObject :=
  let e := new_VaultError msg (spread_code c opts) in
  {| cls := k; name := nm; message := message e; code := code e;
     detail := detail e; suggestion := suggestion e; docsUrl := docsUrl e;
     context := context e |}.

Definition new_AuthError := new_subclass AuthError "AuthError" "AUTH_FAILED".
Definition new_AccessDenied := new_subclass AccessDenied "AccessDenied" "ACCESS_DENIED".
Definition new_CredentialNotFound :=
  new_subclass CredentialNotFound "CredentialNotFound" "CREDENTIAL_NOT_FOUND".
Definition new_VaultLocked := new_subclass VaultLocked "VaultLocked" "VAULT_LOCKED".
Definition new_LeaseExpired := new_subclass LeaseExpired "LeaseExpired" "LEASE_EXPIRED".
Definition new_RateLimited := new_subclass RateLimited "RateLimited" "RATE_LIMITED".
Definition new_SessionExpired :=
  new_subclass SessionExpired "SessionExpired" "SESSION_EXPIRED".

(** [new K(message, opts)] for an error class [K]. *)
Definition construct (k : ErrorClass) : string -> ErrorOpts -> ErrorObject :=
  match k with
  | VaultError => new_VaultError
  | AuthError => new_AuthError
  | AccessDenied => new_AccessDenied
  | CredentialNotFound => new_CredentialNotFound
  | VaultLocked => new_VaultLocked
  | LeaseExpired => new_LeaseExpired
  | RateLimited => new_RateLimited
  | SessionExpired => new_SessionExpired
  end.

(** The own properties of the object literal [CODE_TO_ERROR]. *)
Definition CODE_TO_ERROR : list (string * ErrorClass) :=
  [ ("AUTH_FAILED", AuthError);
    ("ACCESS_DENIED", AccessDenied);
    ("CREDENTIAL_NOT_FOUND", CredentialNotFound);
    ("VAULT_LOCKED", VaultLocked);
    ("LEASE_EXPIRED", LeaseExpired);
    ("RATE_LIMITED", RateLimited);
    ("SESSION_EXPIRED", SessionExpired) ].

(** What a property read on [CODE_TO_ERROR] can give.  The literal is an
    ordinary object, so a read that misses its own properties goes on to
    [Object.prototype]. *)
Inductive PropertyValue : Type :=
| ClassValue (k : ErrorClass)
| ObjectConstructor
| NotAConstructor.

(** [Object.prototype]: [constructor] is the function [Object];
    [__proto__] reads as [Object.prototype] itself, and the others are
    built-in methods, none of which can be called with [new]. *)
Definition Object_prototype : list (string * PropertyValue) :=
  [ ("constructor", ObjectConstructor);
    ("__defineGetter__", NotAConstructor);
    ("__defineSetter__", NotAConstructor);
    ("hasOwnProperty", NotAConstructor);
    ("__lookupGetter__", NotAConstructor);
    ("__lookupSetter__", NotAConstructor);
    ("isPrototypeOf", NotAConstructor);
    ("propertyIsEnumerable", NotAConstructor);
    ("toString", NotAConstructor);
    ("valueOf", NotAConstructor);
    ("__proto__", NotAConstructor);
    ("toLocaleString", NotAConstructor) ].

(** [CODE_TO_ERROR[code]]; [None] is [undefined]. *)
Definition CODE_TO_ERROR_get (c : string) : option PropertyValue :=
  match assoc c CODE_TO_ERROR with
  | Some k => Some (ClassValue k)
  | None => assoc c Object_prototype
  end.

(** ** Thrown values and completions *)

Inductive Thrown : Type :=
| ThrowError (e : ErrorObject)
| ThrowTypeError (msg : string)
| ThrowRangeError (msg : string)
| ThrowSyntaxError
| ThrowStringObject (s : string)
| ThrowSystemError (errno : string).

(** The result of a synchronous call.  [Unmodelled] marks a run that
    leaves what this development covers (see [parse_result]). *)
Inductive Completion (A : Type) : Type :=
| Normal (a : A)
| Throw (e : Thrown)
| Unmodelled.
Arguments Normal {A} a.
Arguments Throw {A} e.
Arguments Unmodelled {A}.

Global Instance Completion_ret : MRet Completion := fun A a => Normal a.
Global Instance Completion_bind : MBind Completion := fun A B f c =>
  match c with
  | Normal a => f a
  | Throw e => Throw e
  | Unmodelled => Unmodelled
  end.

Definition JSON_parse (text : string) : Completion json :=
  match parse_text text with
  | Parsed v _ => Normal v
  | SyntaxError => Throw ThrowSyntaxError
  | Unsupported => Unmodelled
  end.

(** ** Buffers *)

Definition Buffer : Type := list byte.

Definition Buffer_from (s : string) : Buffer := list_byte_of_string s.
Definition Buffer_toString (b : Buffer) : string := string_of_list_byte b.
Definition Buffer_length (b : Buffer) : Z := Z.of_nat (length b).

(** [b.subarray(start, stop)] and [b.subarray(start)] for indices that
    are not negative; both clamp to the end of the buffer. *)
Definition subarray (b : Buffer) (start stop : Z) : Buffer :=
  take (Z.to_nat (stop - start)) (drop (Z.to_nat start) b).
Definition subarray_from (b : Buffer) (start : Z) : Buffer :=
  drop (Z.to_nat start) b.

Definition byte_of_Z (z : Z) : byte :=
  default x00 (Byte.of_N (Z.to_N (z mod 256))).
Definition Z_of_byte (b : byte) : Z := Z.of_N (Byte.to_N b).

(** [Buffer.alloc(4)] followed by [writeUInt32BE(v)]. *)
Definition uint32_bytes (v : Z) : Buffer :=
  [ byte_of_Z (Z.shiftr v 24); byte_of_Z (Z.shiftr v 16);
    byte_of_Z (Z.shiftr v 8); byte_of_Z v ].

Definition writeUInt32BE (v : Z) : Completion Buffer :=
  if (0 <=? v) && (v <=? 4294967295) then Normal (uint32_bytes v)
  else Throw (ThrowRangeError "ERR_OUT_OF_RANGE").

(** [b.readUInt32BE(0)] *)
Definition readUInt32BE (b : Buffer) : Completion Z :=
  match b with
  | b0 :: b1 :: b2 :: b3 :: _ =>
      Normal (Z_of_byte b0 * 2 ^ 24 + Z_of_byte b1 * 2 ^ 16 + Z_of_byte b2 * 2 ^ 8
              + Z_of_byte b3)
  | _ => Throw (ThrowRangeError "ERR_OUT_OF_RANGE")
  end.

(** ** protocol.ts *)

Definition MAX_MESSAGE_SIZE : Z := 4 * 1024 * 1024.

Definition internal_error (msg : string) : Thrown :=
  ThrowError (new_VaultError msg (code_opts "INTERNAL_ERROR")).

Definition encodeFrame (obj : json) : Completion Buffer :=
  let payload := Buffer_from (JSON_stringify obj) in
  header ← writeUInt32BE (Buffer_length payload);
  mret (header ++ payload).

Definition decodeFrame (data : Buffer) : Completion (json * Buffer) :=
  if Buffer_length data <? 4 then Throw (internal_error "Incomplete frame header")
  else
    length ← readUInt32BE data;
    if length >? MAX_MESSAGE_SIZE then Throw (internal_error "Response too large")
    else if Buffer_length data <? 4 + length
    then Throw (internal_error "Incomplete frame body")
    else
      obj ← JSON_parse (Buffer_toString (subarray data 4 (4 + length)));
      mret (obj, subarray_from data (4 + length)).

(** [r] survives [JSON.parse(JSON.stringify(r))]. *)
Definition serializable (r : json) : Prop := JSON_parse (JSON_stringify r) = Normal r.

(** The byte length of the JSON text of [r]. *)
Definition payload_size (r : json) : Z := Buffer_length (Buffer_from (JSON_stringify r)).

(** ** types.ts *)

Module StructuredError.

(** A field is [None] when it is absent from the payload or [null]. *)
Record t : Type := mk {
  code : option string;
  message : option string;
  detail : option string;
  suggestion : option string;
  docs_url : option string;
  context : option json
}.

End StructuredError.

Inductive ErrorField : Type :=
| ErrorString (s : string)
| ErrorStructured (e : StructuredError.t).

Module RpcResponse.

Record t : Type := mk {
  id : Z;
  result : option json;
  error : option ErrorField
}.

End RpcResponse.

(** [raiseOnError(resp)]: [Normal tt] when it returns.  In the last line
    of the source, [new Cls(...)] builds an error when [Cls] is one of the
    classes; [new Object(message, ...)] is the message boxed as a [String]
    object; and [new] on a value that is not a constructor is a
    [TypeError]. *)
Definition raiseOnError (resp : RpcResponse.t) : Completion unit :=
  match RpcResponse.error resp with
  | None => Normal tt
  | Some (ErrorString err) => Throw (ThrowError (new_VaultError err no_opts))
  | Some (ErrorStructured structured) =>
      let code := default "INTERNAL_ERROR" (StructuredError.code structured) in
      let msg := default "Unknown error" (StructuredError.message structured) in
      let opts :=
        {| opt_code := Some code;
           opt_detail := StructuredError.detail structured;
           opt_suggestion := StructuredError.suggestion structured;
           opt_docsUrl := StructuredError.docs_url structured;
           opt_context := Some (default (JObj []) (StructuredError.context structured)) |} in
      match default (ClassValue VaultError) (CODE_TO_ERROR_get code) with
      | ClassValue Cls => Throw (ThrowError (construct Cls msg opts))
      | ObjectConstructor => Throw (ThrowStringObject msg)
      | NotAConstructor => Throw (ThrowTypeError "Cls is not a constructor")
      end
  end.

(** ** The platform *)

Record KeyPair : Type := { publicKey : Buffer; secretKey : Buffer }.

(** What the SDK takes from Node and from tweetnacl without this
    repository defining it: the home directory, [path.join],
    [fs.readFileSync(p, "utf-8")], [String.prototype.trim] and the two
    Ed25519 functions. *)
Record Platform : Type := {
  os_homedir : string;
  path_join : string -> string -> string;
  fs_readFileSync : string -> Completion string;
  String_trim : string -> string;
  nacl_sign_keyPair_fromSeed : Buffer -> KeyPair;
  nacl_sign_detached : Buffer -> Buffer -> Buffer
}.

(** [Buffer.from(s, "hex")]: pairs of hex digits, up to the first pair
    that is not one. *)
Fixpoint hex_decode (s : string) : Buffer :=
  match s with
  | String a (String b r) =>
      match hexval a, hexval b with
      | Some h, Some l => byte_of_Z (Z.of_N (h * 16 + l)) :: hex_decode r
      | _, _ => []
      end
  | _ => []
  end.

(** [buf.toString("hex")] *)
Fixpoint hex_encode (b : Buffer) : string :=
  match b with
  | [] => EmptyString
  | x :: r =>
      let n := Byte.to_N x in
      String (hexdigit (n / 16)) (String (hexdigit (n mod 16)) (hex_encode r))
  end.

(** [buf.toString("utf-8")] on ASCII bytes; other bytes need the UTF-8
    decoder, which is not modelled. *)
Definition utf8_toString (b : Buffer) : Completion string :=
  if forallb (fun x => (Byte.to_N x <? 128)%N) b
  then Normal (string_of_list_byte b) else Unmodelled.

(** ** client.ts: the state *)

Definition DEFAULT_SOCKET : string := "~/.sanctum/vault.sock".
Definition DEFAULT_KEY_DIR : string := "~/.sanctum/keys".

Definition startsWith_tilde (p : string) : bool :=
  match p with
  | String "~" _ => true
  | _ => false
  end.

Definition slice1 (p : string) : string :=
  match p with
  | String _ r => r
  | EmptyString => EmptyString
  end.

Definition expandHome (P : Platform) (p : string) : string :=
  if startsWith_tilde p then path_join P (os_homedir P) (slice1 p) else p.

(** [ConnectionTarget = string | { host: string; port: number }] *)
Inductive ConnectionTarget : Type :=
| TargetPath (p : string)
| TargetHostPort (h : string) (n : Z).

(** The options [net.createConnection] is called with. *)
Inductive ConnectOptions : Type :=
| TcpOptions (h : string) (n : Z)
| IpcOptions (path : string).

(** A [net.Socket] as the client sees it: where it connects, which of
    the listeners of [rawConnect] are attached, the state of the promise
    [rawConnect] returned, and the frames written so far. *)
Record Socket : Type := {
  options : ConnectOptions;
  error_listener : bool;
  connect_listener : bool;
  connected : option (Completion unit);
  written : list Buffer
}.

(** The fields of the class.  [pending] holds the keys of the [Map]; the
    entry under [id] closes over the promise that [call] returned for
    [id], whose state, once settled, is [promises !! id].  [calls] is a
    history variable: the invocations of [call], oldest first. *)
Record SanctumClient : Type := {
  agentName : string;
  socketPath : option string;
  host : option string;
  port : option Z;
  keyPath : option string;
  socket : option Socket;
  sessionId : option string;
  reqId : Z;
  leases : list string;
  buffer : Buffer;
  pending : gset Z;
  promises : gmap Z (Completion json);
  calls : list (string * json)
}.

Definition set_socketPath (v : option string) (c : SanctumClient) : SanctumClient :=
  {| agentName := agentName c; socketPath := v; host := host c; port := port c; keyPath := keyPath c; socket := socket c; sessionId := sessionId c; reqId := reqId c; leases := leases c; buffer := buffer c; pending := pending c; promises := promises c; calls := calls c |}.
Definition set_host (v : option string) (c : SanctumClient) : SanctumClient :=
  {| agentName := agentName c; socketPath := socketPath c; host := v; port := port c; keyPath := keyPath c; socket := socket c; sessionId := sessionId c; reqId := reqId c; leases := leases c; buffer := buffer c; pending := pending c; promises := promises c; calls := calls c |}.
Definition set_port (v : option Z) (c : SanctumClient) : SanctumClient :=
  {| agentName := agentName c; socketPath := socketPath c; host := host c; port := v; keyPath := keyPath c; socket := socket c; sessionId := sessionId c; reqId := reqId c; leases := leases c; buffer := buffer c; pending := pending c; promises := promises c; calls := calls c |}.
Definition set_socket (v : option Socket) (c : SanctumClient) : SanctumClient :=
  {| agentName := agentName c; socketPath := socketPath c; host := host c; port := port c; keyPath := keyPath c; socket := v; sessionId := sessionId c; reqId := reqId c; leases := leases c; buffer := buffer c; pending := pending c; promises := promises c; calls := calls c |}.
Definition set_sessionId (v : option string) (c : SanctumClient) : SanctumClient :=
  {| agentName := agentName c; socketPath := socketPath c; host := host c; port := port c; keyPath := keyPath c; socket := socket c; sessionId := v; reqId := reqId c; leases := leases c; buffer := buffer c; pending := pending c; promises := promises c; calls := calls c |}.
Definition set_reqId (v : Z) (c : SanctumClient) : SanctumClient :=
  {| agentName := agentName c; socketPath := socketPath c; host := host c; port := port c; keyPath := keyPath c; socket := socket c; sessionId := sessionId c; reqId := v; leases := leases c; buffer := buffer c; pending := pending c; promises := promises c; calls := calls c |}.
Definition set_leases (v : list string) (c : SanctumClient) : SanctumClient :=
  {| agentName := agentName c; socketPath := socketPath c; host := host c; port := port c; keyPath := keyPath c; socket := socket c; sessionId := sessionId c; reqId := reqId c; leases := v; buffer := buffer c; pending := pending c; promises := promises c; calls := calls c |}.
Definition set_buffer (v : Buffer) (c : SanctumClient) : SanctumClient :=
  {| agentName := agentName c; socketPath := socketPath c; host := host c; port := port c; keyPath := keyPath c; socket := socket c; sessionId := sessionId c; reqId := reqId c; leases := leases c; buffer := v; pending := pending c; promises := promises c; calls := calls c |}.
Definition set_pending (v : gset Z) (c : SanctumClient) : SanctumClient :=
  {| agentName := agentName c; socketPath := socketPath c; host := host c; port := port c; keyPath := keyPath c; socket := socket c; sessionId := sessionId c; reqId := reqId c; leases := leases c; buffer := buffer c; pending := v; promises := promises c; calls := calls c |}.
Definition set_promises (v : gmap Z (Completion json)) (c : SanctumClient) : SanctumClient :=
  {| agentName := agentName c; socketPath := socketPath c; host := host c; port := port c; keyPath := keyPath c; socket := socket c; sessionId := sessionId c; reqId := reqId c; leases := leases c; buffer := buffer c; pending := pending c; promises := v; calls := calls c |}.
Definition set_calls (v : list (string * json)) (c : SanctumClient) : SanctumClient :=
  {| agentName := agentName c; socketPath := socketPath c; host := host c; port := port c; keyPath := keyPath c; socket := socket c; sessionId := sessionId c; reqId := reqId c; leases := leases c; buffer := buffer c; pending := pending c; promises := promises c; calls := v |}.

Record ClientOptions : Type := {
  opt_socketPath : option string;
  opt_host : option string;
  opt_port : option Z;
  opt_keyPath : option string
}.

(** The constructor. *)
Definition new_SanctumClient (name : string) (opts : ClientOptions) : SanctumClient :=
  {| agentName := name;
     socketPath := opt_socketPath opts;
     host := opt_host opts;
     port := opt_port opts;
     keyPath := opt_keyPath opts;
     socket := None;
     sessionId := None;
     reqId := 0;
     leases := [];
     buffer := [];
     pending := ∅;
     promises := ∅;
     calls := [] |}.

(** ** client.ts: the receive path *)

(** [v[k]] for a value that came out of [JSON.parse] and a key [k] that
    no prototype defines (every key the SDK reads is one): the own
    property of an object, [undefined] on anything else. *)
Definition get (v : json) (k : string) : option json :=
  match v with
  | JObj props => assoc k props
  | _ => None
  end.

(** [x ?? d] reads [x] unless it is [undefined] or [null]. *)
Definition nullish (v : option json) : option json :=
  match v with
  | Some JNull => None
  | _ => v
  end.

(** A payload is read through the interfaces of [types.ts].  Where a
    field does not have its declared type the run is [Unmodelled]. *)
Definition optional_string (v : option json) : Completion (option string) :=
  match nullish v with
  | None => Normal None
  | Some (JStr s) => Normal (Some s)
  | Some _ => Unmodelled
  end.

Definition as_StructuredError (v : json) : Completion StructuredError.t :=
  c ← optional_string (get v "code");
  m ← optional_string (get v "message");
  d ← optional_string (get v "detail");
  s ← optional_string (get v "suggestion");
  u ← optional_string (get v "docs_url");
  mret (StructuredError.mk c m d s u (nullish (get v "context"))).

Definition as_ErrorField (v : option json) : Completion (option ErrorField) :=
  match nullish v with
  | None => Normal None
  | Some (JStr s) => Normal (Some (ErrorString s))
  | Some structured =>
      e ← as_StructuredError structured;
      mret (Some (ErrorStructured e))
  end.

Definition as_RpcResponse (id : Z) (payload : json) : Completion RpcResponse.t :=
  e ← as_ErrorField (get payload "error");
  mret (RpcResponse.mk id (nullish (get payload "result")) e).

(** The [resolve] that [call] stores in [pending]:
    [try { raiseOnError(resp); resolve(resp.result ?? {}) } catch (e) { reject(e) }].
    The completion it gives is the state the promise settles in. *)
Definition on_response (resp : RpcResponse.t) : Completion json :=
  _ ← raiseOnError resp;
  mret (default (JObj []) (RpcResponse.result resp)).

(** The part of the loop of [onData] that follows [JSON.parse]:
    [const p = this.pending.get(payload.id); if (p) { ... }]. *)
Definition dispatch (payload : json) (c : SanctumClient) : SanctumClient * Completion unit :=
  match payload with
  | JNull => (c, Throw (ThrowTypeError "Cannot read properties of null"))
  | _ =>
      match get payload "id" with
      | Some (JNum id) =>
          if decide (id ∈ pending c) then
            let c1 := set_pending (pending c ∖ {[id]}) c in
            let settled := as_RpcResponse id payload ≫= on_response in
            (set_promises (<[id := settled]> (promises c1)) c1, Normal tt)
          else (c, Normal tt)
      | _ => (c, Normal tt)
      end
  end.

(** The [while] loop of [onData].  Every turn drops at least four bytes
    of the buffer, so [fuel] above the length of the buffer is never used
    up. *)
Fixpoint onData_loop (fuel : nat) (c : SanctumClient) : SanctumClient * Completion unit :=
  match fuel with
  | O => (c, Unmodelled)
  | S fuel' =>
      if Buffer_length (buffer c) <? 4 then (c, Normal tt)
      else
        match readUInt32BE (buffer c) with
        | Normal length =>
            if Buffer_length (buffer c) <? 4 + length then (c, Normal tt)
            else
              match JSON_parse (Buffer_toString (subarray (buffer c) 4 (4 + length))) with
              | Normal payload =>
                  let c1 := set_buffer (subarray_from (buffer c) (4 + length)) c in
                  match dispatch payload c1 with
                  | (c2, Normal _) => onData_loop fuel' c2
                  | (c2, Throw e) => (c2, Throw e)
                  | (c2, Unmodelled) => (c2, Unmodelled)
                  end
              | Throw e => (c, Throw e)
              | Unmodelled => (c, Unmodelled)
              end
        | Throw e => (c, Throw e)
        | Unmodelled => (c, Unmodelled)
        end
  end.

Definition onData (chunk : Buffer) (c : SanctumClient) : SanctumClient * Completion unit :=
  let c1 := set_buffer (buffer c ++ chunk) c in
  onData_loop (S (length (buffer c1))) c1.

(** ** client.ts: socket events *)

Inductive SocketEvent : Type :=
| EvConnect
| EvData (chunk : Buffer)
| EvError (e : Thrown)
| EvClose.

Definition settle_connect (r : Completion unit) (s : Socket) : Socket :=
  {| options := options s;
     error_listener := error_listener s;
     connect_listener := connect_listener s;
     connected := match connected s with None => Some r | Some old => Some old end;
     written := written s |}.

(** The listener of [once("connect")]:
    [this.socket.removeListener("error", reject); resolve()]. *)
Definition on_connect (s : Socket) : Socket :=
  settle_connect (Normal tt)
    {| options := options s; error_listener := false; connect_listener := false;
       connected := connected s; written := written s |}.

Definition socket_write (frame : Buffer) (s : Socket) : Socket :=
  {| options := options s; error_listener := error_listener s;
     connect_listener := connect_listener s; connected := connected s;
     written := written s ++ [frame] |}.

(** [socket.emit(ev)] with the listeners [rawConnect] attached:
    ["data"] goes to [onData]; ["error"] to the [reject] of [rawConnect]
    while it is attached, and an ["error"] event without a listener is
    thrown by the emitter; ["connect"] fires its listener once; nothing
    listens to ["close"].  The completion is what escapes the listeners. *)
Definition emit (ev : SocketEvent) (c : SanctumClient) : SanctumClient * Completion unit :=
  match socket c with
  | None => (c, Normal tt)
  | Some s =>
      match ev with
      | EvData chunk => onData chunk c
      | EvError e =>
          if error_listener s
          then (set_socket (Some (settle_connect (Throw e) s)) c, Normal tt)
          else (c, Throw e)
      | EvConnect =>
          if connect_listener s
          then (set_socket (Some (on_connect s)) c, Normal tt)
          else (c, Normal tt)
      | EvClose => (c, Normal tt)
      end
  end.

Fixpoint deliver (evs : list SocketEvent) (c : SanctumClient) : SanctumClient * Completion unit :=
  match evs with
  | [] => (c, Normal tt)
  | ev :: rest =>
      match emit ev c with
      | (c1, Normal _) => deliver rest c1
      | (c1, Throw e) => (c1, Throw e)
      | (c1, Unmodelled) => (c1, Unmodelled)
      end
  end.

(** ** client.ts: the asynchronous methods *)

(** How an [await]ed method ends: its promise is fulfilled or rejected;
    or it is never settled and the caller stays suspended; or an
    exception escaped an event listener meanwhile, which no caller can
    catch; or the run left the model. *)
Inductive Outcome (A : Type) : Type :=
| Fulfilled (a : A)
| Rejected (e : Thrown)
| Suspended
| Uncaught (e : Thrown)
| OffModel.
Arguments Fulfilled {A} a.
Arguments Rejected {A} e.
Arguments Suspended {A}.
Arguments Uncaught {A} e.
Arguments OffModel {A}.

(** The daemon and the transport: for each [await] in turn, the events
    the socket emits while the caller is suspended there. *)
Definition World : Type := list (list SocketEvent).

Definition Async (A : Type) : Type :=
  SanctumClient -> World -> Outcome A * SanctumClient * World.

Definition async_ret {A : Type} (a : A) : Async A := fun c w => (Fulfilled a, c, w).

Definition async_bind {A B : Type} (m : Async A) (f : A -> Async B) : Async B :=
  fun c w =>
    match m c w with
    | (Fulfilled a, c1, w1) => f a c1 w1
    | (Rejected e, c1, w1) => (Rejected e, c1, w1)
    | (Suspended, c1, w1) => (Suspended, c1, w1)
    | (Uncaught e, c1, w1) => (Uncaught e, c1, w1)
    | (OffModel, c1, w1) => (OffModel, c1, w1)
    end.

Notation "'await' x '<-' m 'in' k" := (async_bind m (fun x => k))
  (at level 10, x binder, m at level 100, k at level 200).

Definition of_completion {A : Type} (r : Completion A) : Async A :=
  fun c w =>
    match r with
    | Normal a => (Fulfilled a, c, w)
    | Throw e => (Rejected e, c, w)
    | Unmodelled => (OffModel, c, w)
    end.

Definition update (f : SanctumClient -> SanctumClient) : Async unit :=
  fun c w => (Fulfilled tt, f c, w).

Definition read {A : Type} (f : SanctumClient -> A) : Async A :=
  fun c w => (Fulfilled (f c), c, w).

(** [await] on a promise of the client: the next batch of events is
    delivered, and the caller resumes with the state the promise reached. *)
Definition await_with {A : Type} (state : SanctumClient -> option (Completion A)) : Async A :=
  fun c w =>
    match w with
    | [] => (Suspended, c, [])
    | batch :: w1 =>
        match deliver batch c with
        | (c1, Normal _) =>
            match state c1 with
            | Some (Normal a) => (Fulfilled a, c1, w1)
            | Some (Throw e) => (Rejected e, c1, w1)
            | Some Unmodelled => (OffModel, c1, w1)
            | None => (Suspended, c1, w1)
            end
        | (c1, Throw e) => (Uncaught e, c1, w1)
        | (c1, Unmodelled) => (OffModel, c1, w1)
        end
    end.

Definition request (id : Z) (method : string) (params : json) : json :=
  JObj [("id", JNum id); ("method", JStr method); ("params", params)].

(** [call(method, params)] and the [await] of its promise. *)
Definition call (method : string) (params : json) : Async json :=
  fun c w =>
    let c := set_calls (calls c ++ [(method, params)]) c in
    match socket c with
    | None => (Rejected (internal_error "Not connected"), c, w)
    | Some s =>
        let id := reqId c + 1 in
        let c := set_reqId id c in
        match encodeFrame (request id method params) with
        | Normal frame =>
            let c := set_promises (delete id (promises c)) c in
            let c := set_pending ({[id]} ∪ pending c) c in
            let c := set_socket (Some (socket_write frame s)) c in
            await_with (fun c' => promises c' !! id) c w
        | Throw e => (Rejected e, c, w)
        | Unmodelled => (OffModel, c, w)
        end
    end.

(** [this.host && this.port], [keyPath ? ... : ...], [!r2.authenticated]:
    what JavaScript takes for true. *)
Definition truthy_string (s : option string) : bool :=
  match s with
  | Some (String _ _) => true
  | _ => false
  end.

Definition truthy_number (n : option Z) : bool :=
  match n with
  | Some n => negb (n =? 0)
  | None => false
  end.

Definition truthy (v : option json) : bool :=
  match v with
  | None | Some JNull | Some (JBool false) | Some (JNum 0) | Some (JStr EmptyString) => false
  | Some _ => true
  end.

(** [net.createConnection(options)]: a port that is not one is refused
    at once; otherwise a socket with nothing attached or written. *)
Definition createConnection (o : ConnectOptions) : Completion Socket :=
  let fresh :=
    {| options := o; error_listener := false; connect_listener := false;
       connected := None; written := [] |} in
  match o with
  | TcpOptions _ n =>
      if (0 <=? n) && (n <=? 65535) then Normal fresh
      else Throw (ThrowRangeError "ERR_SOCKET_BAD_PORT")
  | IpcOptions _ => Normal fresh
  end.

(** The branch of [rawConnect]. *)
Definition connect_options (P : Platform) (c : SanctumClient) : ConnectOptions :=
  match host c, port c with
  | Some h, Some n =>
      if truthy_string (Some h) && truthy_number (Some n) then TcpOptions h n
      else IpcOptions (expandHome P (default DEFAULT_SOCKET (socketPath c)))
  | _, _ => IpcOptions (expandHome P (default DEFAULT_SOCKET (socketPath c)))
  end.

Definition attach_listeners (s : Socket) : Socket :=
  {| options := options s; error_listener := true; connect_listener := true;
     connected := connected s; written := written s |}.

Definition rawConnect (P : Platform) : Async unit :=
  fun c w =>
    match createConnection (connect_options P c) with
    | Normal s =>
        let c := set_socket (Some (attach_listeners s)) c in
        await_with (fun c' => socket c' ≫= connected) c w
    | Throw e => (Rejected e, c, w)
    | Unmodelled => (OffModel, c, w)
    end.

Definition loadKey (P : Platform) (agent : string) (keyPath : option string)
  : Completion KeyPair :=
  let p :=
    match keyPath with
    | Some (String a r) => expandHome P (String a r)
    | _ => path_join P (expandHome P DEFAULT_KEY_DIR) (agent +:+ ".key")
    end in
  text ← fs_readFileSync P p;
  let seed := hex_decode (String_trim P text) in
  if decide (Buffer_length seed = 32)
  then mret (nacl_sign_keyPair_fromSeed P seed)
  else Throw (ThrowError (new_AuthError
         ("Key file has " +:+ number_to_string (Buffer_length seed) +:+ " bytes, expected 32")
         no_opts)).

(** [Buffer.from(x, "hex")] for a value out of a payload: a string is
    decoded, [undefined], [null], a number or a boolean is a type error. *)
Definition Buffer_from_hex (v : option json) : Completion Buffer :=
  match v with
  | Some (JStr s) => Normal (hex_decode s)
  | None | Some JNull | Some (JNum _) | Some (JBool _) =>
      Throw (ThrowTypeError "ERR_INVALID_ARG_TYPE")
  | Some (JArr _) | Some (JObj _) => Unmodelled
  end.

Definition required_string (v : option json) : Completion string :=
  match v with
  | Some (JStr s) => Normal s
  | _ => Unmodelled
  end.

Definition session_json (sid : option string) : json :=
  match sid with
  | Some s => JStr s
  | None => JNull
  end.

(** [{ session_id: this.sessionId, signature: <hex> }] *)
Definition challenge_response_params (session : option string) (signature : Buffer) : json :=
  JObj [("session_id", session_json session); ("signature", JStr (hex_encode signature))].

Definition authenticate (P : Platform) (agent : string) (keyPath : option string)
  : Async unit :=
  await keyPair <- of_completion (loadKey P agent keyPath) in
  await r1 <- call "authenticate" (JObj [("agent_name", JStr agent)]) in
  await sid <- of_completion (required_string (get r1 "session_id")) in
  await _ <- update (set_sessionId (Some sid)) in
  await challenge <- of_completion (Buffer_from_hex (get r1 "challenge")) in
  let signature := nacl_sign_detached P challenge (secretKey keyPair) in
  await session <- read sessionId in
  await r2 <- call "challenge_response" (challenge_response_params session signature) in
  if truthy (get r2 "authenticated") then async_ret tt
  else of_completion (Throw (ThrowError (new_AuthError "Authentication not confirmed" no_opts))).

Definition set_target (target : option ConnectionTarget) (c : SanctumClient) : SanctumClient :=
  match target with
  | None => c
  | Some (TargetPath p) => set_host None (set_socketPath (Some p) c)
  | Some (TargetHostPort h n) => set_socketPath None (set_port (Some n) (set_host (Some h) c))
  end.

Definition connect (P : Platform) (target : option ConnectionTarget) : Async unit :=
  await _ <- update (set_target target) in
  await _ <- rawConnect P in
  await agent <- read agentName in
  await kp <- read keyPath in
  authenticate P agent kp.

(** [{ session_id: this.sessionId, path: credPath }], with [ttl] added
    when it is given. *)
Definition retrieve_params (session : option string) (credPath : string) (ttl : option Z)
  : json :=
  JObj ([("session_id", session_json session); ("path", JStr credPath)]
        ++ match ttl with Some t => [("ttl", JNum t)] | None => [] end).

Definition retrieve (credPath : string) (ttl : option Z) : Async string :=
  await session <- read sessionId in
  await r <- call "retrieve" (retrieve_params session credPath ttl) in
  await lease <- of_completion (required_string (get r "lease_id")) in
  await _ <- update (fun c => set_leases (leases c ++ [lease]) c) in
  await value <- of_completion (Buffer_from_hex (get r "value")) in
  of_completion (utf8_toString value).

Definition list_ : Async json :=
  await session <- read sessionId in
  await r <- call "list" (JObj [("session_id", session_json session)]) in
  async_ret (default (JArr []) (nullish (get r "credentials"))).

Definition releaseLease (leaseId : string) : Async unit :=
  await _ <- call "release_lease" (JObj [("lease_id", JStr leaseId)]) in
  update (fun c => set_leases (filter (fun id => id ≠ leaseId) (leases c)) c).

Definition use (credPath operation : string) (params : option json) : Async json :=
  await session <- read sessionId in
  let rpcParams :=
    [("session_id", session_json session); ("path", JStr credPath);
     ("operation", JStr operation)]
    ++ match params with Some p => [("params", p)] | None => [] end in
  call "use" (JObj rpcParams).

(** [try { await this.releaseLease(lid) } catch {}] for each [lid] of the
    snapshot [[...this.leases]]. *)
Fixpoint release_all (snapshot : list string) : Async unit :=
  fun c w =>
    match snapshot with
    | [] => (Fulfilled tt, c, w)
    | lid :: rest =>
        match releaseLease lid c w with
        | (Fulfilled _, c1, w1) => release_all rest c1 w1
        | (Rejected _, c1, w1) => release_all rest c1 w1
        | (Suspended, c1, w1) => (Suspended, c1, w1)
        | (Uncaught e, c1, w1) => (Uncaught e, c1, w1)
        | (OffModel, c1, w1) => (OffModel, c1, w1)
        end
    end.

Definition close : Async unit :=
  await snapshot <- read leases in
  await _ <- release_all snapshot in
  await _ <- update (set_socket None) in
  update (set_sessionId None).

(** ** Sample data for the concrete runs *)

Fixpoint string_repeat (c : ascii) (n : nat) : string :=
  match n with
  | O => EmptyString
  | S m => String c (string_repeat c m)
  end.

(** [{ k: "aa...a" }] with [n] letters. *)
Definition long_object (n : nat) : json := JObj [("k", JStr (string_repeat "a" n))].

(** The same with 4 MiB of letters: its JSON text has 4 MiB + 8 bytes. *)
Definition oversize_object : json := long_object (Z.to_nat 4194304).

(** The request of [tests/protocol.test.ts]. *)
Definition sample_request : json :=
  JObj [("id", JNum 1); ("method", JStr "authenticate");
        ("params", JObj [("agent_name", JStr "test")])].

(** The [name] each constructor sets. *)
Definition class_name (k : ErrorClass) : string :=
  match k with
  | VaultError => "VaultError"
  | AuthError => "AuthError"
  | AccessDenied => "AccessDenied"
  | CredentialNotFound => "CredentialNotFound"
  | VaultLocked => "VaultLocked"
  | LeaseExpired => "LeaseExpired"
  | RateLimited => "RateLimited"
  | SessionExpired => "SessionExpired"
  end.

(** The error kind the specification gives a code: its entry in the
    table, the generic kind for a code the table does not list. *)
Definition kind_of_code (c : string) : ErrorClass :=
  default VaultError (assoc c CODE_TO_ERROR).

(** The typed error the specification expects for a structured error. *)
Definition expected_error (e : StructuredError.t) : ErrorObject :=
  let c := default "INTERNAL_ERROR" (StructuredError.code e) in
  {| cls := kind_of_code c;
     name := class_name (kind_of_code c);
     message := default "Unknown error" (StructuredError.message e);
     code := c;
     detail := StructuredError.detail e;
     suggestion := StructuredError.suggestion e;
     docsUrl := StructuredError.docs_url e;
     context := default (JObj []) (StructuredError.context e) |}.

Definition structured_response (e : StructuredError.t) : RpcResponse.t :=
  RpcResponse.mk 1 None (Some (ErrorStructured e)).

(** [{ code: c, message: "boom" }] *)
Definition error_with_code (c : string) : StructuredError.t :=
  StructuredError.mk (Some c) (Some "boom") None None None None.

(** The request [releaseLease(lid)] passes to [call]. *)
Definition release_request (lid : string) : string * json :=
  ("release_lease", JObj [("lease_id", JStr lid)]).

(** Each [release_lease] call [close] makes for [snapshot], starting from
    [c] in the world [w], is settled, whether fulfilled or rejected. *)
Fixpoint all_settle (snapshot : list string) (c : SanctumClient) (w : World) : Prop :=
  match snapshot with
  | [] => True
  | lid :: rest =>
      match releaseLease lid c w with
      | (Fulfilled _, c1, w1) => all_settle rest c1 w1
      | (Rejected _, c1, w1) => all_settle rest c1 w1
      | _ => False
      end
  end.

(** The fields the receive path leaves alone. *)
Definition session_fields (c : SanctumClient) :=
  (agentName c, socketPath c, host c, port c, keyPath c, sessionId c, reqId c,
   leases c, calls c).

Fixpoint trim_left (s : string) : string :=
  match s with
  | String c r => if is_ws c then trim_left r else s
  | EmptyString => EmptyString
  end.

Definition ascii_trim (s : string) : string :=
  String.rev (trim_left (String.rev (trim_left s))).

(** A platform for the concrete runs: one key file, [path.join] and
    [trim] as they act on the strings of these runs, and stand-ins for
    the two Ed25519 functions (the scripted daemon checks no signature). *)
Definition sample_platform : Platform :=
  {| os_homedir := "/home/agent";
     path_join := fun a b => a +:+ match b with String "/" _ => b | _ => "/" +:+ b end;
     fs_readFileSync := fun p =>
       if String.eqb p "/home/agent/.sanctum/keys/my-agent.key"
       then Normal ("000102030405060708090a0b0c0d0e0f101112131415161718191a1b1c1d1e1f"
                    +:+ String "010" EmptyString)
       else Throw (ThrowSystemError "ENOENT");
     String_trim := ascii_trim;
     nacl_sign_keyPair_fromSeed := fun seed => {| publicKey := seed; secretKey := seed ++ seed |};
     nacl_sign_detached := fun m k => take 64 (m ++ k) |}.

Definition frame_of (v : json) : Buffer :=
  match encodeFrame v with
  | Normal f => f
  | _ => []
  end.

(** The daemon's answers: [{ id, result }] and [{ id, error }]. *)
Definition result_frame (id : Z) (r : json) : SocketEvent :=
  EvData (frame_of (JObj [("id", JNum id); ("result", r)])).
Definition error_frame (id : Z) (e : json) : SocketEvent :=
  EvData (frame_of (JObj [("id", JNum id); ("error", e)])).

(** A client given both target forms. *)
Definition sample_client : SanctumClient :=
  new_SanctumClient "my-agent"
    {| opt_socketPath := Some "/tmp/vault.sock"; opt_host := Some "127.0.0.1";
       opt_port := Some 8200; opt_keyPath := None |}.

(** The connection is accepted and the handshake answered; the last
    answer says [authenticated: ok]. *)
Definition handshake (ok : bool) : World :=
  [ [EvConnect];
    [result_frame 1 (JObj [("session_id", JStr "s1"); ("challenge", JStr "00ff")])];
    [result_frame 2 (JObj [("authenticated", JBool ok)])] ].

(** An asynchronous method that leaves the open-lease set as it found it. *)
Definition keeps_leases {A : Type} (m : Async A) : Prop :=
  forall c w, leases (snd (fst (m c w))) = leases c.

(** The sample client after [connect] and two [retrieve]s: the session
    is ["s1"] and the leases ["L1"] and ["L2"] are open. *)
Definition leased_world : World :=
  handshake true ++
  [ [result_frame 3 (JObj [("value", JStr "68656c6c6f"); ("lease_id", JStr "L1")])];
    [result_frame 4 (JObj [("value", JStr "74"); ("lease_id", JStr "L2"); ("ttl", JNum 300)])] ].

Definition leased_client : SanctumClient :=
  snd (fst ((await _ <- connect sample_platform None in
             await _ <- retrieve "openai/api_key" None in
             retrieve "github/token" (Some 300)) sample_client leased_world)).

(** The daemon refuses the first release and grants the second. *)
Definition release_world : World :=
  [ [error_frame 5 (JObj [("code", JStr "LEASE_EXPIRED"); ("message", JStr "gone")])];
    [result_frame 6 (JObj [])] ].


(** The sample client after [connect] alone. *)
Definition connected_client : SanctumClient :=
  snd (fst (connect sample_platform None sample_client (handshake true))).

Definition retrieve_world : World :=
  [ [result_frame 3 (JObj [("value", JStr "68656c6c6f"); ("lease_id", JStr "L1")])] ].

(** What [authenticate] throws when the daemon does not confirm. *)
Definition not_confirmed : Thrown :=
  ThrowError (new_AuthError "Authentication not confirmed" no_opts).

(** The sample client once its socket is connected, before the handshake. *)
Definition raw_connected_client : SanctumClient :=
  snd (fst (rawConnect sample_platform sample_client [[EvConnect]])).

(** A frame as the daemon builds it: the length prefix, then the text. *)
Definition whole_frame (text : string) : Buffer :=
  uint32_bytes (Buffer_length (Buffer_from text)) ++ Buffer_from text.

(** The state a promise settles in, as the outcome its [await] sees. *)
Definition outcome_of {A : Type} (r : Completion A) : Outcome A :=
  match r with
  | Normal a => Fulfilled a
  | Throw e => Rejected e
  | Unmodelled => OffModel
  end.

(** The answer [{ id: 3, result: {} }] followed by [n] spaces, which
    [JSON.parse] skips. *)
Definition padded_answer (n : nat) : string :=
  JSON_stringify (JObj [("id", JNum 3); ("result", JObj [])]) +:+ string_repeat " " n.

(** With 4194285 spaces the text is 4 MiB + 1 bytes long. *)
Definition oversize_answer : string := padded_answer (Z.to_nat 4194285).

(** The events a dying connection emits: ["close"] and ["error"]. *)
Definition connection_lost (ev : SocketEvent) : Prop :=
  match ev with
  | EvClose | EvError _ => True
  | EvConnect | EvData _ => False
  end.

(** The daemon answers the requests [id], [id + 1], ... in turn, each
    with the text of one response that carries the id of its request and
    has the shape [types.ts] declares. *)
Fixpoint answered (id : Z) (texts : list string) : Prop :=
  match texts with
  | [] => True
  | text :: rest =>
      (exists payload resp,
          Buffer_length (Buffer_from text) <= 4294967295
          /\ JSON_parse text = Normal payload
          /\ get payload "id" = Some (JNum id)
          /\ as_RpcResponse id payload = Normal resp)
      /\ answered (id + 1) rest
  end.

(** One batch per answer: the frame arrives whole, in one chunk. *)
Definition answers (texts : list string) : World :=
  map (fun text => [EvData (whole_frame text)]) texts.


(** Each of those frames can be written: its length fits the prefix. *)
Fixpoint releases_fit (id : Z) (snapshot : list string) : Prop :=
  match snapshot with
  | [] => True
  | lid :: rest =>
      payload_size (request id "release_lease" (JObj [("lease_id", JStr lid)]))
      <= 4294967295
      /\ releases_fit (id + 1) rest
  end.

(** ** The fragment on which [JSON_parse] inverts [JSON_stringify] *)

Fixpoint ascii_only (s : string) : bool :=
  match s with
  | EmptyString => true
  | String c r => (N_of_ascii c <? 128)%N && ascii_only r
  end.

(** Integers a double holds exactly, ASCII strings, and objects whose
    properties are listed the way JavaScript enumerates them. *)
Fixpoint in_fragment (v : json) : Prop :=
  match v with
  | JNull | JBool _ => True
  | JNum n => Z.abs n <= 2 ^ 53
  | JStr s => ascii_only s = true
  | JArr items =>
      (fix all (l : list json) : Prop :=
         match l with
         | [] => True
         | x :: r => in_fragment x /\ all r
         end) items
  | JObj props =>
      (fix all (l : list (string * json)) : Prop :=
         match l with
         | [] => True
         | (k, x) :: r => (ascii_only k = true /\ in_fragment x) /\ all r
         end) props
      /\ fold_left define_prop props [] = props
  end.

(** What may follow a value in a JSON text: not a digit, and not the
    start of a fraction or an exponent. *)
Definition terminated (rest : string) : bool :=
  match rest with
  | EmptyString => true
  | String c _ => negb (is_digit c) && negb (starts_fraction rest)
  end.

(** The text of the elements of an array and of the members of an
    object, as [JSON_stringify] lays them out. *)
Definition elements_text : list json -> string :=
  fix elements (l : list json) : string :=
    match l with
    | [] => EmptyString
    | [x] => JSON_stringify x
    | x :: r => JSON_stringify x +:+ "," +:+ elements r
    end.

Definition members_text : list (string * json) -> string :=
  fix members (l : list (string * json)) : string :=
    match l with
    | [] => EmptyString
    | [(k, x)] => quote k +:+ ":" +:+ JSON_stringify x
    | (k, x) :: r => quote k +:+ ":" +:+ JSON_stringify x +:+ "," +:+ members r
    end.

(** [parse_value], given fuel for the text of [v], reads [v] back and stops
    at what follows. *)
Definition inverts (v : json) : Prop :=
  in_fragment v ->
  forall (fuel : nat) (rest : string),
    (String.length (JSON_stringify v) <= fuel)%nat -> terminated rest = true ->
    parse_value fuel (JSON_stringify v +:+ rest) = Parsed v rest.

(** Two requests in flight at once, as two concurrent callers leave the
    client: ids 3 and 4 are pending. *)
Definition two_in_flight : SanctumClient :=
  set_reqId 4 (set_pending {[3; 4]} connected_client).

(** The answers to both, the later request answered first, in one chunk. *)
Definition reversed_answers : Buffer :=
  frame_of (JObj [("id", JNum 4); ("result", JObj [("n", JNum 4)])])
  ++ frame_of (JObj [("id", JNum 3); ("result", JObj [("n", JNum 3)])]).

(** ** Definitions for the properties of the receive path and of the session *)

(** From [c] to [c'] no call was added to [pending], the promise of a
    call that was not pending is as it was, and a call that left
    [pending] has its promise settled. *)
Definition settles_only_pending (c c' : SanctumClient) : Prop :=
  pending c' ⊆ pending c
  /\ (forall id, id ∉ pending c -> promises c' !! id = promises c !! id)
  /\ (forall id, id ∈ pending c -> id ∉ pending c' -> is_Some (promises c' !! id)).

(** The file [loadKey] reads: [keyPath ? expandHome(keyPath) :
    path.join(expandHome(DEFAULT_KEY_DIR), `${agentName}.key`)]. *)
Definition key_file (P : Platform) (agent : string) (keyPath : option string) : string :=
  match keyPath with
  | Some (String a r) => expandHome P (String a r)
  | _ => path_join P (expandHome P DEFAULT_KEY_DIR) (agent +:+ ".key")
  end.

(** Each [release_lease] call [close] makes for [snapshot], starting from
    [c] in the world [w], is fulfilled. *)
Fixpoint all_released (snapshot : list string) (c : SanctumClient) (w : World) : Prop :=
  match snapshot with
  | [] => True
  | lid :: rest =>
      match releaseLease lid c w with
      | (Fulfilled _, c1, w1) => all_released rest c1 w1
      | _ => False
      end
  end.

(** What the client keeps of its socket whatever the socket emits: where
    it connects and what was written on it. *)
Definition socket_trace (c : SanctumClient) : option (ConnectOptions * list Buffer) :=
  option_map (fun s => (options s, written s)) (socket c).

(** An asynchronous method that leaves the client the socket it found,
    or one that connects to the same place. *)
Definition keeps_options {A : Type} (m : Async A) : Prop :=
  forall c w, option_map options (socket (snd (fst (m c w)))) = option_map options (socket c).

(** * Properties *)

(** ** Strings *)

Lemma String_append_cons (c : ascii) (s1 s2 : string) :
  String c s1 +:+ s2 = String c (s1 +:+ s2).
Proof. reflexivity. Qed.

Lemma String_append_nil (s : string) : EmptyString +:+ s = s.
Proof. reflexivity. Qed.

Lemma String_append_nil_r (s : string) : s +:+ EmptyString = s.
Proof.
  induction s as [|c s IH]; [reflexivity|]. rewrite String_append_cons, IH. reflexivity.
Qed.

Lemma String_append_assoc (s1 s2 s3 : string) :
  (s1 +:+ s2) +:+ s3 = s1 +:+ (s2 +:+ s3).
Proof.
  induction s1 as [|c s1 IH]; [reflexivity|].
  rewrite !String_append_cons, IH. reflexivity.
Qed.

Ltac string_norm :=
  repeat first [ rewrite String_append_cons | rewrite String_append_nil
               | rewrite String_append_assoc ].

Lemma String_length_append (s1 s2 : string) :
  String.length (s1 +:+ s2) = (String.length s1 + String.length s2)%nat.
Proof.
  induction s1 as [|c s1 IH]; [reflexivity|].
  rewrite String_append_cons. cbn [String.length]. rewrite IH. reflexivity.
Qed.

Lemma string_repeat_length (c : ascii) (n : nat) : String.length (string_repeat c n) = n.
Proof. induction n as [|n IH]; simpl; [reflexivity | rewrite IH; reflexivity]. Qed.

Lemma skip_ws_spaces (n : nat) : skip_ws (string_repeat " " n) = EmptyString.
Proof. induction n as [|n IH]; [reflexivity | exact IH]. Qed.

(** ** [JSON_parse] inverts [JSON_stringify] on the fragment *)

Lemma json_induction (P : json -> Prop) :
  P JNull -> (forall b, P (JBool b)) -> (forall n, P (JNum n)) -> (forall s, P (JStr s)) ->
  (forall l, Forall P l -> P (JArr l)) ->
  (forall props, Forall (fun kv => P (snd kv)) props -> P (JObj props)) ->
  forall v, P v.
Proof.
  intros Hnull Hbool Hnum Hstr Harr Hobj.
  fix IH 1. intros [|b|n|s|l|props].
  - exact Hnull.
  - apply Hbool.
  - apply Hnum.
  - apply Hstr.
  - apply Harr. induction l as [|x l IHl]; constructor; [apply IH | exact IHl].
  - apply Hobj. induction props as [|[k x] props IHp]; constructor; [apply IH | exact IHp].
Qed.

(** *** Numbers *)

Lemma parse_digits_uint (d : Decimal.uint) (acc : positive) (rest : string) :
  terminated rest = true ->
  parse_digits (NilEmpty.string_of_uint d +:+ rest) (Z.pos acc)
  = (Z.pos (Pos.of_uint_acc d acc), rest).
Proof.
  intros Hrest. revert acc.
  induction d as [|d IH|d IH|d IH|d IH|d IH|d IH|d IH|d IH|d IH|d IH]; intros acc;
    cbn [NilEmpty.string_of_uint Pos.of_uint_acc];
    try (rewrite String_append_cons; cbn [parse_digits];
         match goal with
         | |- context [is_digit ?c] => change (is_digit c) with true
         end;
         cbv iota; rewrite <- IH; f_equal; unfold digit_val; cbn; lia).
  rewrite String_append_nil. destruct rest as [|c r]; [reflexivity|].
  cbn [parse_digits]. cbn in Hrest. destruct (is_digit c); [discriminate | reflexivity].
Qed.

Lemma nzhead_not_zero (d : Decimal.uint) :
  match Decimal.nzhead d with
  | Decimal.D0 _ => False
  | _ => True
  end.
Proof. induction d; cbn; auto. Qed.

Lemma to_uint_normal (p : positive) : Decimal.unorm (Pos.to_uint p) = Pos.to_uint p.
Proof.
  pose proof (DecimalPos.Unsigned.to_of (Pos.to_uint p)) as H.
  rewrite DecimalPos.Unsigned.of_to in H. exact (eq_sym H).
Qed.

Lemma to_uint_first_digit (p : positive) :
  match Pos.to_uint p with
  | Decimal.Nil | Decimal.D0 _ => False
  | _ => True
  end.
Proof.
  pose proof (to_uint_normal p) as Hn.
  pose proof (DecimalPos.Unsigned.to_uint_nonzero p) as Hz.
  pose proof (nzhead_not_zero (Pos.to_uint p)) as Hh.
  unfold Decimal.unorm in Hn.
  destruct (Decimal.nzhead (Pos.to_uint p)) eqn:E; rewrite <- Hn; try exact I.
  - apply Hz. rewrite <- Hn. reflexivity.
  - contradiction.
Qed.

Lemma parse_number_positive (p : positive) (neg : bool) (rest : string) :
  Z.pos p <= 2 ^ 53 -> terminated rest = true ->
  parse_number ((if neg then "-" else EmptyString)
                +:+ NilEmpty.string_of_uint (Pos.to_uint p) +:+ rest)
  = Parsed (JNum (if neg then Z.neg p else Z.pos p)) rest.
Proof.
  intros Hp Hrest.
  pose proof (to_uint_first_digit p) as Hd.
  pose proof (DecimalPos.Unsigned.of_to p) as Hof.
  assert (starts_fraction rest = false) as Hfrac.
  { destruct rest as [|c r]; [reflexivity|]. unfold terminated in Hrest.
    apply andb_prop in Hrest as [_ H]. apply negb_true_iff in H. exact H. }
  destruct (Pos.to_uint p) as [|d|d|d|d|d|d|d|d|d|d]; try contradiction;
    cbn [Pos.of_uint] in Hof; injection Hof as Hof;
    destruct neg; cbn [NilEmpty.string_of_uint];
    rewrite ?String_append_cons, ?String_append_nil;
    unfold parse_number;
    match goal with
    | |- context [is_digit ?c] => change (is_digit c) with true
    end;
    cbv iota beta;
    match goal with
    | |- context [(N_of_ascii ?c =? 48)%N] => change (N_of_ascii c =? 48)%N with false
    end;
    cbv iota;
    match goal with
    | |- context [parse_digits _ (digit_val ?c)] =>
        let v := eval cbv in (digit_val c) in change (digit_val c) with v
    end;
    rewrite parse_digits_uint by assumption;
    rewrite Hof, Hfrac;
    (destruct (Z.ltb_spec (2 ^ 53) (Z.pos p)); [lia | reflexivity]).
Qed.

Lemma parse_number_stringify (n : Z) (rest : string) :
  Z.abs n <= 2 ^ 53 -> terminated rest = true ->
  parse_number (number_to_string n +:+ rest) = Parsed (JNum n) rest.
Proof.
  intros Hn Hrest. unfold number_to_string.
  destruct n as [|p|p]; cbn [Z.to_int NilZero.string_of_int].
  - assert (starts_fraction rest = false) as Hfrac.
    { destruct rest as [|c r]; [reflexivity|]. unfold terminated in Hrest.
      apply andb_prop in Hrest as [_ H]. apply negb_true_iff in H. exact H. }
    change (NilZero.string_of_uint Decimal.zero +:+ rest) with (String "0" rest).
    unfold parse_number. change (is_digit "0") with true. cbv iota beta.
    change (N_of_ascii "0" =? 48)%N with true. cbv iota. rewrite Hfrac. reflexivity.
  - pose proof (parse_number_positive p false rest) as H. cbv iota in H.
    rewrite String_append_nil in H. unfold NilZero.string_of_uint.
    pose proof (to_uint_first_digit p) as Hd.
    destruct (Pos.to_uint p); try contradiction; apply H; (lia || assumption).
  - pose proof (parse_number_positive p true rest) as H. cbv iota in H.
    rewrite String_append_cons, String_append_nil in H. unfold NilZero.string_of_uint.
    pose proof (to_uint_first_digit p) as Hd. rewrite String_append_cons.
    destruct (Pos.to_uint p); try contradiction; apply H; (lia || assumption).
Qed.

Lemma number_to_string_head (n : Z) :
  exists c t, number_to_string n = String c t
              /\ (is_digit c || (N_of_ascii c =? 45)%N) = true.
Proof.
  unfold number_to_string. destruct n as [|p|p]; cbn [Z.to_int NilZero.string_of_int].
  - eexists _, _. split; reflexivity.
  - pose proof (to_uint_first_digit p) as Hd. unfold NilZero.string_of_uint.
    destruct (Pos.to_uint p); try contradiction; eexists _, _; split; reflexivity.
  - eexists _, _. split; reflexivity.
Qed.

Lemma parse_value_number_head (c : ascii) (t : string) (f : nat) :
  (is_digit c || (N_of_ascii c =? 45)%N) = true ->
  parse_value (S f) (String c t) = parse_number (String c t).
Proof.
  destruct c as [[] [] [] [] [] [] [] []]; intros H; try discriminate H; reflexivity.
Qed.

(** *** Strings *)

Lemma parse_chars_escape_char (c : ascii) (t : string) :
  (N_of_ascii c <? 128)%N = true ->
  parse_chars (escape_char c +:+ t) = parse_map (String c) (parse_chars t).
Proof.
  destruct c as [[] [] [] [] [] [] [] []]; intros H; try discriminate H; reflexivity.
Qed.

Lemma escape_chars_cons (c : ascii) (s : string) :
  escape_chars (String c s) = escape_char c +:+ escape_chars s.
Proof. reflexivity. Qed.

Lemma parse_chars_escape_chars (s rest : string) :
  ascii_only s = true ->
  parse_chars (escape_chars s +:+ String dquote rest) = Parsed s rest.
Proof.
  induction s as [|c s IH]; intros Hs; [reflexivity|].
  cbn [ascii_only] in Hs. apply andb_prop in Hs as [Hc Hs].
  rewrite escape_chars_cons, String_append_assoc, parse_chars_escape_char by exact Hc.
  rewrite IH by exact Hs. reflexivity.
Qed.

(** *** Values *)

Lemma JSON_stringify_head (v : json) :
  exists c t, JSON_stringify v = String c t
              /\ is_ws c = false /\ Ascii.eqb c "]" = false.
Proof.
  destruct v as [|[]|n|s|l|props]; try (eexists _, _; repeat split; reflexivity).
  cbn [JSON_stringify]. destruct (number_to_string_head n) as (c & t & -> & Hc).
  exists c, t. split; [reflexivity|].
  destruct c as [[] [] [] [] [] [] [] []]; try discriminate Hc; split; reflexivity.
Qed.

Lemma parse_value_array_head (c : ascii) (t : string) (f : nat) :
  is_ws c = false -> Ascii.eqb c "]" = false ->
  parse_value (S f) (String "[" (String c t)) = parse_map JArr (parse_elements f (String c t)).
Proof.
  destruct c as [[] [] [] [] [] [] [] []]; intros H1 H2;
    try discriminate H1; try discriminate H2; reflexivity.
Qed.

Lemma in_fragment_array (l : list json) : in_fragment (JArr l) <-> Forall in_fragment l.
Proof.
  induction l as [|x l IH]; [split; [constructor | intros; exact I]|].
  split.
  - intros [Hx Hl]. constructor; [exact Hx | apply IH; exact Hl].
  - intros H. inversion H; subst. split; [assumption | apply IH; assumption].
Qed.

Lemma in_fragment_object (props : list (string * json)) :
  in_fragment (JObj props)
  <-> Forall (fun kv => ascii_only (fst kv) = true /\ in_fragment (snd kv)) props
      /\ fold_left define_prop props [] = props.
Proof.
  cbn [in_fragment]. split; intros [H Hc]; (split; [|exact Hc]); clear Hc.
  - induction props as [|[k x] props IH]; constructor; [apply H | apply IH; apply H].
  - induction H as [|[k x] props Hkx _ IH]; [exact I | split; assumption].
Qed.

Lemma JSON_stringify_array (l : list json) :
  JSON_stringify (JArr l) = "[" +:+ elements_text l +:+ "]".
Proof. reflexivity. Qed.

Lemma JSON_stringify_object (props : list (string * json)) :
  JSON_stringify (JObj props) = "{" +:+ members_text props +:+ "}".
Proof. reflexivity. Qed.

Lemma elements_text_cons (x y : json) (l : list json) :
  elements_text (x :: y :: l) = JSON_stringify x +:+ "," +:+ elements_text (y :: l).
Proof. reflexivity. Qed.

Lemma members_text_cons (k : string) (x : json) (kv : string * json)
    (l : list (string * json)) :
  members_text ((k, x) :: kv :: l)
  = quote k +:+ ":" +:+ JSON_stringify x +:+ "," +:+ members_text (kv :: l).
Proof. reflexivity. Qed.

Lemma parse_elements_text (l : list json) (x : json) :
  Forall inverts (x :: l) -> Forall in_fragment (x :: l) ->
  forall (fuel : nat) (rest : string),
    (String.length (elements_text (x :: l)) < fuel)%nat ->
    parse_elements fuel (elements_text (x :: l) +:+ String "]" rest) = Parsed (x :: l) rest.
Proof.
  revert x. induction l as [|y l IH]; intros x Hinv Hfrag fuel rest Hfuel;
    inversion Hinv as [|? ? Hx Hl]; inversion Hfrag as [|? ? Fx Fl]; subst;
    (destruct fuel as [|fuel]; [lia|]); cbn [parse_elements].
  - change (elements_text [x]) with (JSON_stringify x) in *.
    rewrite (Hx Fx) by (reflexivity || lia). reflexivity.
  - rewrite elements_text_cons in *. rewrite !String_length_append in Hfuel.
    cbn [String.length] in Hfuel. rewrite !String_append_assoc.
    rewrite (Hx Fx) by (reflexivity || lia).
    change (skip_ws ("," +:+ ?s)) with (String "," s). cbv iota beta.
    rewrite IH by (assumption || lia). reflexivity.
Qed.

Lemma parse_members_text (l : list (string * json)) (k : string) (x : json) :
  Forall (fun kv => inverts (snd kv)) ((k, x) :: l) ->
  Forall (fun kv => ascii_only (fst kv) = true /\ in_fragment (snd kv)) ((k, x) :: l) ->
  forall (fuel : nat) (rest : string),
    (String.length (members_text ((k, x) :: l)) < fuel)%nat ->
    parse_members fuel (members_text ((k, x) :: l) +:+ String "}" rest)
    = Parsed ((k, x) :: l) rest.
Proof.
  revert k x. induction l as [|[k' y] l IH]; intros k x Hinv Hfrag fuel rest Hfuel;
    inversion Hinv as [|? ? Hx Hl]; inversion Hfrag as [|? ? [Fk Fx] Fl]; subst;
    cbn [fst snd] in *;
    (destruct fuel as [|fuel]; [lia|]); cbn [parse_members].
  - change (members_text [(k, x)]) with (quote k +:+ ":" +:+ JSON_stringify x) in *.
    rewrite !String_length_append in Hfuel. cbn [String.length] in Hfuel.
    unfold quote. rewrite !String_append_cons, !String_append_assoc.
    rewrite !String_append_cons, !String_append_nil.
    change (skip_ws (String dquote ?s)) with (String dquote s). cbv iota beta.
    change (N_of_ascii dquote =? 34)%N with true. cbv iota.
    rewrite parse_chars_escape_chars by exact Fk.
    change (skip_ws (String ":" ?s)) with (String ":" s). cbv iota beta.
    rewrite (Hx Fx) by (reflexivity || lia). reflexivity.
  - rewrite members_text_cons in *.
    rewrite !String_length_append in Hfuel. cbn [String.length] in Hfuel.
    unfold quote at 1. rewrite !String_append_cons, !String_append_assoc.
    rewrite !String_append_cons, !String_append_nil.
    change (skip_ws (String dquote ?s)) with (String dquote s). cbv iota beta.
    change (N_of_ascii dquote =? 34)%N with true. cbv iota.
    rewrite parse_chars_escape_chars by exact Fk.
    change (skip_ws (String ":" ?s)) with (String ":" s). cbv iota beta.
    string_norm. rewrite (Hx Fx) by (reflexivity || lia).
    change (skip_ws (String "," ?s)) with (String "," s). cbv iota beta.
    rewrite IH by (assumption || lia). reflexivity.
Qed.

Theorem parse_value_stringify (v : json) : inverts v.
Proof.
  induction v as [|b|n|s|l IH|props IH] using json_induction;
    intros Hfrag fuel rest Hfuel Hrest.
  - destruct fuel as [|fuel]; [cbn in Hfuel; lia | reflexivity].
  - destruct fuel as [|fuel]; [destruct b; cbn in Hfuel; lia | destruct b; reflexivity].
  - cbn [JSON_stringify] in *.
    destruct (number_to_string_head n) as (c & t & Hhead & Hc).
    destruct fuel as [|fuel]; [rewrite Hhead in Hfuel; cbn in Hfuel; lia|].
    pose proof (parse_number_stringify n rest Hfrag Hrest) as Hnum.
    rewrite Hhead, String_append_cons in *.
    rewrite parse_value_number_head by exact Hc. exact Hnum.
  - cbn [JSON_stringify] in *. unfold quote in *.
    destruct fuel as [|fuel]; [cbn in Hfuel; lia|].
    rewrite String_append_cons, String_append_assoc, String_append_cons, String_append_nil.
    change (parse_value (S fuel) (String dquote ?x)) with (parse_map JStr (parse_chars x)).
    rewrite parse_chars_escape_chars by exact Hfrag. reflexivity.
  - rewrite JSON_stringify_array in *. apply in_fragment_array in Hfrag.
    rewrite !String_length_append in Hfuel. cbn [String.length] in Hfuel.
    destruct fuel as [|fuel]; [lia|].
    rewrite !String_append_cons, String_append_nil, String_append_assoc,
      String_append_cons, String_append_nil.
    destruct l as [|x l]; [reflexivity|].
    destruct (JSON_stringify_head x) as (c & t & Hhead & Hws & Hc).
    assert (exists t', elements_text (x :: l) = String c t') as [t' Ht'].
    { destruct l; [exists t; exact Hhead|]. rewrite elements_text_cons, Hhead.
      eexists. reflexivity. }
    pose proof (parse_elements_text l x IH Hfrag fuel rest) as He.
    rewrite Ht', String_append_cons in *.
    rewrite parse_value_array_head by assumption.
    rewrite He by (cbn [String.length] in *; lia). reflexivity.
  - rewrite JSON_stringify_object in *. apply in_fragment_object in Hfrag as [Hfrag Hcanon].
    rewrite !String_length_append in Hfuel. cbn [String.length] in Hfuel.
    destruct fuel as [|fuel]; [lia|].
    rewrite !String_append_cons, String_append_nil, String_append_assoc,
      String_append_cons, String_append_nil.
    destruct props as [|[k x] props]; [reflexivity|].
    pose proof (parse_members_text props k x IH Hfrag fuel rest) as Hm.
    assert (exists t', members_text ((k, x) :: props) = String dquote t') as [t' Ht'].
    { destruct props as [|kv props]; [|rewrite members_text_cons]; eexists; reflexivity. }
    rewrite Ht', String_append_cons in *.
    change (parse_value (S fuel) (String "{" (String dquote ?r)))
      with (parse_map object_of_members (parse_members fuel (String dquote r))).
    rewrite Hm by (cbn [String.length] in *; lia).
    cbn [parse_map]. unfold object_of_members. rewrite Hcanon. reflexivity.
Qed.

(** Every value of the fragment is JSON-serializable. *)
Theorem fragment_serializable (v : json) : in_fragment v -> serializable v.
Proof.
  intros Hv. unfold serializable, JSON_parse, parse_text.
  pose proof (parse_value_stringify v Hv (parse_fuel (JSON_stringify v)) EmptyString) as H.
  rewrite String_append_nil_r in H. rewrite H; [reflexivity| |reflexivity].
  unfold parse_fuel. lia.
Qed.

(** Properties with distinct keys, none of them an array index, are in
    the order JavaScript enumerates them. *)
Lemma replace_prop_fresh (k : string) (v : json) (l : list (string * json)) :
  k ∉ map fst l -> replace_prop k v l = None.
Proof.
  induction l as [|[k' v'] l IH]; intros Hk; [reflexivity|].
  cbn [replace_prop]. destruct (String.eqb_spec k k') as [->|Hne].
  - exfalso. apply Hk. left.
  - rewrite IH; [reflexivity|]. intros Hin. apply Hk. right. exact Hin.
Qed.

Lemma define_props_append (props acc : list (string * json)) :
  NoDup (map fst (acc ++ props)) ->
  Forall (fun kv => array_index (fst kv) = None) props ->
  fold_left define_prop props acc = acc ++ props.
Proof.
  revert acc. induction props as [|[k v] props IH]; intros acc Hnd Hidx.
  - rewrite app_nil_r. reflexivity.
  - inversion Hidx as [|? ? Hk Hrest]; subst. cbn [fold_left fst] in *.
    assert (define_prop acc (k, v) = acc ++ [(k, v)]) as ->.
    { unfold define_prop. rewrite replace_prop_fresh, Hk; [reflexivity|].
      rewrite map_app in Hnd. apply NoDup_app in Hnd as (_ & Hdisj & _).
      intros Hin. apply (Hdisj k Hin). left. }
    rewrite IH; [rewrite <- app_assoc; reflexivity| |exact Hrest].
    rewrite <- app_assoc. exact Hnd.
Qed.

Lemma canonical_props (props : list (string * json)) :
  NoDup (map fst props) ->
  Forall (fun kv => array_index (fst kv) = None) props ->
  fold_left define_prop props [] = props.
Proof. intros Hnd Hidx. apply (define_props_append props []); assumption. Qed.

(** ** Buffers and the length prefix *)

Lemma Z_of_byte_of_Z (z : Z) : Z_of_byte (byte_of_Z z) = z mod 256.
Proof.
  unfold Z_of_byte, byte_of_Z.
  assert (0 <= z mod 256 < 256) as Hr by (apply Z.mod_pos_bound; lia).
  destruct (Byte.of_N (Z.to_N (z mod 256))) as [b|] eqn:E; simpl.
  - apply Byte.to_of_N in E. rewrite E. lia.
  - apply Byte.of_N_None_iff in E. lia.
Qed.

Lemma Buffer_length_app (a b : Buffer) :
  Buffer_length (a ++ b) = Buffer_length a + Buffer_length b.
Proof. unfold Buffer_length. rewrite length_app. lia. Qed.

Lemma Buffer_length_nonneg (b : Buffer) : 0 <= Buffer_length b.
Proof. unfold Buffer_length. lia. Qed.

Lemma Buffer_length_uint32 (v : Z) : Buffer_length (uint32_bytes v) = 4.
Proof. reflexivity. Qed.

Lemma Buffer_length_from (s : string) :
  Buffer_length (Buffer_from s) = Z.of_nat (String.length s).
Proof.
  unfold Buffer_length, Buffer_from, list_byte_of_string. rewrite length_map.
  f_equal. induction s as [|c s IH]; simpl; [reflexivity | rewrite IH; reflexivity].
Qed.

Lemma Buffer_toString_from (s : string) : Buffer_toString (Buffer_from s) = s.
Proof. apply string_of_list_byte_of_string. Qed.

Lemma readUInt32BE_uint32_bytes (v : Z) (rest : Buffer) :
  0 <= v <= 4294967295 ->
  readUInt32BE (uint32_bytes v ++ rest) = Normal v.
Proof.
  intros Hv. unfold uint32_bytes, readUInt32BE. cbn [app].
  f_equal. rewrite !Z_of_byte_of_Z, !Z.shiftr_div_pow2 by lia.
  change (2 ^ 24) with 16777216. change (2 ^ 16) with 65536. change (2 ^ 8) with 256.
  Z.div_mod_to_equations. lia.
Qed.

Lemma readUInt32BE_nonneg (b : Buffer) (v : Z) : readUInt32BE b = Normal v -> 0 <= v.
Proof.
  unfold readUInt32BE. destruct b as [|b0 [|b1 [|b2 [|b3 r]]]]; try discriminate.
  intros [= <-]. unfold Z_of_byte. lia.
Qed.

Lemma subarray_frame (h payload rest : Buffer) :
  Buffer_length h = 4 ->
  subarray (h ++ payload ++ rest) 4 (4 + Buffer_length payload) = payload.
Proof.
  unfold subarray, Buffer_length. intros Hh.
  replace (Z.to_nat 4) with (length h) by lia.
  rewrite drop_app_length.
  replace (Z.to_nat (4 + Z.of_nat (length payload) - 4)) with (length payload) by lia.
  apply take_app_length.
Qed.

Lemma subarray_from_frame (h payload rest : Buffer) :
  Buffer_length h = 4 ->
  subarray_from (h ++ payload ++ rest) (4 + Buffer_length payload) = rest.
Proof.
  unfold subarray_from, Buffer_length. intros Hh.
  replace (Z.to_nat (4 + Z.of_nat (length payload))) with (length h + length payload)%nat by lia.
  rewrite <- drop_drop, drop_app_length. apply drop_app_length.
Qed.

(** ** The frame codec *)

Lemma encodeFrame_in_range (r : json) :
  payload_size r <= 4294967295 ->
  encodeFrame r = Normal (uint32_bytes (payload_size r) ++ Buffer_from (JSON_stringify r)).
Proof.
  intros Hr. unfold encodeFrame, writeUInt32BE. fold (payload_size r).
  pose proof (Buffer_length_nonneg (Buffer_from (JSON_stringify r))) as Hn.
  fold (payload_size r) in Hn.
  destruct (Z.leb_spec 0 (payload_size r)); [|lia].
  destruct (Z.leb_spec (payload_size r) 4294967295); [|lia].
  reflexivity.
Qed.

(** Decoding what follows a well-sized length prefix. *)
Lemma decodeFrame_prefixed (text : string) (rest : Buffer) :
  Buffer_length (Buffer_from text) <= MAX_MESSAGE_SIZE ->
  decodeFrame (uint32_bytes (Buffer_length (Buffer_from text)) ++ Buffer_from text ++ rest)
  = (obj ← JSON_parse text; mret (obj, rest)).
Proof.
  intros Hsz. unfold MAX_MESSAGE_SIZE in Hsz. unfold decodeFrame.
  pose proof (Buffer_length_nonneg (Buffer_from text)) as Hn.
  pose proof (Buffer_length_nonneg rest) as Hm.
  set (L := Buffer_length (Buffer_from text)) in *.
  rewrite !Buffer_length_app, Buffer_length_uint32. fold L.
  destruct (Z.ltb_spec (4 + (L + Buffer_length rest)) 4); [lia|].
  rewrite readUInt32BE_uint32_bytes by lia. cbn [mbind Completion_bind].
  unfold MAX_MESSAGE_SIZE.
  destruct (Z.gtb_spec L (4 * 1024 * 1024)) as [?|_]; [lia|].
  destruct (Z.ltb_spec (4 + (L + Buffer_length rest)) (4 + L)); [lia|].
  unfold L. rewrite subarray_frame, subarray_from_frame by reflexivity.
  rewrite Buffer_toString_from. reflexivity.
Qed.

Lemma decodeFrame_encodeFrame (r : json) (rest : Buffer) :
  serializable r -> payload_size r <= MAX_MESSAGE_SIZE ->
  decodeFrame (uint32_bytes (payload_size r) ++ Buffer_from (JSON_stringify r) ++ rest)
  = Normal (r, rest).
Proof.
  intros Hs Hsz. unfold payload_size in *.
  rewrite decodeFrame_prefixed by assumption. rewrite Hs. reflexivity.
Qed.

(** The round trip of the codec on the fragment, with no assumption on
    [JSON.parse]. *)
Corollary decodeFrame_encodeFrame_fragment (r : json) (rest : Buffer) :
  in_fragment r -> payload_size r <= MAX_MESSAGE_SIZE ->
  exists frame, encodeFrame r = Normal frame /\ decodeFrame (frame ++ rest) = Normal (r, rest).
Proof.
  intros Hr Hsz. eexists. split.
  - apply encodeFrame_in_range. unfold MAX_MESSAGE_SIZE in Hsz. lia.
  - rewrite <- app_assoc. apply decodeFrame_encodeFrame; [|exact Hsz].
    apply fragment_serializable. exact Hr.
Qed.

Lemma decodeFrame_too_large (text : string) (rest : Buffer) :
  MAX_MESSAGE_SIZE < Buffer_length (Buffer_from text) <= 4294967295 ->
  decodeFrame (uint32_bytes (Buffer_length (Buffer_from text)) ++ Buffer_from text ++ rest)
  = Throw (internal_error "Response too large").
Proof.
  intros Hsz. unfold MAX_MESSAGE_SIZE in Hsz. unfold decodeFrame.
  pose proof (Buffer_length_nonneg rest) as Hm.
  set (L := Buffer_length (Buffer_from text)) in *.
  rewrite !Buffer_length_app, Buffer_length_uint32. fold L.
  destruct (Z.ltb_spec (4 + (L + Buffer_length rest)) 4); [lia|].
  rewrite readUInt32BE_uint32_bytes by lia. cbn [mbind Completion_bind].
  unfold MAX_MESSAGE_SIZE.
  destruct (Z.gtb_spec L (4 * 1024 * 1024)) as [_|?]; [reflexivity|lia].
Qed.

Lemma decodeFrame_whole_too_large (text : string) :
  MAX_MESSAGE_SIZE < Buffer_length (Buffer_from text) <= 4294967295 ->
  decodeFrame (whole_frame text) = Throw (internal_error "Response too large").
Proof.
  intros H. unfold whole_frame.
  pose proof (decodeFrame_too_large text [] H) as Hd.
  rewrite app_nil_r in Hd. exact Hd.
Qed.

(** C7 (amended): for every JSON-serializable [a] and [b] whose JSON texts
    are at most [MAX_MESSAGE_SIZE] bytes long and every byte sequence
    [rest], [decodeFrame (encodeFrame a ++ rest)] returns [(a, rest)]; in
    particular [decodeFrame (encodeFrame a)] returns [a] and an empty
    remainder, and decoding [encodeFrame a ++ encodeFrame b] twice gives
    [a], then [b], with no bytes left over. *)
Theorem C7_frame_roundtrip (a b : json) (rest : Buffer) :
  serializable a -> serializable b ->
  payload_size a <= MAX_MESSAGE_SIZE -> payload_size b <= MAX_MESSAGE_SIZE ->
  exists fa fb : Buffer,
    encodeFrame a = Normal fa /\ encodeFrame b = Normal fb /\
    decodeFrame (fa ++ rest) = Normal (a, rest) /\
    decodeFrame fa = Normal (a, []) /\
    decodeFrame (fa ++ fb) = Normal (a, fb) /\
    decodeFrame fb = Normal (b, []).
Proof.
  intros Ha Hb Hsa Hsb.
  assert (MAX_MESSAGE_SIZE <= 4294967295) as Hmax by (unfold MAX_MESSAGE_SIZE; lia).
  eexists _, _. split; [apply encodeFrame_in_range; lia|].
  split; [apply encodeFrame_in_range; lia|].
  repeat split.
  - rewrite <- app_assoc. apply decodeFrame_encodeFrame; assumption.
  - rewrite <- (app_nil_r (Buffer_from (JSON_stringify a))).
    apply decodeFrame_encodeFrame; assumption.
  - rewrite <- app_assoc. apply decodeFrame_encodeFrame; assumption.
  - rewrite <- (app_nil_r (Buffer_from (JSON_stringify b))).
    apply decodeFrame_encodeFrame; assumption.
Qed.

Lemma C7_frame_roundtrip_witness :
  exists fa fb : Buffer,
    encodeFrame sample_request = Normal fa /\
    encodeFrame (JObj [("id", JNum 2)]) = Normal fb /\
    decodeFrame (fa ++ [x01; x02]) = Normal (sample_request, [x01; x02]) /\
    decodeFrame fa = Normal (sample_request, []) /\
    decodeFrame (fa ++ fb) = Normal (sample_request, fb) /\
    decodeFrame fb = Normal (JObj [("id", JNum 2)], []).
Proof.
  apply (C7_frame_roundtrip sample_request (JObj [("id", JNum 2)]) [x01; x02]).
  - vm_compute. reflexivity.
  - vm_compute. reflexivity.
  - vm_compute. discriminate.
  - vm_compute. discriminate.
Defined.

Lemma escape_chars_letters (n : nat) :
  escape_chars (string_repeat "a" n) = string_repeat "a" n.
Proof.
  induction n as [|n IH]; [reflexivity|].
  cbn [string_repeat escape_chars]. rewrite IH. reflexivity.
Qed.

Lemma parse_chars_letters (n : nat) (rest : string) :
  parse_chars (string_repeat "a" n +:+ String dquote rest)
  = Parsed (string_repeat "a" n) rest.
Proof.
  induction n as [|n IH]; [reflexivity|].
  cbn [string_repeat]. rewrite String_append_cons.
  change (parse_chars (String "a" ?s)) with (parse_map (String "a") (parse_chars s)).
  rewrite IH. reflexivity.
Qed.

Lemma long_object_text (n : nat) :
  JSON_stringify (long_object n)
  = String "{" (String dquote (String "k" (String dquote (String ":" (String dquote
      (string_repeat "a" n +:+ String dquote (String "}" EmptyString))))))).
Proof.
  unfold long_object. cbn [JSON_stringify]. unfold quote.
  rewrite escape_chars_letters.
  change (escape_chars "k") with "k". string_norm. reflexivity.
Qed.

Lemma long_object_size (n : nat) : payload_size (long_object n) = Z.of_nat n + 8.
Proof.
  unfold payload_size. rewrite Buffer_length_from, long_object_text.
  cbn [String.length]. rewrite String_length_append, string_repeat_length.
  cbn [String.length]. lia.
Qed.

Lemma parse_value_long_object (t x : string) (f : nat) :
  parse_chars t = Parsed x (String "}" EmptyString) ->
  parse_value (S (S (S f)))
    (String "{" (String dquote (String "k" (String dquote (String ":" (String dquote t))))))
  = Parsed (JObj [("k", JStr x)]) EmptyString.
Proof.
  intros Ht. simpl. rewrite Ht. reflexivity.
Qed.

Lemma long_object_serializable (n : nat) : serializable (long_object n).
Proof.
  unfold serializable, JSON_parse, parse_text. rewrite long_object_text.
  unfold parse_fuel. cbn [String.length Nat.mul Nat.add].
  erewrite parse_value_long_object by apply parse_chars_letters.
  reflexivity.
Qed.

Lemma long_object_refused (n : nat) :
  MAX_MESSAGE_SIZE < Z.of_nat n + 8 <= 4294967295 ->
  (encodeFrame (long_object n) ≫= decodeFrame)
  = Throw (internal_error "Response too large").
Proof.
  intros Hn. pose proof (long_object_size n) as Hsz.
  rewrite encodeFrame_in_range by lia.
  cbn [mbind Completion_bind].
  rewrite <- (app_nil_r (Buffer_from _)).
  unfold payload_size in *.
  apply decodeFrame_too_large. lia.
Qed.

(** C7 as stated fails on [oversize_object], which [JSON.parse] and
    [JSON.stringify] round-trip: [encodeFrame] frames its 4 MiB + 8 bytes
    and [decodeFrame] refuses the frame. *)
Lemma C7_oversize_roundtrip_fails :
  serializable oversize_object /\
  (encodeFrame oversize_object ≫= decodeFrame)
  = Throw (internal_error "Response too large").
Proof.
  split; [apply long_object_serializable|].
  apply long_object_refused. rewrite Z2Nat.id by discriminate.
  unfold MAX_MESSAGE_SIZE. split; [reflexivity | discriminate].
Qed.

(** *** What the decoder accepts and what it refuses *)

Lemma byte_of_Z_of_byte (b : byte) : byte_of_Z (Z_of_byte b) = b.
Proof.
  unfold byte_of_Z, Z_of_byte.
  pose proof (Byte.to_N_bounded b) as Hb.
  rewrite Z.mod_small by lia. rewrite N2Z.id, Byte.of_to_N. reflexivity.
Qed.

Lemma Z_of_byte_range (b : byte) : 0 <= Z_of_byte b < 256.
Proof. unfold Z_of_byte. pose proof (Byte.to_N_bounded b). lia. Qed.

(** The four bytes [readUInt32BE] reads are the bytes [writeUInt32BE]
    writes for the number read. *)
Lemma uint32_bytes_readUInt32BE (b0 b1 b2 b3 : byte) (r : Buffer) (v : Z) :
  readUInt32BE (b0 :: b1 :: b2 :: b3 :: r) = Normal v ->
  uint32_bytes v = [b0; b1; b2; b3] /\ 0 <= v <= 4294967295.
Proof.
  cbn [readUInt32BE]. intros [= <-].
  pose proof (Z_of_byte_range b0). pose proof (Z_of_byte_range b1).
  pose proof (Z_of_byte_range b2). pose proof (Z_of_byte_range b3).
  change (2 ^ 24) with 16777216. change (2 ^ 16) with 65536. change (2 ^ 8) with 256.
  split; [|lia].
  set (v := Z_of_byte b0 * 16777216 + Z_of_byte b1 * 65536 + Z_of_byte b2 * 256
            + Z_of_byte b3).
  assert (Z.shiftr v 24 mod 256 = Z_of_byte b0) as E0
    by (rewrite Z.shiftr_div_pow2 by lia; change (2 ^ 24) with 16777216;
        subst v; Z.div_mod_to_equations; lia).
  assert (Z.shiftr v 16 mod 256 = Z_of_byte b1) as E1
    by (rewrite Z.shiftr_div_pow2 by lia; change (2 ^ 16) with 65536;
        subst v; Z.div_mod_to_equations; lia).
  assert (Z.shiftr v 8 mod 256 = Z_of_byte b2) as E2
    by (rewrite Z.shiftr_div_pow2 by lia; change (2 ^ 8) with 256;
        subst v; Z.div_mod_to_equations; lia).
  assert (v mod 256 = Z_of_byte b3) as E3
    by (subst v; Z.div_mod_to_equations; lia).
  assert (forall z b, z mod 256 = Z_of_byte b -> byte_of_Z z = b) as Hbyte.
  { intros z b E. rewrite <- (byte_of_Z_of_byte b). unfold byte_of_Z.
    rewrite E, (Z.mod_small (Z_of_byte b)) by apply Z_of_byte_range. reflexivity. }
  unfold uint32_bytes.
  rewrite (Hbyte _ _ E0), (Hbyte _ _ E1), (Hbyte _ _ E2), (Hbyte _ _ E3). reflexivity.
Qed.

(** A buffer that holds the bytes its length prefix announces splits
    into the prefix, the payload and the remainder. *)
Lemma frame_split (data : Buffer) (len : Z) :
  readUInt32BE data = Normal len -> 4 + len <= Buffer_length data ->
  exists payload rest : Buffer,
    data = uint32_bytes (Buffer_length payload) ++ payload ++ rest
    /\ Buffer_length payload = len
    /\ subarray data 4 (4 + len) = payload
    /\ subarray_from data (4 + len) = rest.
Proof.
  intros Hread Hbody.
  destruct data as [|b0 [|b1 [|b2 [|b3 tail]]]]; try discriminate.
  destruct (uint32_bytes_readUInt32BE _ _ _ _ _ _ Hread) as [Hbytes Hrange].
  unfold Buffer_length in Hbody. cbn [length] in Hbody.
  exists (take (Z.to_nat len) tail), (drop (Z.to_nat len) tail).
  assert (Buffer_length (take (Z.to_nat len) tail) = len) as Hl
    by (unfold Buffer_length; rewrite length_take; lia).
  rewrite Hl, Hbytes. split; [cbn [app]; rewrite take_drop; reflexivity|].
  split; [reflexivity|]. split.
  - unfold subarray. replace (4 + len - 4) with len by lia. reflexivity.
  - unfold subarray_from.
    replace (Z.to_nat (4 + len)) with (4 + Z.to_nat len)%nat by lia. reflexivity.
Qed.

(** X2: What [decodeFrame] returns it has read off the buffer: the buffer is
    a length prefix, a payload of that length and of at most
    [MAX_MESSAGE_SIZE] bytes, and the remainder returned; the value
    returned is the payload parsed. *)
Theorem decodeFrame_inversion (data : Buffer) (obj : json) (rest : Buffer) :
  decodeFrame data = Normal (obj, rest) ->
  exists payload : Buffer,
    data = uint32_bytes (Buffer_length payload) ++ payload ++ rest
    /\ Buffer_length payload <= MAX_MESSAGE_SIZE
    /\ JSON_parse (Buffer_toString payload) = Normal obj.
Proof.
  unfold decodeFrame.
  destruct (Z.ltb_spec (Buffer_length data) 4) as [|Hlen]; [discriminate|].
  destruct (readUInt32BE data) as [len| |] eqn:Hread; try discriminate.
  cbn [mbind Completion_bind].
  destruct (Z.gtb_spec len MAX_MESSAGE_SIZE) as [|Hmax]; [discriminate|].
  destruct (Z.ltb_spec (Buffer_length data) (4 + len)) as [|Hbody]; [discriminate|].
  destruct (frame_split data len Hread Hbody) as (payload & rest' & Hdata & Hl & Hsub & Hrest).
  rewrite Hsub, Hrest.
  destruct (JSON_parse _) as [v| |] eqn:Hparse; try discriminate.
  cbn [mbind Completion_bind mret Completion_ret]. intros [= <- <-].
  exists payload. rewrite Hl. rewrite Hl in Hdata.
  split; [exact Hdata|]. split; [exact Hmax | exact Hparse].
Qed.

Lemma decodeFrame_inversion_witness :
  exists payload : Buffer,
    [x00; x00; x00; x02; "{"%byte; "}"%byte; x07]
    = uint32_bytes (Buffer_length payload) ++ payload ++ [x07]
    /\ Buffer_length payload <= MAX_MESSAGE_SIZE
    /\ JSON_parse (Buffer_toString payload) = Normal (JObj []).
Proof.
  apply (decodeFrame_inversion [x00; x00; x00; x02; "{"%byte; "}"%byte; x07] (JObj []) [x07]).
  reflexivity.
Defined.

(** X3: A frame cut short is never decoded, whatever it holds: every proper
    prefix of the frame of a payload within the limit is refused, as an
    incomplete header below four bytes and as an incomplete body from
    there on. *)
Theorem decodeFrame_truncated (obj : json) (frame : Buffer) (n : nat) :
  encodeFrame obj = Normal frame ->
  payload_size obj <= MAX_MESSAGE_SIZE ->
  (n < length frame)%nat ->
  decodeFrame (take n frame)
  = Throw (internal_error
             (if (n <? 4)%nat then "Incomplete frame header" else "Incomplete frame body")).
Proof.
  intros Henc Hsz Hn. unfold MAX_MESSAGE_SIZE in Hsz.
  rewrite encodeFrame_in_range in Henc by lia.
  assert (frame = uint32_bytes (payload_size obj) ++ Buffer_from (JSON_stringify obj)) as ->
    by congruence.
  clear Henc.
  pose proof (Buffer_length_nonneg (Buffer_from (JSON_stringify obj))) as Hpos.
  fold (payload_size obj) in Hpos.
  rewrite length_app in Hn. change (length (uint32_bytes _)) with 4%nat in Hn.
  unfold decodeFrame.
  assert (Buffer_length (take n (uint32_bytes (payload_size obj)
                                  ++ Buffer_from (JSON_stringify obj))) = Z.of_nat n) as Hl.
  { unfold Buffer_length. rewrite length_take, length_app.
    change (length (uint32_bytes _)) with 4%nat. lia. }
  rewrite Hl.
  destruct (Nat.ltb_spec n 4) as [Hshort|Hlong].
  - destruct (Z.ltb_spec (Z.of_nat n) 4); [reflexivity | lia].
  - destruct (Z.ltb_spec (Z.of_nat n) 4); [lia|].
    rewrite take_app_ge by (change (length (uint32_bytes _)) with 4%nat; lia).
    rewrite readUInt32BE_uint32_bytes by lia. cbn [mbind Completion_bind].
    unfold MAX_MESSAGE_SIZE.
    destruct (Z.gtb_spec (payload_size obj) (4 * 1024 * 1024)); [lia|].
    unfold payload_size, Buffer_length in *.
    destruct (Z.ltb_spec (Z.of_nat n) (4 + Z.of_nat (length (Buffer_from (JSON_stringify obj)))));
      [reflexivity | lia].
Qed.

Lemma decodeFrame_truncated_witness :
  decodeFrame (take 9 (frame_of sample_request))
  = Throw (internal_error "Incomplete frame body").
Proof.
  apply (decodeFrame_truncated sample_request (frame_of sample_request) 9).
  - reflexivity.
  - vm_compute. discriminate.
  - vm_compute. lia.
Defined.

(** X1: [encodeFrame] frames payloads well above the 4 MiB limit of
    [decodeFrame]: for every value of the JSON fragment whose text has at
    most 2^28 - 16 bytes, which no string length limit of V8 excludes,
    the frame is four bytes longer than the JSON text, its first four
    bytes read back as the length of the rest, and the rest is the JSON
    text. *)
Theorem encodeFrame_prefix (obj : json) :
  in_fragment obj ->
  payload_size obj <= 268435440 ->
  exists frame : Buffer,
    encodeFrame obj = Normal frame
    /\ Buffer_length frame = 4 + payload_size obj
    /\ readUInt32BE frame = Normal (Buffer_length frame - 4)
    /\ subarray_from frame 4 = Buffer_from (JSON_stringify obj).
Proof.
  intros _ Hsz. eexists. split; [apply encodeFrame_in_range; lia|].
  pose proof (Buffer_length_nonneg (Buffer_from (JSON_stringify obj))) as Hpos.
  fold (payload_size obj) in Hpos.
  rewrite Buffer_length_app, Buffer_length_uint32. fold (payload_size obj).
  split; [reflexivity|]. split.
  - rewrite readUInt32BE_uint32_bytes by lia. f_equal. lia.
  - reflexivity.
Qed.

Lemma encodeFrame_prefix_witness :
  exists frame : Buffer,
    encodeFrame (JObj [("hello", JStr "world")]) = Normal frame
    /\ Buffer_length frame = 4 + payload_size (JObj [("hello", JStr "world")])
    /\ readUInt32BE frame = Normal (Buffer_length frame - 4)
    /\ subarray_from frame 4 = Buffer_from (JSON_stringify (JObj [("hello", JStr "world")])).
Proof.
  apply (encodeFrame_prefix (JObj [("hello", JStr "world")])).
  - cbn. repeat split; reflexivity.
  - vm_compute. discriminate.
Defined.

(** X4: The exceptions of [decodeFrame]: a [VaultError] with the code
    [INTERNAL_ERROR] and one of three messages, or the [SyntaxError] of
    [JSON.parse] when a complete frame within the limit does not hold
    JSON. *)
Theorem decodeFrame_errors (data : Buffer) (e : Thrown) :
  decodeFrame data = Throw e ->
  (e = internal_error "Incomplete frame header" /\ Buffer_length data < 4)
  \/ (e = internal_error "Response too large" /\ 4 <= Buffer_length data)
  \/ (e = internal_error "Incomplete frame body" /\ 4 <= Buffer_length data)
  \/ (e = ThrowSyntaxError
      /\ exists payload rest,
           data = uint32_bytes (Buffer_length payload) ++ payload ++ rest
           /\ Buffer_length payload <= MAX_MESSAGE_SIZE
           /\ JSON_parse (Buffer_toString payload) = Throw ThrowSyntaxError).
Proof.
  unfold decodeFrame.
  destruct (Z.ltb_spec (Buffer_length data) 4) as [Hshort|Hlen];
    [intros [= <-]; left; split; [reflexivity | exact Hshort]|].
  destruct (readUInt32BE data) as [len| |] eqn:Hread.
  - cbn [mbind Completion_bind].
    destruct (Z.gtb_spec len MAX_MESSAGE_SIZE) as [|Hmax];
      [intros [= <-]; right; left; split; [reflexivity | exact Hlen]|].
    destruct (Z.ltb_spec (Buffer_length data) (4 + len)) as [|Hbody];
      [intros [= <-]; right; right; left; split; [reflexivity | exact Hlen]|].
    destruct (frame_split data len Hread Hbody)
      as (payload & rest & Hdata & Hl & Hsub & Hrest).
    rewrite Hsub.
    destruct (JSON_parse (Buffer_toString payload)) as [v|e'|] eqn:Hparse;
      cbn [mbind Completion_bind mret Completion_ret]; try discriminate.
    intros [= <-].
    assert (e' = ThrowSyntaxError) as ->.
    { unfold JSON_parse in Hparse. destruct (parse_text _); congruence. }
    right; right; right. split; [reflexivity|].
    exists payload, rest. rewrite Hl. rewrite Hl in Hdata.
    split; [exact Hdata|]. split; [exact Hmax | exact Hparse].
  - destruct data as [|b0 [|b1 [|b2 [|b3 tail]]]];
      try (unfold Buffer_length in Hlen; cbn in Hlen; lia).
    discriminate Hread.
  - destruct data as [|b0 [|b1 [|b2 [|b3 tail]]]]; discriminate Hread.
Qed.

Lemma decodeFrame_errors_witness :
  ThrowSyntaxError = ThrowSyntaxError
  /\ exists payload rest,
       [x00; x00; x00; x01; "{"%byte; x07]
       = uint32_bytes (Buffer_length payload) ++ payload ++ rest
       /\ Buffer_length payload <= MAX_MESSAGE_SIZE
       /\ JSON_parse (Buffer_toString payload) = Throw ThrowSyntaxError.
Proof.
  destruct (decodeFrame_errors [x00; x00; x00; x01; "{"%byte; x07] ThrowSyntaxError eq_refl)
    as [[H _]|[[H _]|[[H _]|H]]]; [discriminate H.. | exact H].
Defined.

(** ** The error mapper *)

Lemma construct_fields (k : ErrorClass) (msg c : string) (opts : ErrorOpts) :
  opt_code opts = Some c ->
  construct k msg opts
  = {| cls := k; name := class_name k; message := msg; code := c;
       detail := opt_detail opts; suggestion := opt_suggestion opts;
       docsUrl := opt_docsUrl opts;
       context := default (JObj []) (opt_context opts) |}.
Proof.
  destruct opts as [oc od os ou ox]. cbn. intros ->. destruct k; reflexivity.
Qed.

Lemma raiseOnError_no_error (resp : RpcResponse.t) :
  RpcResponse.error resp = None -> raiseOnError resp = Normal tt.
Proof. intros H. unfold raiseOnError. rewrite H. reflexivity. Qed.

Lemma raiseOnError_string (resp : RpcResponse.t) (s : string) :
  RpcResponse.error resp = Some (ErrorString s) ->
  raiseOnError resp
  = Throw (ThrowError {| cls := VaultError; name := "VaultError"; message := s;
                         code := "UNKNOWN"; detail := None; suggestion := None;
                         docsUrl := None; context := JObj [] |}).
Proof. intros H. unfold raiseOnError. rewrite H. reflexivity. Qed.

(** The table's own keys are not names of [Object.prototype]. *)
Lemma table_key_not_inherited (c : string) (k : ErrorClass) :
  assoc c CODE_TO_ERROR = Some k -> assoc c Object_prototype = None.
Proof.
  unfold CODE_TO_ERROR. cbn [assoc].
  repeat match goal with
         | |- context [String.eqb c ?k] =>
             destruct (String.eqb_spec c k) as [->|_]; [intros _; reflexivity|]
         end.
  discriminate.
Qed.

Lemma CODE_TO_ERROR_get_own (c : string) :
  assoc c Object_prototype = None ->
  default (ClassValue VaultError) (CODE_TO_ERROR_get c) = ClassValue (kind_of_code c).
Proof.
  intros H. unfold CODE_TO_ERROR_get, kind_of_code.
  destruct (assoc c CODE_TO_ERROR); [reflexivity|]. rewrite H. reflexivity.
Qed.

(** Away from the names [Object.prototype] defines, a structured error
    is mapped as the specification says. *)
Lemma raiseOnError_structured (resp : RpcResponse.t) (e : StructuredError.t) :
  RpcResponse.error resp = Some (ErrorStructured e) ->
  assoc (default "INTERNAL_ERROR" (StructuredError.code e)) Object_prototype = None ->
  raiseOnError resp = Throw (ThrowError (expected_error e)).
Proof.
  intros H Hown. unfold raiseOnError. rewrite H.
  rewrite CODE_TO_ERROR_get_own by assumption.
  erewrite construct_fields by reflexivity. reflexivity.
Qed.

(** A code the table does not list, other than those names, falls back
    to the generic kind and is kept verbatim; a structured error without a
    code gets ["INTERNAL_ERROR"]. *)
Lemma raiseOnError_fallback (resp : RpcResponse.t) (e : StructuredError.t) (c : string) :
  RpcResponse.error resp = Some (ErrorStructured e) ->
  StructuredError.code e = Some c ->
  assoc c CODE_TO_ERROR = None -> assoc c Object_prototype = None ->
  exists err : ErrorObject,
    raiseOnError resp = Throw (ThrowError err) /\ cls err = VaultError /\ code err = c.
Proof.
  intros H Hc Htab Hown. exists (expected_error e).
  split; [apply raiseOnError_structured; [assumption | rewrite Hc; assumption]|].
  unfold expected_error, kind_of_code. rewrite Hc. cbn -[CODE_TO_ERROR].
  rewrite Htab. split; reflexivity.
Qed.

Lemma raiseOnError_no_code (resp : RpcResponse.t) (e : StructuredError.t) :
  RpcResponse.error resp = Some (ErrorStructured e) ->
  StructuredError.code e = None ->
  exists err : ErrorObject,
    raiseOnError resp = Throw (ThrowError err) /\ cls err = VaultError
    /\ code err = "INTERNAL_ERROR".
Proof.
  intros H Hc. exists (expected_error e).
  split; [apply raiseOnError_structured; [assumption | rewrite Hc; reflexivity]|].
  unfold expected_error. rewrite Hc. split; reflexivity.
Qed.

(** C6: on the structured error [{ code: "toString", message: "boom" }]
    the mapper raises no typed error: [CODE_TO_ERROR["toString"]] is the
    method inherited from [Object.prototype], the fallback [?? VaultError]
    is not taken, and [new Cls(...)] is a type error. *)
Theorem C6_inherited_code_raises_type_error :
  raiseOnError (structured_response (error_with_code "toString"))
  = Throw (ThrowTypeError "Cls is not a constructor")
  /\ kind_of_code "toString" = VaultError.
Proof. split; reflexivity. Qed.

(** C10: the code ["constructor"] is not in the table, and the value
    raised for it is not a [VaultError] carrying that code:
    [CODE_TO_ERROR["constructor"]] is [Object], and [new Object(message)]
    is the message boxed as a [String] object. *)
Theorem C10_unlisted_code_not_preserved :
  assoc "constructor" CODE_TO_ERROR = None
  /\ raiseOnError (structured_response (error_with_code "constructor"))
     = Throw (ThrowStringObject "boom").
Proof. split; reflexivity. Qed.

(** *** The typed errors *)

(** X5: [raiseOnError] returns exactly when the response carries no error:
    an error of either form, whatever its code, makes it throw. *)
Theorem raiseOnError_returns_iff_no_error (resp : RpcResponse.t) :
  raiseOnError resp = Normal tt <-> RpcResponse.error resp = None.
Proof.
  split; [|apply raiseOnError_no_error].
  unfold raiseOnError. destruct (RpcResponse.error resp) as [[s|e]|]; [discriminate| |reflexivity].
  cbn zeta. destruct (default (ClassValue VaultError) (CODE_TO_ERROR_get _)); discriminate.
Qed.

(** X6: A structured error whose code is not the name of a property that
    objects inherit is raised as an error of the class the table lists
    for the code, and of [VaultError] when the table does not list it.
    The error carries the code as received, the message (["Unknown
    error"] without one), the detail, the suggestion, the documentation
    link, and the context ([{}] without one); a structured error without a
    code counts as [INTERNAL_ERROR]. *)
Theorem raiseOnError_typed_error (resp : RpcResponse.t) (e : StructuredError.t) (c : string) :
  RpcResponse.error resp = Some (ErrorStructured e) ->
  default "INTERNAL_ERROR" (StructuredError.code e) = c ->
  assoc c Object_prototype = None ->
  exists err : ErrorObject,
    raiseOnError resp = Throw (ThrowError err)
    /\ cls err = default VaultError (assoc c CODE_TO_ERROR)
    /\ name err = class_name (cls err)
    /\ code err = c
    /\ message err = default "Unknown error" (StructuredError.message e)
    /\ detail err = StructuredError.detail e
    /\ suggestion err = StructuredError.suggestion e
    /\ docsUrl err = StructuredError.docs_url e
    /\ context err = default (JObj []) (StructuredError.context e).
Proof.
  intros Herr Hc Hown. exists (expected_error e). split.
  - apply raiseOnError_structured; [exact Herr | rewrite Hc; exact Hown].
  - unfold expected_error, kind_of_code. rewrite Hc. cbn -[CODE_TO_ERROR].
    repeat split; reflexivity.
Qed.

Lemma raiseOnError_typed_error_witness :
  exists err : ErrorObject,
    raiseOnError
      (RpcResponse.mk 7 None
         (Some (ErrorStructured
                  (StructuredError.mk (Some "RATE_LIMITED") None (Some "slow down") None
                     None None))))
    = Throw (ThrowError err)
    /\ cls err = default VaultError (assoc "RATE_LIMITED" CODE_TO_ERROR)
    /\ name err = class_name (cls err)
    /\ code err = "RATE_LIMITED"
    /\ message err = default "Unknown error" None
    /\ detail err = Some "slow down"
    /\ suggestion err = None
    /\ docsUrl err = None
    /\ context err = default (JObj []) None.
Proof.
  apply (raiseOnError_typed_error
           (RpcResponse.mk 7 None
              (Some (ErrorStructured
                       (StructuredError.mk (Some "RATE_LIMITED") None (Some "slow down") None
                          None None))))
           (StructuredError.mk (Some "RATE_LIMITED") None (Some "slow down") None None None)
           "RATE_LIMITED").
  - reflexivity.
  - reflexivity.
  - reflexivity.
Defined.

(** X7: The table and the constructors agree: [CODE_TO_ERROR] lists a class
    under a code exactly when the class is one of the seven subclasses
    and the code is the one its constructor gives an error built without
    a code.  So the class found for a code builds errors that carry that
    code by default, and no subclass is missing from the table. *)
Theorem CODE_TO_ERROR_inverts_default_code (c : string) (k : ErrorClass) (msg : string) :
  assoc c CODE_TO_ERROR = Some k
  <-> k <> VaultError /\ code (construct k msg no_opts) = c.
Proof.
  split.
  - unfold CODE_TO_ERROR. cbn [assoc].
    repeat match goal with
           | |- context [String.eqb c ?s] =>
               destruct (String.eqb_spec c s) as [->|_];
               [intros [= <-]; split; [discriminate | reflexivity]|]
           end.
    discriminate.
  - intros [Hk <-]. destruct k; [contradiction|reflexivity..].
Qed.

(** ** The receive path *)

Lemma dispatch_buffer (payload : json) (c : SanctumClient) :
  buffer (fst (dispatch payload c)) = buffer c.
Proof.
  unfold dispatch. destruct payload; try reflexivity;
    destruct (get _ "id") as [[]|]; try reflexivity;
    destruct (decide _); reflexivity.
Qed.

Lemma dispatch_session (payload : json) (c : SanctumClient) :
  session_fields (fst (dispatch payload c)) = session_fields c
  /\ socket (fst (dispatch payload c)) = socket c.
Proof.
  unfold dispatch. destruct payload; try (split; reflexivity);
    destruct (get _ "id") as [[]|]; try (split; reflexivity);
    destruct (decide _); split; reflexivity.
Qed.

Lemma onData_loop_session (fuel : nat) (c : SanctumClient) :
  session_fields (fst (onData_loop fuel c)) = session_fields c
  /\ socket (fst (onData_loop fuel c)) = socket c.
Proof.
  revert c. induction fuel as [|fuel IH]; intros c; [split; reflexivity|].
  cbn [onData_loop].
  destruct (Buffer_length (buffer c) <? 4); [split; reflexivity|].
  destruct (readUInt32BE (buffer c)) as [len| |]; try (split; reflexivity).
  destruct (Buffer_length (buffer c) <? 4 + len); [split; reflexivity|].
  destruct (JSON_parse _) as [payload| |]; try (split; reflexivity).
  set (c1 := set_buffer _ c).
  pose proof (dispatch_session payload c1) as [Hd1 Hd2].
  destruct (dispatch payload c1) as [c2 [[]| |]]; cbn [fst] in *.
  - destruct (IH c2) as [H1 H2]. rewrite H1, H2, Hd1, Hd2. split; reflexivity.
  - rewrite Hd1, Hd2. split; reflexivity.
  - rewrite Hd1, Hd2. split; reflexivity.
Qed.

Lemma onData_session (chunk : Buffer) (c : SanctumClient) :
  session_fields (fst (onData chunk c)) = session_fields c
  /\ socket (fst (onData chunk c)) = socket c.
Proof.
  unfold onData.
  destruct (onData_loop_session (S (length (buffer (set_buffer (buffer c ++ chunk) c))))
              (set_buffer (buffer c ++ chunk) c)) as [H1 H2].
  rewrite H1, H2. split; reflexivity.
Qed.

Lemma onData_loop_fuel (fuel1 fuel2 : nat) (c : SanctumClient) :
  (length (buffer c) < fuel1)%nat -> (length (buffer c) < fuel2)%nat ->
  onData_loop fuel1 c = onData_loop fuel2 c.
Proof.
  revert fuel2 c. induction fuel1 as [|fuel1 IH]; intros fuel2 c H1 H2; [lia|].
  destruct fuel2 as [|fuel2]; [lia|]. cbn [onData_loop].
  destruct (Z.ltb_spec (Buffer_length (buffer c)) 4) as [|Hlen]; [reflexivity|].
  destruct (readUInt32BE (buffer c)) as [len| |] eqn:Hread; try reflexivity.
  apply readUInt32BE_nonneg in Hread.
  destruct (Z.ltb_spec (Buffer_length (buffer c)) (4 + len)) as [|Hbody]; [reflexivity|].
  destruct (JSON_parse _) as [payload| |]; try reflexivity.
  set (c1 := set_buffer (subarray_from (buffer c) (4 + len)) c).
  pose proof (dispatch_buffer payload c1) as Hbuf.
  destruct (dispatch payload c1) as [c2 [[]| |]]; try reflexivity.
  cbn [fst] in Hbuf.
  assert (length (buffer c2) + 4 <= length (buffer c))%nat as Hshrink.
  { rewrite Hbuf. unfold c1. cbn. unfold subarray_from. rewrite length_drop.
    unfold Buffer_length in *. lia. }
  apply IH; lia.
Qed.

(** [onData] gives its loop more fuel than it can use. *)
Lemma onData_fuel (chunk : Buffer) (c : SanctumClient) (extra : nat) :
  onData chunk c
  = onData_loop (S (length (buffer c ++ chunk)) + extra) (set_buffer (buffer c ++ chunk) c).
Proof. unfold onData. apply onData_loop_fuel; cbn; lia. Qed.

(** A chunk that is one whole frame, arriving on an empty buffer, is
    parsed and dispatched whatever length below 2^32 its prefix declares:
    the loop of [onData] compares the length with nothing but the number
    of bytes at hand. *)
Lemma onData_whole_frame (text : string) (payload : json) (c : SanctumClient) :
  buffer c = [] ->
  Buffer_length (Buffer_from text) <= 4294967295 ->
  JSON_parse text = Normal payload ->
  snd (dispatch payload (set_buffer [] c)) = Normal tt ->
  onData (whole_frame text) c = (fst (dispatch payload (set_buffer [] c)), Normal tt).
Proof.
  intros Hb Hsz Hparse Hd. unfold onData, whole_frame. rewrite Hb, app_nil_l.
  pose proof (Buffer_length_nonneg (Buffer_from text)) as Hn.
  cbn [onData_loop]. change (buffer (set_buffer ?b c)) with b.
  assert (uint32_bytes (Buffer_length (Buffer_from text)) ++ Buffer_from text
          = uint32_bytes (Buffer_length (Buffer_from text)) ++ Buffer_from text ++ [])
    as E by (rewrite app_nil_r; reflexivity).
  rewrite E. clear E.
  rewrite !Buffer_length_app, Buffer_length_uint32.
  change (Buffer_length []) with 0.
  destruct (Z.ltb_spec (4 + (Buffer_length (Buffer_from text) + 0)) 4); [lia|].
  rewrite readUInt32BE_uint32_bytes by lia.
  destruct (Z.ltb_spec (4 + (Buffer_length (Buffer_from text) + 0))
              (4 + Buffer_length (Buffer_from text))); [lia|].
  rewrite subarray_frame, subarray_from_frame by reflexivity.
  rewrite Buffer_toString_from, Hparse.
  replace (set_buffer [] (set_buffer _ c)) with (set_buffer [] c) by reflexivity.
  pose proof (dispatch_buffer payload (set_buffer [] c)) as Hbuf.
  destruct (dispatch payload (set_buffer [] c)) as [c2 r]. cbn [fst snd] in *.
  subst r. rewrite length_app.
  change (length (uint32_bytes ?v)) with 4%nat. cbn [Nat.add onData_loop].
  rewrite Hbuf. reflexivity.
Qed.

(** *** Chunks, calls in flight and frames that are not JSON *)

(** [dispatch] neither reads nor writes the receive buffer. *)
Lemma dispatch_set_buffer (payload : json) (b : Buffer) (c : SanctumClient) :
  dispatch payload (set_buffer b c)
  = (set_buffer b (fst (dispatch payload c)), snd (dispatch payload c)).
Proof.
  unfold dispatch. destruct payload; try reflexivity;
    destruct (get _ "id") as [[]|]; try reflexivity;
    change (pending (set_buffer b c)) with (pending c);
    destruct (decide _); reflexivity.
Qed.

Lemma set_buffer_set_buffer (b1 b2 : Buffer) (c : SanctumClient) :
  set_buffer b1 (set_buffer b2 c) = set_buffer b1 c.
Proof. reflexivity. Qed.

(** Bytes that follow a complete frame change neither its length prefix
    nor its payload, and stay behind it. *)
Lemma readUInt32BE_app (B b : Buffer) :
  4 <= Buffer_length B -> readUInt32BE (B ++ b) = readUInt32BE B.
Proof.
  unfold Buffer_length. destruct B as [|b0 [|b1 [|b2 [|b3 tail]]]]; cbn; try lia. reflexivity.
Qed.

Lemma subarray_app (B b : Buffer) (len : Z) :
  0 <= len -> 4 + len <= Buffer_length B ->
  subarray (B ++ b) 4 (4 + len) = subarray B 4 (4 + len)
  /\ subarray_from (B ++ b) (4 + len) = subarray_from B (4 + len) ++ b.
Proof.
  unfold Buffer_length, subarray, subarray_from. intros Hlen Hbody. split.
  - rewrite drop_app_le by lia. rewrite take_app_le; [reflexivity|].
    rewrite length_drop. lia.
  - rewrite drop_app_le by lia. reflexivity.
Qed.

Lemma onData_loop_buffer_length (fuel : nat) (c : SanctumClient) :
  (length (buffer (fst (onData_loop fuel c))) <= length (buffer c))%nat.
Proof.
  revert c. induction fuel as [|fuel IH]; intros c; [reflexivity|].
  cbn [onData_loop].
  destruct (Buffer_length (buffer c) <? 4); [reflexivity|].
  destruct (readUInt32BE (buffer c)) as [len| |]; try reflexivity.
  destruct (Buffer_length (buffer c) <? 4 + len); [reflexivity|].
  destruct (JSON_parse _) as [payload| |]; try reflexivity.
  set (c1 := set_buffer _ c).
  pose proof (dispatch_buffer payload c1) as Hbuf.
  assert (length (buffer c1) <= length (buffer c))%nat as Hc1
    by (unfold c1; cbn; unfold subarray_from; rewrite length_drop; lia).
  destruct (dispatch payload c1) as [c2 [[]| |]]; cbn [fst] in *; rewrite <- ?Hbuf in Hc1;
    [|exact Hc1..].
  specialize (IH c2). lia.
Qed.

(** The loop of [onData], resumed on a longer buffer, goes on from where
    it stopped. *)
Lemma onData_loop_resume (fuel : nat) (c c' : SanctumClient) (b : Buffer) (fuel2 : nat) :
  (length (buffer c) < fuel)%nat ->
  onData_loop fuel c = (c', Normal tt) ->
  (length (buffer c ++ b) < fuel2)%nat ->
  onData_loop fuel2 (set_buffer (buffer c ++ b) c)
  = onData_loop fuel2 (set_buffer (buffer c' ++ b) c').
Proof.
  revert c fuel2. induction fuel as [|fuel IH]; intros c fuel2 Hfuel Hloop Hfuel2; [lia|].
  cbn [onData_loop] in Hloop.
  destruct (Z.ltb_spec (Buffer_length (buffer c)) 4) as [|Hlen];
    [injection Hloop as <-; reflexivity|].
  destruct (readUInt32BE (buffer c)) as [len| |] eqn:Hread; try discriminate.
  pose proof (readUInt32BE_nonneg _ _ Hread) as Hpos.
  destruct (Z.ltb_spec (Buffer_length (buffer c)) (4 + len)) as [|Hbody];
    [injection Hloop as <-; reflexivity|].
  destruct (JSON_parse _) as [payload| |] eqn:Hparse; try discriminate.
  set (B' := subarray_from (buffer c) (4 + len)) in *.
  rewrite dispatch_set_buffer in Hloop.
  destruct (dispatch payload c) as [d [[]| |]] eqn:Hd; cbn [fst snd] in Hloop;
    try discriminate.
  destruct fuel2 as [|fuel2]; [lia|].
  assert (length B' + 4 <= length (buffer c))%nat as Hshrink.
  { unfold B', subarray_from. rewrite length_drop. unfold Buffer_length in *. lia. }
  set (resumed := onData_loop (S fuel2) (set_buffer (buffer c' ++ b) c')).
  cbn [onData_loop]. change (buffer (set_buffer ?x c)) with x.
  rewrite Buffer_length_app.
  pose proof (Buffer_length_nonneg b) as Hb.
  destruct (Z.ltb_spec (Buffer_length (buffer c) + Buffer_length b) 4); [lia|].
  rewrite readUInt32BE_app, Hread by assumption.
  destruct (Z.ltb_spec (Buffer_length (buffer c) + Buffer_length b) (4 + len)); [lia|].
  destruct (subarray_app (buffer c) b len Hpos Hbody) as [-> ->].
  rewrite Hparse. fold B'. rewrite set_buffer_set_buffer, dispatch_set_buffer, Hd.
  cbn [fst snd].
  rewrite length_app in Hfuel2.
  pose proof (IH (set_buffer B' d) fuel2) as IH'.
  change (buffer (set_buffer B' d)) with B' in IH'.
  rewrite set_buffer_set_buffer in IH'.
  rewrite IH'; [|lia|exact Hloop|rewrite length_app; lia].
  pose proof (onData_loop_buffer_length fuel (set_buffer B' d)) as Hle.
  rewrite Hloop in Hle. cbn [fst] in Hle. change (buffer (set_buffer B' d)) with B' in Hle.
  subst resumed. apply onData_loop_fuel; cbn; rewrite length_app; lia.
Qed.

(** X10: The receive path does not depend on how the stream is cut into
    chunks: when [onData] has returned for a chunk, handing it the next
    chunk leaves the client as handing it both chunks at once would. *)
Theorem onData_chunks (a b : Buffer) (c : SanctumClient) :
  snd (onData a c) = Normal tt ->
  onData b (fst (onData a c)) = onData (a ++ b) c.
Proof.
  intros Hret. unfold onData at 1 3.
  destruct (onData a c) as [c' r] eqn:Ha. cbn [fst snd] in *. subst r.
  unfold onData in Ha. cbn [fst].
  change (buffer (set_buffer ?x ?y)) with x in *.
  rewrite app_assoc. symmetry.
  pose proof (onData_loop_buffer_length (S (length (buffer c ++ a)))
                (set_buffer (buffer c ++ a) c)) as Hle.
  rewrite Ha in Hle. cbn [fst] in Hle. change (buffer (set_buffer ?x ?y)) with x in Hle.
  pose proof (onData_loop_resume (S (length (buffer c ++ a)))
                (set_buffer (buffer c ++ a) c) c' b
                (S (length ((buffer c ++ a) ++ b)))) as H.
  change (buffer (set_buffer ?x ?y)) with x in H.
  rewrite set_buffer_set_buffer in H.
  rewrite H; [|lia|exact Ha|lia].
  apply onData_loop_fuel; cbn; rewrite !length_app in *; lia.
Qed.

Lemma onData_chunks_witness :
  onData (drop 7 (frame_of (JObj [("id", JNum 3); ("result", JObj [])])))
    (fst (onData (take 7 (frame_of (JObj [("id", JNum 3); ("result", JObj [])])))
            two_in_flight))
  = onData (take 7 (frame_of (JObj [("id", JNum 3); ("result", JObj [])]))
            ++ drop 7 (frame_of (JObj [("id", JNum 3); ("result", JObj [])])))
      two_in_flight.
Proof.
  apply (onData_chunks (take 7 (frame_of (JObj [("id", JNum 3); ("result", JObj [])])))
           (drop 7 (frame_of (JObj [("id", JNum 3); ("result", JObj [])]))) two_in_flight).
  vm_compute. reflexivity.
Defined.

(** What a response can do to the calls in flight. *)
Lemma settles_only_pending_refl (c c' : SanctumClient) :
  pending c' = pending c -> promises c' = promises c -> settles_only_pending c c'.
Proof.
  intros Hp Hq. unfold settles_only_pending. rewrite Hp, Hq.
  split; [reflexivity|]. split; [reflexivity | intros id Hin Hout; contradiction].
Qed.

Lemma settles_only_pending_trans (c1 c2 c3 : SanctumClient) :
  settles_only_pending c1 c2 -> settles_only_pending c2 c3 -> settles_only_pending c1 c3.
Proof.
  intros (Hsub & Hkeep & Hset) (Hsub' & Hkeep' & Hset').
  split; [etrans; eassumption|]. split.
  - intros id Hid. rewrite Hkeep' by (intros Hin; apply Hid, Hsub, Hin).
    apply Hkeep. exact Hid.
  - intros id Hid Hgone. destruct (decide (id ∈ pending c2)) as [Hin|Hout].
    + apply Hset'; assumption.
    + rewrite Hkeep' by exact Hout. apply Hset; assumption.
Qed.

Lemma dispatch_pending (payload : json) (c : SanctumClient) :
  settles_only_pending c (fst (dispatch payload c)).
Proof.
  unfold dispatch.
  destruct payload; try (apply settles_only_pending_refl; reflexivity);
    destruct (get _ "id") as [[| |id0| | |]|];
    try (apply settles_only_pending_refl; reflexivity);
    (destruct (decide (id0 ∈ pending c)) as [Hin|Hout];
     [|apply settles_only_pending_refl; reflexivity]); cbn.
  all: split; [apply subseteq_difference_l; reflexivity|]; split.
  all: try (intros id Hid; apply lookup_insert_ne; intros ->; contradiction).
  all: intros id Hid Hgone; cbn in Hgone |- *; destruct (decide (id0 = id)) as [->|Hne];
    [rewrite lookup_insert_eq; eexists; reflexivity|].
  all: exfalso; apply Hgone; apply elem_of_difference; split; [exact Hid|];
    intros Heq; apply elem_of_singleton in Heq; congruence.
Qed.

Lemma onData_loop_pending (fuel : nat) (c : SanctumClient) :
  settles_only_pending c (fst (onData_loop fuel c)).
Proof.
  revert c. induction fuel as [|fuel IH]; intros c;
    [apply settles_only_pending_refl; reflexivity|].
  cbn [onData_loop].
  destruct (Buffer_length (buffer c) <? 4); [apply settles_only_pending_refl; reflexivity|].
  destruct (readUInt32BE (buffer c)) as [len| |];
    try (apply settles_only_pending_refl; reflexivity).
  destruct (Buffer_length (buffer c) <? 4 + len);
    [apply settles_only_pending_refl; reflexivity|].
  destruct (JSON_parse _) as [payload| |];
    try (apply settles_only_pending_refl; reflexivity).
  set (c1 := set_buffer _ c).
  assert (settles_only_pending c c1) as H1 by (apply settles_only_pending_refl; reflexivity).
  pose proof (dispatch_pending payload c1) as H2.
  pose proof (settles_only_pending_trans _ _ _ H1 H2) as H12.
  destruct (dispatch payload c1) as [c2 [[]| |]]; cbn [fst] in *; [|exact H12..].
  exact (settles_only_pending_trans _ _ _ H12 (IH c2)).
Qed.

(** X11: Incoming data never adds a call to [pending], never touches the
    promise of a call that is not pending, and removes a call from
    [pending] only by settling its promise. *)
Theorem onData_settles_only_pending (chunk : Buffer) (c : SanctumClient) :
  pending (fst (onData chunk c)) ⊆ pending c
  /\ (forall id, id ∉ pending c ->
        promises (fst (onData chunk c)) !! id = promises c !! id)
  /\ (forall id, id ∈ pending c -> id ∉ pending (fst (onData chunk c)) ->
        is_Some (promises (fst (onData chunk c)) !! id)).
Proof. unfold onData. apply (onData_loop_pending _ (set_buffer (buffer c ++ chunk) c)). Qed.

(** X12: A response is taken once: after the response to a request has been
    dispatched, another response with the same id, whatever it holds,
    leaves the client as it is. *)
Theorem dispatch_same_id_twice (first second : json) (id : Z) (c : SanctumClient) :
  get first "id" = Some (JNum id) -> get second "id" = Some (JNum id) ->
  dispatch second (fst (dispatch first c)) = (fst (dispatch first c), Normal tt).
Proof.
  intros H1 H2.
  assert (id ∉ pending (fst (dispatch first c))) as Hgone.
  { unfold dispatch. destruct first; try discriminate; rewrite H1;
      (destruct (decide (id ∈ pending c)); cbn; [|assumption]);
      intros Hin; apply elem_of_difference in Hin as [_ Hin]; apply Hin;
      apply elem_of_singleton; reflexivity. }
  unfold dispatch at 1. destruct second; try discriminate; rewrite H2;
    (destruct (decide (id ∈ pending (fst (dispatch first c)))); [contradiction | reflexivity]).
Qed.

Lemma dispatch_same_id_twice_witness :
  dispatch (JObj [("id", JNum 3); ("result", JObj [("n", JNum 2)])])
    (fst (dispatch (JObj [("id", JNum 3); ("result", JObj [("n", JNum 1)])]) two_in_flight))
  = (fst (dispatch (JObj [("id", JNum 3); ("result", JObj [("n", JNum 1)])]) two_in_flight),
     Normal tt).
Proof.
  apply (dispatch_same_id_twice _ _ 3 two_in_flight); reflexivity.
Defined.

(** The loop of [onData] throws a [SyntaxError] only at a complete frame
    that is not JSON, and leaves that frame at the head of the buffer. *)
Lemma onData_loop_syntax_error (fuel : nat) (c c' : SanctumClient) :
  onData_loop fuel c = (c', Throw ThrowSyntaxError) ->
  exists len,
    readUInt32BE (buffer c') = Normal len
    /\ 4 + len <= Buffer_length (buffer c')
    /\ JSON_parse (Buffer_toString (subarray (buffer c') 4 (4 + len))) = Throw ThrowSyntaxError.
Proof.
  revert c. induction fuel as [|fuel IH]; intros c; [discriminate|].
  cbn [onData_loop].
  destruct (Z.ltb_spec (Buffer_length (buffer c)) 4); [discriminate|].
  destruct (readUInt32BE (buffer c)) as [len| |] eqn:Hread;
    [|destruct (buffer c) as [|b0 [|b1 [|b2 [|b3 tail]]]]; cbn in Hread; intros; congruence|discriminate].
  destruct (Z.ltb_spec (Buffer_length (buffer c)) (4 + len)); [discriminate|].
  destruct (JSON_parse _) as [payload|e|] eqn:Hparse; [| |discriminate].
  - set (c1 := set_buffer _ c).
    assert (snd (dispatch payload c1) <> Throw ThrowSyntaxError) as Hd.
    { unfold dispatch. destruct payload; try discriminate;
        destruct (get _ "id") as [[]|]; try discriminate; destruct (decide _); discriminate. }
    destruct (dispatch payload c1) as [c2 [[]| |]]; cbn [snd] in Hd;
      [apply IH | intros [= <- ->]; contradiction | discriminate].
  - intros [= <- ->]. exists len. repeat split; assumption.
Qed.

(** X13: A frame that is not JSON blocks the receive path for good: once
    [onData] has thrown the [SyntaxError] of [JSON.parse], the frame stays
    in the buffer, and every later chunk is appended behind it and makes
    [onData] throw again, so that no response that follows is dispatched. *)
Theorem onData_stuck_after_syntax_error (a b : Buffer) (c : SanctumClient) :
  snd (onData a c) = Throw ThrowSyntaxError ->
  onData b (fst (onData a c))
  = (set_buffer (buffer (fst (onData a c)) ++ b) (fst (onData a c)), Throw ThrowSyntaxError).
Proof.
  intros Hthrow. destruct (onData a c) as [c' r] eqn:Ha. cbn [fst snd] in *. subst r.
  unfold onData in Ha. apply onData_loop_syntax_error in Ha as (len & Hread & Hbody & Hparse).
  pose proof (readUInt32BE_nonneg _ _ Hread) as Hpos.
  pose proof (Buffer_length_nonneg b) as Hb.
  unfold onData. cbn [onData_loop]. change (buffer (set_buffer ?x ?y)) with x.
  rewrite Buffer_length_app.
  destruct (Z.ltb_spec (Buffer_length (buffer c') + Buffer_length b) 4); [lia|].
  rewrite readUInt32BE_app, Hread by lia.
  destruct (Z.ltb_spec (Buffer_length (buffer c') + Buffer_length b) (4 + len)); [lia|].
  destruct (subarray_app (buffer c') b len Hpos Hbody) as [-> _].
  rewrite Hparse. reflexivity.
Qed.

Lemma onData_stuck_after_syntax_error_witness :
  onData (frame_of (JObj [("id", JNum 3); ("result", JObj [])]))
    (fst (onData [x00; x00; x00; x01; "{"%byte] two_in_flight))
  = (set_buffer (buffer (fst (onData [x00; x00; x00; x01; "{"%byte] two_in_flight))
                 ++ frame_of (JObj [("id", JNum 3); ("result", JObj [])]))
       (fst (onData [x00; x00; x00; x01; "{"%byte] two_in_flight)),
     Throw ThrowSyntaxError).
Proof.
  apply (onData_stuck_after_syntax_error [x00; x00; x00; x01; "{"%byte]
           (frame_of (JObj [("id", JNum 3); ("result", JObj [])])) two_in_flight).
  vm_compute. reflexivity.
Defined.

(** ** Socket events *)

Lemma close_event_ignored (c : SanctumClient) : emit EvClose c = (c, Normal tt).
Proof. unfold emit. destruct (socket c); reflexivity. Qed.

(** Once [rawConnect] has removed its listener, an ["error"] event
    reaches no listener: the emitter throws it, and the client, its
    [pending] map included, is as before. *)
Lemma error_event_unhandled (c : SanctumClient) (s : Socket) (e : Thrown) :
  socket c = Some s -> error_listener s = false -> emit (EvError e) c = (c, Throw e).
Proof. intros Hs He. unfold emit. rewrite Hs, He. reflexivity. Qed.

Lemma rawConnect_drops_error_listener (P : Platform) (c c' : SanctumClient) (w w' : World) :
  rawConnect P c ([EvConnect] :: w) = (Fulfilled tt, c', w') ->
  option_map error_listener (socket c') = Some false.
Proof.
  unfold rawConnect, createConnection.
  destruct (connect_options P c) as [h n|p];
    [destruct ((0 <=? n) && (n <=? 65535))|]; try discriminate;
    cbn; intros H; inversion H; reflexivity.
Qed.

Lemma emit_session (ev : SocketEvent) (c : SanctumClient) :
  session_fields (fst (emit ev c)) = session_fields c.
Proof.
  unfold emit. destruct (socket c) as [s|]; [|reflexivity].
  destruct ev as [|chunk|e|].
  - destruct (connect_listener s); reflexivity.
  - apply onData_session.
  - destruct (error_listener s); reflexivity.
  - reflexivity.
Qed.

Lemma deliver_session (evs : list SocketEvent) (c : SanctumClient) :
  session_fields (fst (deliver evs c)) = session_fields c.
Proof.
  revert c. induction evs as [|ev evs IH]; intros c; [reflexivity|].
  cbn [deliver]. pose proof (emit_session ev c) as He.
  destruct (emit ev c) as [c1 [[]| |]]; cbn [fst] in *; [|assumption..].
  rewrite IH. assumption.
Qed.

Lemma deliver_connection_lost (evs : list SocketEvent) (c : SanctumClient) (s : Socket) :
  socket c = Some s -> error_listener s = false -> Forall connection_lost evs ->
  deliver evs c = (c, Normal tt) \/ exists e, deliver evs c = (c, Throw e).
Proof.
  intros Hs He Hall. induction Hall as [|ev evs Hev _ IH]; [left; reflexivity|].
  cbn [deliver]. destruct ev as [|chunk|e|]; try contradiction.
  - rewrite (error_event_unhandled c s e Hs He). right. exists e. reflexivity.
  - rewrite close_event_ignored. exact IH.
Qed.

Lemma await_with_session {A : Type} (state : SanctumClient -> option (Completion A))
    (c : SanctumClient) (w : World) :
  session_fields (snd (fst (await_with state c w))) = session_fields c.
Proof.
  unfold await_with. destruct w as [|batch w1]; [reflexivity|].
  pose proof (deliver_session batch c) as Hd.
  destruct (deliver batch c) as [c1 [[]| |]]; cbn [fst] in Hd;
    [destruct (state c1) as [[| |]|] |..]; exact Hd.
Qed.

(** *** What the events leave alone *)

(** The events of a socket leave where it connects and what was written
    on it as they are, and settle calls only as [onData] does. *)
Lemma emit_socket_trace (ev : SocketEvent) (c : SanctumClient) :
  socket_trace (fst (emit ev c)) = socket_trace c.
Proof.
  unfold socket_trace, emit.
  destruct (socket c) as [s|] eqn:Hs; [|cbn; rewrite Hs; reflexivity].
  destruct ev as [|chunk|e|].
  - destruct (connect_listener s); [reflexivity | cbn; rewrite Hs; reflexivity].
  - destruct (onData_session chunk c) as [_ ->]. rewrite Hs. reflexivity.
  - destruct (error_listener s); [reflexivity | cbn; rewrite Hs; reflexivity].
  - cbn. rewrite Hs. reflexivity.
Qed.

Lemma deliver_socket_trace (evs : list SocketEvent) (c : SanctumClient) :
  socket_trace (fst (deliver evs c)) = socket_trace c.
Proof.
  revert c. induction evs as [|ev evs IH]; intros c; [reflexivity|].
  cbn [deliver]. pose proof (emit_socket_trace ev c) as He.
  destruct (emit ev c) as [c1 [[]| |]]; cbn [fst] in *; [|assumption..].
  rewrite IH. assumption.
Qed.

Lemma await_with_socket_trace {A : Type} (state : SanctumClient -> option (Completion A))
    (c : SanctumClient) (w : World) :
  socket_trace (snd (fst (await_with state c w))) = socket_trace c.
Proof.
  unfold await_with. destruct w as [|batch w1]; [reflexivity|].
  pose proof (deliver_socket_trace batch c) as Hd.
  destruct (deliver batch c) as [c1 [[]| |]]; cbn [fst] in Hd;
    [destruct (state c1) as [[| |]|] |..]; exact Hd.
Qed.

Lemma emit_pending (ev : SocketEvent) (c : SanctumClient) :
  settles_only_pending c (fst (emit ev c)).
Proof.
  unfold emit. destruct (socket c) as [s|]; [|apply settles_only_pending_refl; reflexivity].
  destruct ev as [|chunk|e|].
  - destruct (connect_listener s); apply settles_only_pending_refl; reflexivity.
  - unfold onData. apply (onData_loop_pending _ (set_buffer (buffer c ++ chunk) c)).
  - destruct (error_listener s); apply settles_only_pending_refl; reflexivity.
  - apply settles_only_pending_refl; reflexivity.
Qed.

Lemma deliver_pending (evs : list SocketEvent) (c : SanctumClient) :
  settles_only_pending c (fst (deliver evs c)).
Proof.
  revert c. induction evs as [|ev evs IH]; intros c;
    [apply settles_only_pending_refl; reflexivity|].
  cbn [deliver]. pose proof (emit_pending ev c) as He.
  destruct (emit ev c) as [c1 [[]| |]]; cbn [fst] in *; [|assumption..].
  exact (settles_only_pending_trans _ _ _ He (IH c1)).
Qed.

Lemma await_with_pending {A : Type} (state : SanctumClient -> option (Completion A))
    (c : SanctumClient) (w : World) :
  settles_only_pending c (snd (fst (await_with state c w))).
Proof.
  unfold await_with. destruct w as [|batch w1];
    [apply settles_only_pending_refl; reflexivity|].
  pose proof (deliver_pending batch c) as Hd.
  destruct (deliver batch c) as [c1 [[]| |]]; cbn [fst] in Hd;
    [destruct (state c1) as [[| |]|] |..]; exact Hd.
Qed.

(** ** Calls *)

(** What [call] does to the session state: nothing but count the
    request and log the invocation. *)
Lemma call_session (method : string) (params : json) (c : SanctumClient) (w : World) :
  let c' := snd (fst (call method params c w)) in
  leases c' = leases c /\ sessionId c' = sessionId c
  /\ calls c' = calls c ++ [(method, params)].
Proof.
  unfold call. cbn zeta.
  destruct (socket (set_calls _ c)) as [s|]; [|repeat split; reflexivity].
  destruct (encodeFrame _) as [frame| |]; [|repeat split; reflexivity..].
  match goal with
  | |- context [await_with ?st ?c0 w] =>
      pose proof (await_with_session st c0 w) as H
  end.
  unfold session_fields in H. cbn in H. injection H as _ _ _ _ _ Hs _ Hl Hc.
  repeat split; assumption.
Qed.

Lemma on_response_settles (resp : RpcResponse.t) : on_response resp <> Unmodelled.
Proof.
  unfold on_response, raiseOnError.
  destruct (RpcResponse.error resp) as [[s|e]|]; cbn; try discriminate.
  destruct (default (ClassValue VaultError) (CODE_TO_ERROR_get _)); discriminate.
Qed.

(** The answer to the request in flight settles its promise: [call] on a
    connected client with an empty receive buffer, answered by one whole
    frame that carries the id of the request. *)
Lemma call_answered_state (method : string) (params : json) (c : SanctumClient)
    (s : Socket) (text : string) (payload : json) (w : World) :
  socket c = Some s -> buffer c = [] ->
  payload_size (request (reqId c + 1) method params) <= 4294967295 ->
  Buffer_length (Buffer_from text) <= 4294967295 ->
  JSON_parse text = Normal payload ->
  get payload "id" = Some (JNum (reqId c + 1)) ->
  exists c',
    call method params c ([EvData (whole_frame text)] :: w)
    = (outcome_of (as_RpcResponse (reqId c + 1) payload ≫= on_response), c', w)
    /\ (exists s', socket c' = Some s') /\ buffer c' = [] /\ reqId c' = reqId c + 1.
Proof.
  intros Hs Hb Hreq Hsz Hparse Hid. unfold call.
  change (socket (set_calls ?l c)) with (socket c). rewrite Hs.
  change (reqId (set_calls ?l c)) with (reqId c).
  rewrite encodeFrame_in_range by assumption.
  set (id := reqId c + 1) in *.
  match goal with |- context [await_with ?st ?c0 ?w0] => set (c3 := c0) end.
  assert (id ∈ pending c3) as Hin
    by (apply elem_of_union; left; apply elem_of_singleton; reflexivity).
  assert (exists s3, socket c3 = Some s3) as [s3 Hs3] by (eexists; reflexivity).
  assert (buffer c3 = []) as Hb3 by exact Hb.
  assert (reqId c3 = id) as Hr3 by reflexivity.
  unfold await_with. cbn [deliver]. unfold emit. rewrite Hs3.
  assert (dispatch payload (set_buffer [] c3)
          = (set_promises (<[id := as_RpcResponse id payload ≫= on_response]>
                             (promises (set_pending (pending c3 ∖ {[id]}) (set_buffer [] c3))))
               (set_pending (pending c3 ∖ {[id]}) (set_buffer [] c3)), Normal tt)) as Hd.
  { unfold dispatch. destruct payload; try discriminate. cbn [get] in *. rewrite Hid.
    change (pending (set_buffer [] c3)) with (pending c3).
    destruct (decide (id ∈ pending c3)); [reflexivity | contradiction]. }
  rewrite (onData_whole_frame text payload c3) by (try assumption; rewrite Hd; reflexivity).
  clearbody c3. rewrite Hd. cbn [fst].
  change (promises (set_promises ?m ?c0)) with m.
  rewrite lookup_insert_eq.
  destruct (as_RpcResponse id payload ≫= on_response);
    (eexists; split; [reflexivity|]; cbn;
     split; [exists s3; exact Hs3|]; split; [reflexivity | exact Hr3]).
Qed.

Lemma call_answered (method : string) (params : json) (c : SanctumClient) (s : Socket)
    (text : string) (payload : json) (w : World) :
  socket c = Some s -> buffer c = [] ->
  payload_size (request (reqId c + 1) method params) <= 4294967295 ->
  Buffer_length (Buffer_from text) <= 4294967295 ->
  JSON_parse text = Normal payload ->
  get payload "id" = Some (JNum (reqId c + 1)) ->
  fst (fst (call method params c ([EvData (whole_frame text)] :: w)))
  = outcome_of (as_RpcResponse (reqId c + 1) payload ≫= on_response).
Proof.
  intros Hs Hb Hreq Hsz Hparse Hid.
  destruct (call_answered_state method params c s text payload w Hs Hb Hreq Hsz Hparse Hid)
    as (c' & Hcall & _).
  rewrite Hcall. reflexivity.
Qed.

(** After [rawConnect] has succeeded, whatever ["close"] and ["error"]
    events follow a request, its caller is not failed: the call is left
    suspended, or the error is thrown past it. *)
Lemma call_not_failed_by_lost_connection (method : string) (params : json)
    (c : SanctumClient) (s : Socket) (evs : list SocketEvent) (w : World) :
  socket c = Some s -> error_listener s = false -> Forall connection_lost evs ->
  payload_size (request (reqId c + 1) method params) <= 4294967295 ->
  fst (fst (call method params c (evs :: w))) = Suspended
  \/ exists e, fst (fst (call method params c (evs :: w))) = Uncaught e.
Proof.
  intros Hs He Hall Hreq. unfold call.
  change (socket (set_calls ?l c)) with (socket c). rewrite Hs.
  change (reqId (set_calls ?l c)) with (reqId c).
  rewrite encodeFrame_in_range by assumption.
  match goal with |- context [await_with ?st ?c0 ?w0] => set (c3 := c0) end.
  assert (promises c3 !! (reqId c + 1) = None) as Hp by apply lookup_delete_eq.
  assert (exists s3, socket c3 = Some s3 /\ error_listener s3 = false) as (s3 & Hs3 & He3)
    by (eexists; split; [reflexivity | exact He]).
  clearbody c3. unfold await_with.
  destruct (deliver_connection_lost evs c3 s3 Hs3 He3 Hall) as [Hd|[e Hd]]; rewrite Hd.
  - rewrite Hp. left. reflexivity.
  - right. exists e. reflexivity.
Qed.

(** C1: the sample client is connected and authenticated, [list()] is
    in flight as request 3, and the socket closes.  The caller is left
    suspended: request 3 stays in [pending] and its promise unsettled.
    When the socket reports an error first, the error reaches no listener
    and is thrown by the emitter, and the promise is unsettled as well. *)
Theorem C1_inflight_call_left_pending :
  let closed := list_ connected_client [[EvClose]] in
  let failed := list_ connected_client [[EvError (ThrowSystemError "ECONNRESET"); EvClose]] in
  fst (fst closed) = Suspended
  /\ elements (pending (snd (fst closed))) = [3]
  /\ promises (snd (fst closed)) !! 3 = None
  /\ fst (fst failed) = Uncaught (ThrowSystemError "ECONNRESET")
  /\ elements (pending (snd (fst failed))) = [3]
  /\ promises (snd (fst failed)) !! 3 = None.
Proof. vm_compute. repeat split; reflexivity. Qed.

Lemma padded_answer_length (n : nat) :
  Buffer_length (Buffer_from (padded_answer n)) = 20 + Z.of_nat n.
Proof.
  unfold padded_answer. rewrite Buffer_length_from, String_length_append, string_repeat_length.
  change (String.length (JSON_stringify _)) with 20%nat. lia.
Qed.

Lemma parse_value_answer (t : string) (f : nat) :
  parse_value (S (S (S (S (S (S f))))))
    (JSON_stringify (JObj [("id", JNum 3); ("result", JObj [])]) +:+ t)
  = Parsed (JObj [("id", JNum 3); ("result", JObj [])]) t.
Proof. reflexivity. Qed.

Lemma padded_answer_parse (n : nat) :
  JSON_parse (padded_answer n) = Normal (JObj [("id", JNum 3); ("result", JObj [])]).
Proof.
  unfold JSON_parse, parse_text, parse_fuel, padded_answer.
  rewrite String_length_append.
  change (String.length (JSON_stringify _)) with 20%nat.
  cbn [Nat.add Nat.mul].
  rewrite parse_value_answer, skip_ws_spaces. reflexivity.
Qed.

(** C2: on the receive path a frame that declares 4 MiB + 1 bytes is not
    rejected: [onData] parses it and resolves the [list()] in flight with
    its content, while [decodeFrame] refuses the same bytes; and a prefix
    that declares 2^32 - 1 bytes makes [onData] wait for them without an
    error. *)
Theorem C2_oversize_frame_dispatched :
  Buffer_length (Buffer_from oversize_answer) = MAX_MESSAGE_SIZE + 1
  /\ fst (fst (list_ connected_client [[EvData (whole_frame oversize_answer)]]))
     = Fulfilled (JArr [])
  /\ decodeFrame (whole_frame oversize_answer) = Throw (internal_error "Response too large")
  /\ onData [xff; xff; xff; xff] connected_client
     = (set_buffer [xff; xff; xff; xff] connected_client, Normal tt).
Proof.
  assert (Buffer_length (Buffer_from oversize_answer) = MAX_MESSAGE_SIZE + 1) as Hlen.
  { unfold oversize_answer. rewrite padded_answer_length, Z2Nat.id by discriminate.
    reflexivity. }
  split; [exact Hlen|]. split; [|split].
  - assert (exists s, socket connected_client = Some s) as [s Hs]
      by (vm_compute; eexists; reflexivity).
    pose proof (call_answered "list"
                  (JObj [("session_id", session_json (sessionId connected_client))])
                  connected_client s oversize_answer
                  (JObj [("id", JNum 3); ("result", JObj [])]) [] Hs) as H.
    unfold list_, async_bind, read.
    destruct (call "list" _ connected_client _) as [[o c'] w'].
    cbn [fst] in H. rewrite H.
    + vm_compute. reflexivity.
    + vm_compute. reflexivity.
    + vm_compute. discriminate.
    + rewrite Hlen. vm_compute. discriminate.
    + apply padded_answer_parse.
    + vm_compute. reflexivity.
  - apply decodeFrame_whole_too_large. rewrite Hlen. unfold MAX_MESSAGE_SIZE. lia.
  - vm_compute. reflexivity.
Qed.

(** *** Requests and their answers *)

(** The request of a call on a connected client, when it can be framed. *)
Lemma call_connected (method : string) (params : json) (c : SanctumClient) (s : Socket)
    (w : World) :
  socket c = Some s ->
  payload_size (request (reqId c + 1) method params) <= 4294967295 ->
  call method params c w
  = await_with (fun c' => promises c' !! (reqId c + 1))
      (set_socket
         (Some (socket_write
                  (uint32_bytes (payload_size (request (reqId c + 1) method params))
                   ++ Buffer_from (JSON_stringify (request (reqId c + 1) method params))) s))
         (set_pending ({[reqId c + 1]} ∪ pending c)
            (set_promises (delete (reqId c + 1) (promises c))
               (set_reqId (reqId c + 1) (set_calls (calls c ++ [(method, params)]) c))))) w.
Proof.
  intros Hs Hsz. unfold call.
  change (socket (set_calls ?l c)) with (socket c). rewrite Hs.
  change (reqId (set_calls ?l c)) with (reqId c).
  rewrite encodeFrame_in_range by assumption. reflexivity.
Qed.

(** A call on a client without a socket fails at once: nothing is sent,
    no id is used, and no event is awaited. *)
Lemma call_not_connected (method : string) (params : json) (c : SanctumClient) (w : World) :
  socket c = None ->
  call method params c w
  = (Rejected (internal_error "Not connected"),
     set_calls (calls c ++ [(method, params)]) c, w).
Proof.
  intros Hs. unfold call. change (socket (set_calls ?l c)) with (socket c).
  rewrite Hs. reflexivity.
Qed.





(** X14: Request ids are fresh.  While the counter is below 2^53, where [++]
    is exact, and no pending id is above it, the id [call] takes is the
    next integer and is not the id of a call in flight; afterwards no
    pending id is above the counter again, and the only id [call] has
    added to [pending] is its own. *)
Theorem call_uses_fresh_id (method : string) (params : json) (c : SanctumClient)
    (w : World) :
  reqId c < 2 ^ 53 ->
  (forall id, id ∈ pending c -> id <= reqId c) ->
  (reqId c + 1 ∉ pending c)
  /\ (socket c <> None -> reqId (snd (fst (call method params c w))) = reqId c + 1)
  /\ (forall id, id ∈ pending (snd (fst (call method params c w))) ->
        id <= reqId (snd (fst (call method params c w))))
  /\ (forall id, id ∈ pending (snd (fst (call method params c w))) ->
        id ∈ pending c \/ id = reqId c + 1).
Proof.
  intros _ Hbelow.
  split; [intros Hin; apply Hbelow in Hin; lia|].
  unfold call. change (socket (set_calls ?l c)) with (socket c).
  change (reqId (set_calls ?l c)) with (reqId c).
  destruct (socket c) as [s|];
    [|split; [intros H; contradiction|]; split;
      [exact Hbelow | intros id Hid; left; exact Hid]].
  destruct (encodeFrame _) as [frame| |].
  - match goal with |- context [await_with ?st ?c0 w] => set (state := st); set (c3 := c0) end.
    destruct (await_with_pending state c3 w) as (Hsub & _ & _).
    pose proof (await_with_session state c3 w) as Hsess.
    unfold session_fields in Hsess. injection Hsess as _ _ _ _ _ _ Hreq _ _.
    change (reqId c3) with (reqId c + 1) in Hreq.
    assert (forall id, id ∈ pending (snd (fst (await_with state c3 w))) ->
              id ∈ pending c \/ id = reqId c + 1) as Hnew.
    { intros id Hid. apply Hsub in Hid. change (pending c3) with ({[reqId c + 1]} ∪ pending c) in Hid.
      apply elem_of_union in Hid as [Hid|Hid]; [right; apply elem_of_singleton in Hid; exact Hid | left; exact Hid]. }
    split; [intros _; exact Hreq|]. split; [|exact Hnew].
    intros id Hid. rewrite Hreq. destruct (Hnew id Hid) as [Hold| ->]; [|lia].
    apply Hbelow in Hold. lia.
  - cbn. split; [reflexivity|]. split; [|intros id Hid; left; exact Hid].
    intros id Hid. apply Hbelow in Hid. lia.
  - cbn. split; [reflexivity|]. split; [|intros id Hid; left; exact Hid].
    intros id Hid. apply Hbelow in Hid. lia.
Qed.

Lemma call_uses_fresh_id_witness :
  (reqId two_in_flight + 1 ∉ pending two_in_flight)
  /\ reqId (snd (fst (call "list" (JObj []) two_in_flight []))) = reqId two_in_flight + 1.
Proof.
  destruct (call_uses_fresh_id "list" (JObj []) two_in_flight []) as (H1 & H2 & _).
  - vm_compute. reflexivity.
  - intros id Hid. change (reqId two_in_flight) with 4.
    change (pending two_in_flight) with ({[3; 4]} : gset Z) in Hid.
    apply elem_of_union in Hid as [Hid|Hid]; apply elem_of_singleton in Hid; lia.
  - split; [exact H1|]. apply H2. vm_compute. discriminate.
Defined.

(** X15: The frame [call] writes on the socket is the frame of its request:
    for a method name in ASCII and parameters of the JSON fragment,
    within the size [decodeFrame] accepts, the bytes appended to what
    was written decode to [{ id, method, params }], with the next id, and
    nothing is left over. *)
Theorem call_writes_request_frame (method : string) (params : json) (c : SanctumClient)
    (s : Socket) (w : World) :
  socket c = Some s ->
  ascii_only method = true -> in_fragment params ->
  0 <= reqId c < 2 ^ 53 ->
  payload_size (request (reqId c + 1) method params) <= MAX_MESSAGE_SIZE ->
  exists (s' : Socket) (frame : Buffer),
    socket (snd (fst (call method params c w))) = Some s'
    /\ written s' = written s ++ [frame]
    /\ decodeFrame frame = Normal (request (reqId c + 1) method params, []).
Proof.
  intros Hs Hm Hp Hid Hsz.
  rewrite (call_connected method params c s w Hs)
    by (unfold MAX_MESSAGE_SIZE in Hsz; lia).
  set (frame := uint32_bytes _ ++ _).
  match goal with |- context [await_with ?st ?c0 w] => set (state := st); set (c3 := c0) end.
  pose proof (await_with_socket_trace state c3 w) as Hw. unfold socket_trace in Hw.
  change (socket c3) with (Some (socket_write frame s)) in Hw.
  destruct (socket (snd (fst (await_with state c3 w)))) as [s'|]; [|discriminate].
  cbn [option_map] in Hw.
  exists s', frame. split; [reflexivity|]. split; [|].
  { apply (inj Some) in Hw. apply (f_equal snd) in Hw. exact Hw. }
  pose proof (decodeFrame_encodeFrame (request (reqId c + 1) method params) []) as Hd.
  rewrite app_nil_r in Hd. apply Hd; [|exact Hsz].
  apply fragment_serializable. cbn. repeat split; try assumption.
  change (2 ^ 53) with 9007199254740992 in *. lia.
Qed.

Lemma call_writes_request_frame_witness :
  exists (s' : Socket) (frame : Buffer),
    socket (snd (fst (call "list" (JObj [("session_id", JStr "s1")]) connected_client [])))
    = Some s'
    /\ written s'
       = default [] (option_map written (socket connected_client)) ++ [frame]
    /\ decodeFrame frame
       = Normal (request (reqId connected_client + 1) "list"
                   (JObj [("session_id", JStr "s1")]), []).
Proof.
  assert (exists s, socket connected_client = Some s) as [s Hs]
    by (vm_compute; eexists; reflexivity).
  rewrite Hs. cbn [option_map default].
  apply (call_writes_request_frame "list" (JObj [("session_id", JStr "s1")])
           connected_client s [] Hs).
  - reflexivity.
  - cbn. repeat split; reflexivity.
  - vm_compute. split; [discriminate | reflexivity].
  - vm_compute. discriminate.
Defined.

(** ** The handshake and the connection target *)

(** C3 (amended): when the first answer carries the session id [sid] and
    the second answer arrives, [authenticate] is fulfilled if
    [authenticated] is true and fails with [AuthError] if it is false; in
    both cases [sid] was stored as the client's session id when the first
    answer arrived, is the session id the [challenge_response] request
    carries, and stays stored afterwards. *)
Theorem C3_handshake_outcome
    (P : Platform) (agent : string) (kp : option string)
    (c : SanctumClient) (w : World) (keys : KeyPair)
    (r1 : json) (c1 : SanctumClient) (w1 : World) (sid challenge : string)
    (r2 : json) (c2 : SanctumClient) (w2 : World) :
  loadKey P agent kp = Normal keys ->
  call "authenticate" (JObj [("agent_name", JStr agent)]) c w = (Fulfilled r1, c1, w1) ->
  get r1 "session_id" = Some (JStr sid) ->
  get r1 "challenge" = Some (JStr challenge) ->
  call "challenge_response"
    (challenge_response_params (Some sid)
       (nacl_sign_detached P (hex_decode challenge) (secretKey keys)))
    (set_sessionId (Some sid) c1) w1 = (Fulfilled r2, c2, w2) ->
  authenticate P agent kp c w
  = (if truthy (get r2 "authenticated") then Fulfilled tt else Rejected not_confirmed,
     c2, w2)
  /\ sessionId c2 = Some sid.
Proof.
  intros Hkey Hc1 Hsid Hch Hc2.
  split.
  - unfold authenticate, async_bind, of_completion, update, read.
    rewrite Hkey, Hc1, Hsid. cbn [required_string]. rewrite Hch. cbn [Buffer_from_hex].
    change (sessionId (set_sessionId (Some sid) c1)) with (Some sid).
    rewrite Hc2. destruct (truthy (get r2 "authenticated")); reflexivity.
  - pose proof (call_session "challenge_response"
                  (challenge_response_params (Some sid)
                     (nacl_sign_detached P (hex_decode challenge) (secretKey keys)))
                  (set_sessionId (Some sid) c1) w1) as (_ & Hs & _).
    rewrite Hc2 in Hs. exact Hs.
Qed.

Lemma C3_handshake_outcome_witness :
  let run := authenticate sample_platform "my-agent" None raw_connected_client
               (drop 1 (handshake false)) in
  fst (fst run) = Rejected not_confirmed /\ sessionId (snd (fst run)) = Some "s1".
Proof.
  intros run.
  edestruct (C3_handshake_outcome sample_platform "my-agent" None raw_connected_client
               (drop 1 (handshake false))) as [Hrun Hsid].
  - vm_compute. reflexivity.
  - vm_compute. reflexivity.
  - vm_compute. reflexivity.
  - vm_compute. reflexivity.
  - vm_compute. reflexivity.
  - subst run. rewrite Hrun. split; [reflexivity | exact Hsid].
Defined.

(** C3 as stated fails: the daemon answers [authenticated: false],
    [connect] fails with [AuthError], and the session id ["s1"] of the first
    answer is the client's session id all the same; the next [list()] sends
    it. *)
Lemma C3_session_kept_after_refusal :
  let run := connect sample_platform None sample_client (handshake false) in
  fst (fst run) = Rejected not_confirmed
  /\ sessionId (snd (fst run)) = Some "s1"
  /\ last (calls (snd (fst (list_ (snd (fst run)) []))))
     = Some ("list", JObj [("session_id", JStr "s1")]).
Proof. vm_compute. repeat split; reflexivity. Qed.

(** C4 (amended): a client given both a socket path and a usable
    host/port does not fail to connect on that account: [rawConnect] opens
    a TCP connection to the host and port and ignores the socket path, and
    once the connection is accepted [connect] goes on to the handshake. *)
Theorem C4_host_port_wins
    (P : Platform) (c : SanctumClient) (w : World) (p h : string) (n : Z) :
  socketPath c = Some p -> host c = Some h -> port c = Some n ->
  h <> EmptyString -> 0 < n <= 65535 ->
  connect_options P c = TcpOptions h n
  /\ exists c',
       rawConnect P c ([EvConnect] :: w) = (Fulfilled tt, c', w)
       /\ option_map options (socket c') = Some (TcpOptions h n)
       /\ connect P None c ([EvConnect] :: w)
          = authenticate P (agentName c) (keyPath c) c' w.
Proof.
  intros Hp Hh Hn Hne Hrange.
  assert (connect_options P c = TcpOptions h n) as Ho.
  { unfold connect_options. rewrite Hh, Hn.
    destruct h as [|a h]; [contradiction|]. cbn.
    destruct (Z.eqb_spec n 0); [lia | reflexivity]. }
  split; [exact Ho|].
  assert (createConnection (TcpOptions h n)
          = Normal {| options := TcpOptions h n; error_listener := false;
                      connect_listener := false; connected := None; written := [] |})
    as Hc.
  { unfold createConnection.
    destruct (Z.leb_spec 0 n); [|lia]. destruct (Z.leb_spec n 65535); [|lia]. reflexivity. }
  eexists. split; [|split].
  - unfold rawConnect. rewrite Ho, Hc. reflexivity.
  - reflexivity.
  - unfold connect, async_bind, update, read, set_target.
    unfold rawConnect. rewrite Ho, Hc. reflexivity.
Qed.

Lemma C4_host_port_wins_witness :
  connect_options sample_platform sample_client = TcpOptions "127.0.0.1" 8200
  /\ exists c',
       rawConnect sample_platform sample_client ([EvConnect] :: drop 1 (handshake true))
       = (Fulfilled tt, c', drop 1 (handshake true))
       /\ option_map options (socket c') = Some (TcpOptions "127.0.0.1" 8200)
       /\ connect sample_platform None sample_client ([EvConnect] :: drop 1 (handshake true))
          = authenticate sample_platform (agentName sample_client) (keyPath sample_client)
              c' (drop 1 (handshake true)).
Proof.
  apply (C4_host_port_wins sample_platform sample_client (drop 1 (handshake true))
           "/tmp/vault.sock" "127.0.0.1" 8200).
  - reflexivity.
  - reflexivity.
  - reflexivity.
  - discriminate.
  - lia.
Defined.

(** C4 as stated fails: the sample client was given a socket path and a
    host and port, and [connect] is fulfilled, over TCP. *)
Lemma C4_conflicting_targets_connect :
  socketPath sample_client = Some "/tmp/vault.sock"
  /\ host sample_client = Some "127.0.0.1" /\ port sample_client = Some 8200
  /\ fst (fst (connect sample_platform None sample_client (handshake true))) = Fulfilled tt
  /\ option_map options (socket connected_client) = Some (TcpOptions "127.0.0.1" 8200).
Proof. vm_compute. repeat split; reflexivity. Qed.

(** *** Where the socket goes, and connections that fail *)

Lemma socket_trace_options (c c' : SanctumClient) :
  socket_trace c' = socket_trace c ->
  option_map options (socket c') = option_map options (socket c).
Proof.
  unfold socket_trace. destruct (socket c'), (socket c); cbn; congruence.
Qed.

Lemma keeps_options_bind {A B : Type} (m : Async A) (f : A -> Async B) :
  keeps_options m -> (forall a, keeps_options (f a)) -> keeps_options (async_bind m f).
Proof.
  intros Hm Hf c w. unfold async_bind. specialize (Hm c w).
  destruct (m c w) as [[[a|e| |e|] c1] w1]; cbn [fst snd] in *; try assumption.
  rewrite (Hf a c1 w1). assumption.
Qed.

Lemma keeps_options_of_completion {A : Type} (r : Completion A) :
  keeps_options (of_completion r).
Proof. intros c w. destruct r; reflexivity. Qed.

Lemma keeps_options_call (method : string) (params : json) :
  keeps_options (call method params).
Proof.
  intros c w. unfold call. change (socket (set_calls ?l c)) with (socket c).
  destruct (socket c) as [s|] eqn:Hs; [|cbn; rewrite Hs; reflexivity].
  destruct (encodeFrame _) as [frame| |]; [|cbn; rewrite Hs; reflexivity..].
  match goal with |- context [await_with ?st ?c0 w] =>
    rewrite (socket_trace_options _ _ (await_with_socket_trace st c0 w)) end.
  reflexivity.
Qed.

Lemma keeps_options_authenticate (P : Platform) (agent : string) (kp : option string) :
  keeps_options (authenticate P agent kp).
Proof.
  unfold authenticate.
  repeat first
    [ apply keeps_options_bind; [|intros ?]
    | apply keeps_options_of_completion
    | apply keeps_options_call
    | (intros ? ?; reflexivity)
    | match goal with |- keeps_options (if ?b then _ else _) => destruct b end ].
Qed.

(** [connect] is [rawConnect] on the client with its target set, and
    then [authenticate]. *)
Lemma connect_unfold (P : Platform) (target : option ConnectionTarget) (c : SanctumClient)
    (w : World) :
  connect P target c w
  = match rawConnect P (set_target target c) w with
    | (Fulfilled _, c1, w1) => authenticate P (agentName c1) (keyPath c1) c1 w1
    | (Rejected e, c1, w1) => (Rejected e, c1, w1)
    | (Suspended, c1, w1) => (Suspended, c1, w1)
    | (Uncaught e, c1, w1) => (Uncaught e, c1, w1)
    | (OffModel, c1, w1) => (OffModel, c1, w1)
    end.
Proof.
  unfold connect, async_bind, update, read.
  destruct (rawConnect P (set_target target c) w) as [[[[]|e| |e|] c1] w1]; reflexivity.
Qed.

Lemma rawConnect_options (P : Platform) (c : SanctumClient) (w : World) (s0 : Socket) :
  createConnection (connect_options P c) = Normal s0 ->
  option_map options (socket (snd (fst (rawConnect P c w)))) = Some (connect_options P c).
Proof.
  intros Hc. unfold rawConnect. rewrite Hc.
  match goal with |- context [await_with ?st ?c0 w] =>
    rewrite (socket_trace_options _ _ (await_with_socket_trace st c0 w)) end.
  cbn. f_equal. unfold createConnection in Hc.
  destruct (connect_options P c) as [h n|p];
    [destruct ((0 <=? n) && (n <=? 65535)); [|discriminate]|];
    injection Hc as <-; reflexivity.
Qed.

Lemma connect_options_socket (P : Platform) (target : option ConnectionTarget)
    (c : SanctumClient) (w : World) (s0 : Socket) :
  createConnection (connect_options P (set_target target c)) = Normal s0 ->
  option_map options (socket (snd (fst (connect P target c w))))
  = Some (connect_options P (set_target target c)).
Proof.
  intros Hc. rewrite connect_unfold.
  pose proof (rawConnect_options P (set_target target c) w s0 Hc) as Hr.
  destruct (rawConnect P (set_target target c) w) as [[[[]|e| |e|] c1] w1];
    cbn [fst snd] in *; try exact Hr.
  rewrite keeps_options_authenticate. exact Hr.
Qed.

(** X8: The target given to [connect] decides what [net.createConnection]
    is called with, whatever the constructor was told and however the
    connection and the handshake end: a path is passed on, with a leading
    [~] expanded; a non-empty host with a valid port is passed on as they
    are; and a target with an empty host or with port 0 is not an error
    but leads to the default socket path. *)
Theorem connect_target_decides (P : Platform) (c : SanctumClient) (w : World) :
  (forall p,
      option_map options (socket (snd (fst (connect P (Some (TargetPath p)) c w))))
      = Some (IpcOptions (expandHome P p)))
  /\ (forall h n, h <> EmptyString -> 0 < n <= 65535 ->
        option_map options (socket (snd (fst (connect P (Some (TargetHostPort h n)) c w))))
        = Some (TcpOptions h n))
  /\ (forall h n, h = EmptyString \/ n = 0 ->
        option_map options (socket (snd (fst (connect P (Some (TargetHostPort h n)) c w))))
        = Some (IpcOptions (expandHome P DEFAULT_SOCKET))).
Proof.
  split; [|split].
  - intros p. erewrite connect_options_socket.
    + unfold connect_options. cbn. destruct (port c); reflexivity.
    + unfold connect_options. cbn. destruct (port c); reflexivity.
  - intros h n Hh Hn.
    assert (connect_options P (set_target (Some (TargetHostPort h n)) c) = TcpOptions h n)
      as Ho.
    { unfold connect_options. cbn. destruct h as [|a h]; [contradiction|]. cbn.
      destruct (Z.eqb_spec n 0); [lia | reflexivity]. }
    erewrite connect_options_socket; rewrite Ho; [reflexivity|].
    unfold createConnection.
    destruct (Z.leb_spec 0 n); [|lia]. destruct (Z.leb_spec n 65535); [|lia]. reflexivity.
  - intros h n Hfalsy.
    assert (connect_options P (set_target (Some (TargetHostPort h n)) c)
            = IpcOptions (expandHome P DEFAULT_SOCKET)) as Ho.
    { unfold connect_options. cbn. destruct Hfalsy as [-> | ->]; [reflexivity|].
      destruct h; reflexivity. }
    erewrite connect_options_socket; rewrite Ho; reflexivity.
Qed.

(** While the listeners of [rawConnect] are attached and its promise is
    settled, ["error"] and ["close"] events change nothing. *)
Lemma deliver_after_settled (evs : list SocketEvent) (c : SanctumClient) (s : Socket)
    (r : Completion unit) :
  socket c = Some s -> error_listener s = true -> connected s = Some r ->
  Forall connection_lost evs ->
  deliver evs c = (c, Normal tt).
Proof.
  intros Hs He Hc Hall. induction Hall as [|ev evs Hev _ IH]; [reflexivity|].
  cbn [deliver]. destruct ev as [|chunk|e|]; try contradiction.
  - unfold emit. rewrite Hs, He.
    replace (set_socket (Some (settle_connect (Throw e) s)) c) with c; [exact IH|].
    unfold settle_connect. rewrite Hc. destruct c, s. cbn in *. subst. reflexivity.
  - rewrite close_event_ignored. exact IH.
Qed.

(** X9: A connection that fails is reported to the caller of [connect]: when
    the socket emits ["error"] before ["connect"], [connect] is rejected
    with that error, no key is read and no request is made; the client
    keeps the socket that failed. *)
Theorem connect_rejected_by_socket_error (P : Platform) (target : option ConnectionTarget)
    (c : SanctumClient) (e : Thrown) (evs : list SocketEvent) (w : World) :
  (forall n, port (set_target target c) = Some n -> 0 <= n <= 65535) ->
  Forall connection_lost evs ->
  exists c',
    connect P target c ((EvError e :: evs) :: w) = (Rejected e, c', w)
    /\ calls c' = calls c /\ sessionId c' = sessionId c
    /\ option_map options (socket c') = Some (connect_options P (set_target target c)).
Proof.
  intros Hport Hall. rewrite connect_unfold. unfold rawConnect.
  set (c0 := set_target target c).
  assert (exists s0, createConnection (connect_options P c0) = Normal s0
                     /\ options s0 = connect_options P c0
                     /\ connected s0 = None) as (s0 & Hcreate & Hopt & Hconn).
  { unfold createConnection, connect_options.
    destruct (host c0) as [h|]; [|eexists; repeat split].
    destruct (port c0) as [n|] eqn:Hn; [|eexists; repeat split].
    destruct (truthy_string (Some h) && truthy_number (Some n)); [|eexists; repeat split].
    specialize (Hport n Hn).
    destruct (Z.leb_spec 0 n); [|lia]. destruct (Z.leb_spec n 65535); [|lia].
    eexists; repeat split. }
  rewrite Hcreate. unfold await_with. cbn [deliver]. unfold emit at 1.
  cbn [socket set_socket attach_listeners error_listener].
  match goal with |- context [deliver evs ?c1] => set (c1' := c1) end.
  rewrite (deliver_after_settled evs c1' _ (Throw e) eq_refl eq_refl); [|cbn; rewrite Hconn; reflexivity|exact Hall].
  cbn. rewrite Hconn. cbn. eexists. split; [reflexivity|]. cbn.
  split; [destruct target as [[p|h n]|]; reflexivity|].
  split; [destruct target as [[p|h n]|]; reflexivity|].
  rewrite Hopt. reflexivity.
Qed.

Lemma connect_rejected_by_socket_error_witness :
  exists c',
    connect sample_platform None sample_client
      ((EvError (ThrowSystemError "ECONNREFUSED") :: [EvClose]) :: [])
    = (Rejected (ThrowSystemError "ECONNREFUSED"), c', [])
    /\ calls c' = calls sample_client /\ sessionId c' = sessionId sample_client
    /\ option_map options (socket c')
       = Some (connect_options sample_platform (set_target None sample_client)).
Proof.
  apply (connect_rejected_by_socket_error sample_platform None sample_client
           (ThrowSystemError "ECONNREFUSED") [EvClose] []).
  - intros n [= <-]. lia.
  - repeat constructor.
Defined.

(** *** The key file and the two calls of the handshake *)

Lemma hexval_hexdigit (d : N) : (d < 16)%N -> hexval (hexdigit d) = Some d.
Proof.
  intros Hd. rewrite <- (N2Nat.id d). assert (N.to_nat d < 16)%nat as Hn by lia.
  generalize dependent (N.to_nat d). intros n Hn.
  do 16 (destruct n as [|n]; [reflexivity|]). lia.
Qed.

(** [Buffer.from(buf.toString("hex"), "hex")] is [buf]. *)
Lemma hex_decode_encode (b : Buffer) : hex_decode (hex_encode b) = b.
Proof.
  induction b as [|x r IH]; [reflexivity|].
  cbn [hex_encode hex_decode].
  pose proof (Byte.to_N_bounded x) as Hx.
  assert (Byte.to_N x / 16 < 16)%N as Hh by (apply N.Div0.div_lt_upper_bound; lia).
  assert (Byte.to_N x mod 16 < 16)%N as Hl by (apply N.mod_lt; lia).
  rewrite (hexval_hexdigit _ Hh), (hexval_hexdigit _ Hl), IH. f_equal.
  replace (Byte.to_N x / 16 * 16 + Byte.to_N x mod 16)%N with (Byte.to_N x)
    by (rewrite (N.div_mod (Byte.to_N x) 16) at 1; lia).
  apply byte_of_Z_of_byte.
Qed.

(** X19: [loadKey] takes the key file for the hex text of the seed.  When the
    file, trimmed, is the hex text of [seed], the key pair is the one
    derived from [seed] if [seed] has 32 bytes, and otherwise [loadKey]
    throws an [AuthError], with the code [AUTH_FAILED], that states the
    number of bytes found.  The file is [keyPath] when one is given and
    [~/.sanctum/keys/<agent>.key] otherwise, with a leading [~] expanded. *)
Theorem loadKey_checks_the_seed (P : Platform) (agent : string) (keyPath : option string)
    (text : string) (seed : Buffer) :
  fs_readFileSync P (key_file P agent keyPath) = Normal text ->
  String_trim P text = hex_encode seed ->
  loadKey P agent keyPath
  = (if decide (length seed = 32%nat)
     then Normal (nacl_sign_keyPair_fromSeed P seed)
     else Throw (ThrowError
            {| cls := AuthError; name := "AuthError";
               message := "Key file has " +:+ number_to_string (Z.of_nat (length seed))
                          +:+ " bytes, expected 32";
               code := "AUTH_FAILED"; detail := None; suggestion := None;
               docsUrl := None; context := JObj [] |})).
Proof.
  intros Hread Htrim. unfold loadKey. fold (key_file P agent keyPath).
  rewrite Hread. cbn [mbind Completion_bind]. rewrite Htrim, hex_decode_encode.
  unfold Buffer_length.
  destruct (decide (Z.of_nat (length seed) = 32)) as [H32|H32];
    destruct (decide (length seed = 32%nat)) as [Hn|Hn]; try lia; reflexivity.
Qed.

Lemma loadKey_checks_the_seed_witness :
  loadKey sample_platform "my-agent" None
  = (if decide (length (hex_decode "000102030405060708090a0b0c0d0e0f101112131415161718191a1b1c1d1e1f") = 32%nat)
     then Normal (nacl_sign_keyPair_fromSeed sample_platform
                    (hex_decode "000102030405060708090a0b0c0d0e0f101112131415161718191a1b1c1d1e1f"))
     else Throw (ThrowError
            {| cls := AuthError; name := "AuthError";
               message := "Key file has "
                          +:+ number_to_string
                                (Z.of_nat (length (hex_decode "000102030405060708090a0b0c0d0e0f101112131415161718191a1b1c1d1e1f")))
                          +:+ " bytes, expected 32";
               code := "AUTH_FAILED"; detail := None; suggestion := None;
               docsUrl := None; context := JObj [] |})).
Proof.
  apply (loadKey_checks_the_seed sample_platform "my-agent" None
           ("000102030405060708090a0b0c0d0e0f101112131415161718191a1b1c1d1e1f"
            +:+ String "010" EmptyString)).
  - reflexivity.
  - vm_compute. reflexivity.
Defined.

(** X20: When the key cannot be loaded, [connect] has opened the connection
    all the same: it is rejected with the error of [loadKey], no request
    is made, and the socket is left open. *)
Theorem connect_without_key (P : Platform) (target : option ConnectionTarget)
    (c : SanctumClient) (e : Thrown) (w : World) :
  (forall n, port (set_target target c) = Some n -> 0 <= n <= 65535) ->
  loadKey P (agentName c) (keyPath c) = Throw e ->
  exists (c' : SanctumClient) (s : Socket),
    connect P target c ([EvConnect] :: w) = (Rejected e, c', w)
    /\ socket c' = Some s /\ connected s = Some (Normal tt)
    /\ calls c' = calls c /\ reqId c' = reqId c.
Proof.
  intros Hport Hkey. rewrite connect_unfold. unfold rawConnect.
  set (c0 := set_target target c).
  assert (agentName c0 = agentName c /\ keyPath c0 = keyPath c /\ calls c0 = calls c
          /\ reqId c0 = reqId c) as (Ha & Hk & Hcalls & Hreq)
    by (unfold c0; destruct target as [[p|h n]|]; repeat split; reflexivity).
  assert (exists o, createConnection (connect_options P c0)
                    = Normal {| options := o; error_listener := false;
                                connect_listener := false; connected := None;
                                written := [] |}) as (o & Hcreate).
  { unfold createConnection, connect_options.
    destruct (host c0) as [h|]; [|eexists; reflexivity].
    destruct (port c0) as [n|] eqn:Hn; [|eexists; reflexivity].
    destruct (truthy_string (Some h) && truthy_number (Some n)); [|eexists; reflexivity].
    specialize (Hport n Hn).
    destruct (Z.leb_spec 0 n); [|lia]. destruct (Z.leb_spec n 65535); [|lia].
    eexists; reflexivity. }
  rewrite Hcreate. cbn. unfold authenticate, async_bind, of_completion.
  cbn. rewrite Ha, Hk, Hkey. eexists _, _. split; [reflexivity|]. cbn.
  repeat split; assumption.
Qed.

Lemma connect_without_key_witness :
  exists (c' : SanctumClient) (s : Socket),
    connect sample_platform None
      (new_SanctumClient "nobody"
         {| opt_socketPath := None; opt_host := None; opt_port := None;
            opt_keyPath := None |}) ([EvConnect] :: [])
    = (Rejected (ThrowSystemError "ENOENT"), c', [])
    /\ socket c' = Some s /\ connected s = Some (Normal tt)
    /\ calls c' = [] /\ reqId c' = 0.
Proof.
  apply (connect_without_key sample_platform None
           (new_SanctumClient "nobody"
              {| opt_socketPath := None; opt_host := None; opt_port := None;
                 opt_keyPath := None |}) (ThrowSystemError "ENOENT") []).
  - intros n H. discriminate H.
  - reflexivity.
Defined.

(** X21: What a fulfilled [authenticate] has done: it has loaded the key and
    made two calls and no more.  The first names the agent; its answer
    gives the session id and the challenge.  The second carries that
    session id and, in hex, the signature of the challenge bytes under
    the secret key loaded; its answer has a true [authenticated].  The
    session id is the client's afterwards. *)
Theorem authenticate_fulfilled (P : Platform) (agent : string) (keyPath : option string)
    (c : SanctumClient) (w : World) (c' : SanctumClient) (w' : World) :
  authenticate P agent keyPath c w = (Fulfilled tt, c', w') ->
  exists (keys : KeyPair) (r1 r2 : json) (sid challenge : string) (c1 : SanctumClient)
         (w1 : World),
    loadKey P agent keyPath = Normal keys
    /\ call "authenticate" (JObj [("agent_name", JStr agent)]) c w = (Fulfilled r1, c1, w1)
    /\ get r1 "session_id" = Some (JStr sid)
    /\ get r1 "challenge" = Some (JStr challenge)
    /\ call "challenge_response"
         (JObj [("session_id", JStr sid);
                ("signature",
                 JStr (hex_encode
                         (nacl_sign_detached P (hex_decode challenge) (secretKey keys))))])
         (set_sessionId (Some sid) c1) w1
       = (Fulfilled r2, c', w')
    /\ truthy (get r2 "authenticated") = true
    /\ calls c'
       = calls c
         ++ [ ("authenticate", JObj [("agent_name", JStr agent)]);
              ("challenge_response",
               JObj [("session_id", JStr sid);
                     ("signature",
                      JStr (hex_encode
                              (nacl_sign_detached P (hex_decode challenge)
                                 (secretKey keys))))]) ]
    /\ sessionId c' = Some sid.
Proof.
  unfold authenticate, async_bind, of_completion, update, read.
  destruct (loadKey P agent keyPath) as [keys| |]; try discriminate.
  pose proof (call_session "authenticate" (JObj [("agent_name", JStr agent)]) c w)
    as (_ & _ & Hc1).
  destruct (call "authenticate" _ c w) as [[[r1|e| |e|] c1] w1]; try discriminate.
  cbn [fst snd] in Hc1.
  destruct (get r1 "session_id") as [[| | |sid| |]|] eqn:Hsid; cbn; try discriminate.
  destruct (get r1 "challenge") as [[| | |challenge| |]|] eqn:Hch; cbn; try discriminate.
  match goal with |- context [call "challenge_response" ?p ?c0 w1] =>
    pose proof (call_session "challenge_response" p c0 w1) as (_ & Hs2 & Hc2);
    destruct (call "challenge_response" p c0 w1) as [[[r2|e| |e|] c2] w2] eqn:Hcall2
  end; try discriminate.
  cbn [fst snd] in Hs2, Hc2.
  destruct (truthy (get r2 "authenticated")) eqn:Hauth; [|discriminate].
  intros [= <- <-]. exists keys, r1, r2, sid, challenge, c1, w1.
  split; [reflexivity|]. split; [reflexivity|]. split; [exact Hsid|].
  split; [exact Hch|]. split; [exact Hcall2|]. split; [exact Hauth|].
  split; [|exact Hs2].
  rewrite Hc2. cbn [calls set_sessionId]. rewrite Hc1, <- app_assoc. reflexivity.
Qed.

Lemma authenticate_fulfilled_witness :
  exists (keys : KeyPair) (r1 r2 : json) (sid challenge : string) (c1 : SanctumClient)
         (w1 : World),
    loadKey sample_platform "my-agent" None = Normal keys
    /\ call "authenticate" (JObj [("agent_name", JStr "my-agent")]) raw_connected_client
         (drop 1 (handshake true))
       = (Fulfilled r1, c1, w1)
    /\ get r1 "session_id" = Some (JStr sid)
    /\ get r1 "challenge" = Some (JStr challenge)
    /\ call "challenge_response"
         (JObj [("session_id", JStr sid);
                ("signature",
                 JStr (hex_encode
                         (nacl_sign_detached sample_platform (hex_decode challenge)
                            (secretKey keys))))])
         (set_sessionId (Some sid) c1) w1
       = (Fulfilled r2, connected_client, [])
    /\ truthy (get r2 "authenticated") = true
    /\ calls connected_client
       = calls raw_connected_client
         ++ [ ("authenticate", JObj [("agent_name", JStr "my-agent")]);
              ("challenge_response",
               JObj [("session_id", JStr sid);
                     ("signature",
                      JStr (hex_encode
                              (nacl_sign_detached sample_platform (hex_decode challenge)
                                 (secretKey keys))))]) ]
    /\ sessionId connected_client = Some sid.
Proof.
  apply (authenticate_fulfilled sample_platform "my-agent" None raw_connected_client
           (drop 1 (handshake true)) connected_client []).
  vm_compute. reflexivity.
Defined.

(** ** Lease bookkeeping *)

Lemma keeps_leases_bind {A B : Type} (m : Async A) (f : A -> Async B) :
  keeps_leases m -> (forall a, keeps_leases (f a)) -> keeps_leases (async_bind m f).
Proof.
  intros Hm Hf c w. unfold async_bind. specialize (Hm c w).
  destruct (m c w) as [[[a|e| |e|] c1] w1]; cbn [fst snd] in *; try assumption.
  rewrite (Hf a c1 w1). assumption.
Qed.

Lemma keeps_leases_ret {A : Type} (a : A) : keeps_leases (async_ret a).
Proof. intros c w. reflexivity. Qed.

Lemma keeps_leases_of_completion {A : Type} (r : Completion A) :
  keeps_leases (of_completion r).
Proof. intros c w. destruct r; reflexivity. Qed.

Lemma keeps_leases_read {A : Type} (f : SanctumClient -> A) : keeps_leases (read f).
Proof. intros c w. reflexivity. Qed.

Lemma keeps_leases_update (f : SanctumClient -> SanctumClient) :
  (forall c, leases (f c) = leases c) -> keeps_leases (update f).
Proof. intros Hf c w. apply Hf. Qed.

Lemma keeps_leases_call (method : string) (params : json) :
  keeps_leases (call method params).
Proof. intros c w. apply call_session. Qed.

Lemma keeps_leases_rawConnect (P : Platform) : keeps_leases (rawConnect P).
Proof.
  intros c w. unfold rawConnect.
  destruct (createConnection _) as [s| |]; try reflexivity.
  match goal with
  | |- context [await_with ?st ?c0 w] =>
      pose proof (await_with_session st c0 w) as H
  end.
  unfold session_fields in H. cbn in H. injection H as _ _ _ _ _ _ _ Hl _.
  exact Hl.
Qed.

Ltac keeps_leases :=
  repeat first
    [ apply keeps_leases_bind; [|intros ?]
    | apply keeps_leases_ret
    | apply keeps_leases_of_completion
    | apply keeps_leases_read
    | apply keeps_leases_call
    | apply keeps_leases_rawConnect
    | apply keeps_leases_update; intros ?; reflexivity
    | match goal with |- keeps_leases (if ?b then _ else _) => destruct b end
    | match goal with |- keeps_leases (match ?t with _ => _ end) => destruct t end ].

Lemma keeps_leases_authenticate (P : Platform) (agent : string) (kp : option string) :
  keeps_leases (authenticate P agent kp).
Proof. unfold authenticate. keeps_leases. Qed.

Lemma keeps_leases_connect (P : Platform) (target : option ConnectionTarget) :
  keeps_leases (connect P target).
Proof.
  unfold connect. keeps_leases.
  apply keeps_leases_update. intros c. destruct target as [[p|h n]|]; reflexivity.
Qed.

Lemma keeps_leases_list : keeps_leases list_.
Proof. unfold list_. keeps_leases. Qed.

Lemma keeps_leases_use (credPath operation : string) (params : option json) :
  keeps_leases (use credPath operation params).
Proof. unfold use. keeps_leases. Qed.

(** [releaseLease] is [call], then the filter when the call is fulfilled. *)
Lemma releaseLease_unfold (lid : string) (c : SanctumClient) (w : World) :
  releaseLease lid c w
  = match call (fst (release_request lid)) (snd (release_request lid)) c w with
    | (Fulfilled _, c1, w1) =>
        (Fulfilled tt, set_leases (filter (fun id => id ≠ lid) (leases c1)) c1, w1)
    | (Rejected e, c1, w1) => (Rejected e, c1, w1)
    | (Suspended, c1, w1) => (Suspended, c1, w1)
    | (Uncaught e, c1, w1) => (Uncaught e, c1, w1)
    | (OffModel, c1, w1) => (OffModel, c1, w1)
    end.
Proof.
  unfold releaseLease, async_bind, update, release_request. cbn [fst snd].
  destruct (call _ _ c w) as [[[a|e| |e|] c1] w1]; reflexivity.
Qed.

Lemma releaseLease_session (lid : string) (c : SanctumClient) (w : World) :
  let '(o, c', _) := releaseLease lid c w in
  sessionId c' = sessionId c
  /\ calls c' = calls c ++ [release_request lid]
  /\ leases c' = match o with
                 | Fulfilled _ => filter (fun id => id ≠ lid) (leases c)
                 | _ => leases c
                 end.
Proof.
  rewrite releaseLease_unfold.
  pose proof (call_session (fst (release_request lid)) (snd (release_request lid)) c w)
    as (Hl & Hs & Hc).
  destruct (call _ _ c w) as [[[a|e| |e|] c1] w1]; cbn [fst snd] in *;
    repeat split; try assumption.
  cbn. rewrite Hl. reflexivity.
Qed.

Lemma retrieve_tracks (credPath : string) (ttl : option Z) (c : SanctumClient) (w : World)
    (v : string) (c' : SanctumClient) (w' : World) :
  retrieve credPath ttl c w = (Fulfilled v, c', w') ->
  exists r c1 w1 lease,
    call "retrieve" (retrieve_params (sessionId c) credPath ttl) c w = (Fulfilled r, c1, w1)
    /\ get r "lease_id" = Some (JStr lease)
    /\ leases c' = leases c ++ [lease].
Proof.
  unfold retrieve, async_bind, read, update, of_completion.
  pose proof (call_session "retrieve" (retrieve_params (sessionId c) credPath ttl) c w)
    as (Hl & _ & _).
  destruct (call "retrieve" _ c w) as [[[r|e| |e|] c1] w1]; try discriminate.
  cbn [fst snd] in Hl.
  destruct (get r "lease_id") as [[| | |lease| |]|] eqn:Hlease; cbn; try discriminate.
  destruct (Buffer_from_hex (get r "value")) as [value| |]; try discriminate.
  destruct (utf8_toString value) as [text| |]; try discriminate.
  intros [= <- <- <-]. exists r, c1, w1, lease.
  split; [reflexivity|]. split; [exact Hlease|]. cbn. rewrite Hl. reflexivity.
Qed.

Lemma releaseLease_untracks (lid : string) (c : SanctumClient) (w : World)
    (c' : SanctumClient) (w' : World) :
  releaseLease lid c w = (Fulfilled tt, c', w') ->
  (lid ∉ leases c') /\ leases c' = filter (fun id => id ≠ lid) (leases c).
Proof.
  intros H. pose proof (releaseLease_session lid c w) as Hs. rewrite H in Hs.
  destruct Hs as (_ & _ & Hl). split; [|exact Hl].
  rewrite Hl. intros Hin. apply list_elem_of_filter in Hin as [Hne _]. apply Hne. reflexivity.
Qed.

(** C8: a fulfilled [retrieve] has appended the [lease_id] of the
    daemon's answer to the open-lease set; a fulfilled [releaseLease(lid)]
    leaves a set without [lid], whether or not it was there; and neither
    [call], [authenticate], [connect], [list], [use] nor the delivery of a
    socket event changes the set. *)
Theorem C8_lease_set (c : SanctumClient) (w : World) :
  (forall credPath ttl v c' w',
      retrieve credPath ttl c w = (Fulfilled v, c', w') ->
      exists r c1 w1 lease,
        call "retrieve" (retrieve_params (sessionId c) credPath ttl) c w
        = (Fulfilled r, c1, w1)
        /\ get r "lease_id" = Some (JStr lease)
        /\ lease ∈ leases c')
  /\ (forall lid c' w',
      releaseLease lid c w = (Fulfilled tt, c', w') -> lid ∉ leases c')
  /\ (forall method params, leases (snd (fst (call method params c w))) = leases c)
  /\ (forall P agent kp, leases (snd (fst (authenticate P agent kp c w))) = leases c)
  /\ (forall P target, leases (snd (fst (connect P target c w))) = leases c)
  /\ leases (snd (fst (list_ c w))) = leases c
  /\ (forall credPath operation params,
      leases (snd (fst (use credPath operation params c w))) = leases c)
  /\ (forall ev, leases (fst (emit ev c)) = leases c).
Proof.
  split.
  { intros credPath ttl v c' w' H.
    destruct (retrieve_tracks _ _ _ _ _ _ _ H) as (r & c1 & w1 & lease & H1 & H2 & H3).
    exists r, c1, w1, lease. repeat split; try assumption.
    rewrite H3. apply elem_of_app. right. left. }
  split.
  { intros lid c' w' H. apply (releaseLease_untracks _ _ _ _ _ H). }
  split; [intros; apply keeps_leases_call|].
  split; [intros; apply keeps_leases_authenticate|].
  split; [intros; apply keeps_leases_connect|].
  split; [apply keeps_leases_list|].
  split; [intros; apply keeps_leases_use|].
  intros ev. pose proof (emit_session ev c) as H. unfold session_fields in H.
  injection H as _ _ _ _ _ _ _ Hl _. exact Hl.
Qed.

Lemma C8_lease_set_witness :
  (exists r c1 w1 lease,
      call "retrieve" (retrieve_params (sessionId connected_client) "openai/api_key" None)
        connected_client retrieve_world = (Fulfilled r, c1, w1)
      /\ get r "lease_id" = Some (JStr lease)
      /\ lease ∈ leases (snd (fst (retrieve "openai/api_key" None connected_client
                                     retrieve_world))))
  /\ "L2" ∉ leases (snd (fst (releaseLease "L2" leased_client [[result_frame 5 (JObj [])]]))).
Proof.
  split.
  - apply (proj1 (C8_lease_set connected_client retrieve_world)
             "openai/api_key" None "hello" _ (snd (retrieve "openai/api_key" None
                                                  connected_client retrieve_world))).
    vm_compute. reflexivity.
  - apply (proj1 (proj2 (C8_lease_set leased_client [[result_frame 5 (JObj [])]]))
             "L2" _ (snd (releaseLease "L2" leased_client [[result_frame 5 (JObj [])]]))).
    vm_compute. reflexivity.
Defined.

(** *** What the operations send and what they return *)

Lemma to_N_byte_of_ascii (a : ascii) : Byte.to_N (byte_of_ascii a) = N_of_ascii a.
Proof. destruct a as [[] [] [] [] [] [] [] []]; reflexivity. Qed.

(** Read as UTF-8, the bytes of an ASCII string are the string. *)
Lemma utf8_toString_ascii (s : string) :
  ascii_only s = true -> utf8_toString (Buffer_from s) = Normal s.
Proof.
  intros Hs. unfold utf8_toString.
  assert (forallb (fun x => (Byte.to_N x <? 128)%N) (Buffer_from s) = true) as ->.
  { induction s as [|a s IH]; [reflexivity|].
    cbn [ascii_only] in Hs. apply andb_prop in Hs as [Ha Hs].
    unfold Buffer_from, list_byte_of_string. cbn [list_ascii_of_string map forallb].
    rewrite to_N_byte_of_ascii, Ha. apply IH. exact Hs. }
  f_equal. apply Buffer_toString_from.
Qed.

(** X22: [retrieve] gives the secret back: when the answer carries, in hex,
    the bytes of an ASCII secret, [retrieve] is fulfilled with that
    secret, and the lease of the answer is tracked last. *)
Theorem retrieve_decodes_the_secret (credPath : string) (ttl : option Z)
    (c : SanctumClient) (w : World) (r : json) (c1 : SanctumClient) (w1 : World)
    (lease secret : string) :
  call "retrieve" (retrieve_params (sessionId c) credPath ttl) c w = (Fulfilled r, c1, w1) ->
  get r "lease_id" = Some (JStr lease) ->
  get r "value" = Some (JStr (hex_encode (Buffer_from secret))) ->
  ascii_only secret = true ->
  retrieve credPath ttl c w
  = (Fulfilled secret, set_leases (leases c1 ++ [lease]) c1, w1).
Proof.
  intros Hcall Hlease Hvalue Hascii.
  unfold retrieve, async_bind, read, update, of_completion.
  rewrite Hcall, Hlease. cbn [required_string]. rewrite Hvalue. cbn [Buffer_from_hex].
  rewrite hex_decode_encode, utf8_toString_ascii by exact Hascii. reflexivity.
Qed.

Lemma retrieve_decodes_the_secret_witness :
  retrieve "openai/api_key" None connected_client retrieve_world
  = (Fulfilled "hello",
     set_leases
       (leases (snd (fst (call "retrieve"
                            (retrieve_params (sessionId connected_client) "openai/api_key"
                               None) connected_client retrieve_world))) ++ ["L1"])
       (snd (fst (call "retrieve"
                    (retrieve_params (sessionId connected_client) "openai/api_key" None)
                    connected_client retrieve_world))),
     []).
Proof.
  apply (retrieve_decodes_the_secret "openai/api_key" None connected_client retrieve_world
           (JObj [("value", JStr "68656c6c6f"); ("lease_id", JStr "L1")])).
  - vm_compute. reflexivity.
  - reflexivity.
  - reflexivity.
  - reflexivity.
Defined.

(** X23: The lease is tracked before the value is decoded: when the answer
    names a lease but carries no value, or [null] or a number for one,
    [retrieve] is rejected with a [TypeError], and the lease is tracked
    all the same, so that [close] will release it. *)
Theorem retrieve_tracks_lease_before_decoding (credPath : string) (ttl : option Z)
    (c : SanctumClient) (w : World) (r : json) (c1 : SanctumClient) (w1 : World)
    (lease : string) :
  call "retrieve" (retrieve_params (sessionId c) credPath ttl) c w = (Fulfilled r, c1, w1) ->
  get r "lease_id" = Some (JStr lease) ->
  (get r "value" = None \/ get r "value" = Some JNull
   \/ exists n, get r "value" = Some (JNum n)) ->
  retrieve credPath ttl c w
  = (Rejected (ThrowTypeError "ERR_INVALID_ARG_TYPE"),
     set_leases (leases c1 ++ [lease]) c1, w1)
  /\ lease ∈ leases (snd (fst (retrieve credPath ttl c w))).
Proof.
  intros Hcall Hlease Hvalue.
  assert (retrieve credPath ttl c w
          = (Rejected (ThrowTypeError "ERR_INVALID_ARG_TYPE"),
             set_leases (leases c1 ++ [lease]) c1, w1)) as Hr.
  { unfold retrieve, async_bind, read, update, of_completion.
    rewrite Hcall, Hlease. cbn [required_string].
    destruct Hvalue as [-> | [-> | [n ->]]]; reflexivity. }
  split; [exact Hr|]. rewrite Hr. cbn. apply elem_of_app. right. left.
Qed.

Lemma retrieve_tracks_lease_before_decoding_witness :
  let w := [[result_frame 3 (JObj [("lease_id", JStr "L9")])]] in
  retrieve "openai/api_key" None connected_client w
  = (Rejected (ThrowTypeError "ERR_INVALID_ARG_TYPE"),
     set_leases
       (leases (snd (fst (call "retrieve"
                            (retrieve_params (sessionId connected_client) "openai/api_key"
                               None) connected_client w))) ++ ["L9"])
       (snd (fst (call "retrieve"
                    (retrieve_params (sessionId connected_client) "openai/api_key" None)
                    connected_client w))),
     [])
  /\ "L9" ∈ leases (snd (fst (retrieve "openai/api_key" None connected_client w))).
Proof.
  intros w.
  apply (retrieve_tracks_lease_before_decoding "openai/api_key" None connected_client w
           (JObj [("lease_id", JStr "L9")])).
  - vm_compute. reflexivity.
  - reflexivity.
  - left. reflexivity.
Defined.

(** X24: Every operation makes one call, and the session id it sends is the
    one the client holds when the operation starts, [null] before a
    handshake: [retrieve], [list] and [use] send it with their own
    parameters, and [use] sends [params] only when given; [releaseLease]
    sends the lease id and no session id. *)
Theorem operations_send_the_session (c : SanctumClient) (w : World)
    (credPath operation lid : string) (ttl : option Z) (params : option json) :
  calls (snd (fst (retrieve credPath ttl c w)))
  = calls c ++ [("retrieve",
                 JObj ([("session_id", session_json (sessionId c)); ("path", JStr credPath)]
                       ++ match ttl with Some t => [("ttl", JNum t)] | None => [] end))]
  /\ calls (snd (fst (list_ c w)))
     = calls c ++ [("list", JObj [("session_id", session_json (sessionId c))])]
  /\ calls (snd (fst (use credPath operation params c w)))
     = calls c ++ [("use",
                    JObj ([("session_id", session_json (sessionId c));
                           ("path", JStr credPath); ("operation", JStr operation)]
                          ++ match params with Some p => [("params", p)] | None => [] end))]
  /\ calls (snd (fst (releaseLease lid c w)))
     = calls c ++ [("release_lease", JObj [("lease_id", JStr lid)])].
Proof.
  split; [|split; [|split]].
  - unfold retrieve, async_bind, read, update, of_completion.
    pose proof (call_session "retrieve" (retrieve_params (sessionId c) credPath ttl) c w)
      as (_ & _ & Hc).
    destruct (call "retrieve" _ c w) as [[[r|e| |e|] c1] w1]; cbn [fst snd] in *;
      try exact Hc.
    destruct (required_string (get r "lease_id")) as [lease| |]; cbn [fst snd];
      try exact Hc.
    destruct (Buffer_from_hex (get r "value")) as [value| |]; cbn [fst snd]; try exact Hc.
    destruct (utf8_toString value); exact Hc.
  - unfold list_, async_bind, read.
    pose proof (call_session "list" (JObj [("session_id", session_json (sessionId c))]) c w)
      as (_ & _ & Hc).
    destruct (call "list" _ c w) as [[[r|e| |e|] c1] w1]; exact Hc.
  - unfold use, async_bind, read. apply call_session.
  - pose proof (releaseLease_session lid c w) as H.
    destruct (releaseLease lid c w) as [[o c'] w']. destruct H as (_ & Hc & _). exact Hc.
Qed.



(** ** Closing *)

Lemma release_all_spec (snapshot : list string) (c : SanctumClient) (w : World) :
  let '(o, c', _) := release_all snapshot c w in
  (forall e, o <> Rejected e)
  /\ (all_settle snapshot c w -> o = Fulfilled tt)
  /\ (o = Fulfilled tt ->
      calls c' = calls c ++ map release_request snapshot
      /\ sessionId c' = sessionId c).
Proof.
  revert c w. induction snapshot as [|lid rest IH]; intros c w.
  - cbn. repeat split; try discriminate. rewrite app_nil_r. reflexivity.
  - cbn [release_all all_settle map].
    pose proof (releaseLease_session lid c w) as Hr.
    destruct (releaseLease lid c w) as [[[[]|e| |e|] c1] w1];
      destruct Hr as (Hs & Hc & _);
      try (specialize (IH c1 w1); destruct (release_all rest c1 w1) as [[o c'] w'];
           destruct IH as (IH1 & IH2 & IH3);
           split; [exact IH1|]; split; [exact IH2|];
           intros Ho; destruct (IH3 Ho) as [IHc IHs];
           rewrite IHc, IHs, Hc, Hs, <- app_assoc; split; reflexivity);
      (split; [discriminate|]; split; [intros []|discriminate]).
Qed.

Lemma close_spec (c : SanctumClient) (w : World) :
  let '(o, c', _) := close c w in
  (forall e, o <> Rejected e)
  /\ (o = Fulfilled tt ->
      calls c' = calls c ++ map release_request (leases c)
      /\ socket c' = None /\ sessionId c' = None)
  /\ (all_settle (leases c) c w -> o = Fulfilled tt).
Proof.
  unfold close, async_bind, read, update.
  pose proof (release_all_spec (leases c) c w) as H.
  destruct (release_all (leases c) c w) as [[o c1] w1].
  destruct H as (Hnever & Hsettle & Hcalls).
  destruct o as [[]|e| |e|]; cbn [fst snd].
  - split; [discriminate|]. split; [|reflexivity].
    intros _. destruct (Hcalls eq_refl) as [Hc _]. repeat split. exact Hc.
  - destruct (Hnever e eq_refl).
  - split; [discriminate|]. split; [discriminate|]. exact Hsettle.
  - split; [discriminate|]. split; [discriminate|]. exact Hsettle.
  - split; [discriminate|]. split; [discriminate|]. exact Hsettle.
Qed.

(** When the daemon answers every [release_lease] request of [close],
    every one of those calls is settled. *)
Lemma answered_releases_settle (snapshot : list string) (texts : list string)
    (c : SanctumClient) (w : World) :
  (exists s, socket c = Some s) -> buffer c = [] ->
  releases_fit (reqId c + 1) snapshot ->
  length texts = length snapshot ->
  answered (reqId c + 1) texts ->
  all_settle snapshot c (answers texts ++ w).
Proof.
  revert texts c. induction snapshot as [|lid rest IH]; intros texts c [s Hs] Hb Hfit Hlen Hans;
    [exact I|].
  destruct texts as [|text texts]; [discriminate|].
  destruct Hans as [(payload & resp & Hsz & Hparse & Hid & Hresp) Hans].
  destruct Hfit as [Hlid Hrest].
  cbn [all_settle answers map app]. rewrite releaseLease_unfold.
  cbn [release_request fst snd].
  destruct (call_answered_state "release_lease" (JObj [("lease_id", JStr lid)]) c s text
              payload (answers texts ++ w) Hs Hb Hlid Hsz Hparse Hid)
    as (c' & Hcall & Hs' & Hb' & Hr').
  unfold answers in Hcall. rewrite Hcall, Hresp. cbn [mbind Completion_bind].
  pose proof (on_response_settles resp) as Hsettle.
  destruct (on_response resp) as [r|e|]; [| |contradiction]; cbn [outcome_of].
  - apply IH.
    + destruct Hs' as [s' Hs']. exists s'. exact Hs'.
    + exact Hb'.
    + change (reqId (set_leases ?l c')) with (reqId c'). rewrite Hr'. exact Hrest.
    + cbn in Hlen. lia.
    + change (reqId (set_leases ?l c')) with (reqId c'). rewrite Hr'. exact Hans.
  - apply IH.
    + exact Hs'.
    + exact Hb'.
    + rewrite Hr'. exact Hrest.
    + cbn in Hlen. lia.
    + rewrite Hr'. exact Hans.
Qed.

(** Nothing in [close] bounds the wait for a release: when no event
    follows the first [release_lease] request of a connected client,
    [close] stays suspended and the socket stays open. *)
Lemma close_suspended_on_silence (c : SanctumClient) (s : Socket) (lid : string)
    (rest : list string) (w : World) :
  socket c = Some s -> leases c = lid :: rest ->
  payload_size (request (reqId c + 1) "release_lease" (JObj [("lease_id", JStr lid)]))
  <= 4294967295 ->
  fst (fst (close c ([] :: w))) = Suspended
  /\ socket (snd (fst (close c ([] :: w)))) <> None.
Proof.
  intros Hs Hl Hreq. unfold close, async_bind, read. rewrite Hl. cbn [release_all].
  rewrite releaseLease_unfold. cbn [release_request fst snd]. unfold call.
  change (socket (set_calls ?l c)) with (socket c). rewrite Hs.
  change (reqId (set_calls ?l c)) with (reqId c).
  rewrite encodeFrame_in_range by assumption.
  unfold await_with. cbn [deliver].
  change (promises (set_socket ?a (set_pending ?b (set_promises ?m ?c0)))) with m.
  rewrite lookup_delete_eq. cbn. split; [reflexivity | discriminate].
Qed.












(** *** Clients without a socket, and closing twice *)

Lemma not_connected (c : SanctumClient) (w : World) :
  socket c = None ->
  (forall credPath ttl,
      retrieve credPath ttl c w
      = (Rejected (internal_error "Not connected"),
         set_calls (calls c ++ [("retrieve", retrieve_params (sessionId c) credPath ttl)]) c,
         w))
  /\ list_ c w
     = (Rejected (internal_error "Not connected"),
        set_calls (calls c ++ [("list", JObj [("session_id", session_json (sessionId c))])]) c,
        w)
  /\ (forall credPath operation params,
        fst (fst (use credPath operation params c w))
        = Rejected (internal_error "Not connected"))
  /\ (forall lid,
        releaseLease lid c w
        = (Rejected (internal_error "Not connected"),
           set_calls (calls c ++ [release_request lid]) c, w)).
Proof.
  intros Hs. repeat split; intros;
    unfold retrieve, list_, use, releaseLease, async_bind, read;
    rewrite call_not_connected by exact Hs; reflexivity.
Qed.

(** X18: Before [connect], and whenever the client has no socket, [retrieve],
    [list], [use] and [releaseLease] fail at once with the [VaultError]
    ["Not connected"]: no request id is used, no lease is tracked and no
    event is awaited. *)
Theorem operations_need_a_socket (c : SanctumClient) (w : World)
    (credPath operation lid : string) (ttl : option Z) (params : option json) :
  socket c = None ->
  fst (retrieve credPath ttl c w) = (Rejected (internal_error "Not connected"),
     set_calls (calls c ++ [("retrieve", retrieve_params (sessionId c) credPath ttl)]) c)
  /\ snd (retrieve credPath ttl c w) = w
  /\ fst (fst (list_ c w)) = Rejected (internal_error "Not connected")
  /\ fst (fst (use credPath operation params c w))
     = Rejected (internal_error "Not connected")
  /\ fst (fst (releaseLease lid c w)) = Rejected (internal_error "Not connected")
  /\ code (new_VaultError "Not connected" (code_opts "INTERNAL_ERROR")) = "INTERNAL_ERROR".
Proof.
  intros Hs. destruct (not_connected c w Hs) as (Hr & Hl & Hu & Hd).
  rewrite Hr, Hl, Hu, Hd. repeat split; reflexivity.
Qed.

Lemma operations_need_a_socket_witness :
  let c := new_SanctumClient "my-agent"
             {| opt_socketPath := None; opt_host := None; opt_port := None;
                opt_keyPath := None |} in
  fst (retrieve "openai/api_key" None c [])
  = (Rejected (internal_error "Not connected"),
     set_calls (calls c ++ [("retrieve", retrieve_params (sessionId c) "openai/api_key" None)])
       c)
  /\ snd (retrieve "openai/api_key" None c []) = []
  /\ fst (fst (list_ c [])) = Rejected (internal_error "Not connected")
  /\ fst (fst (use "openai/api_key" "sign" None c []))
     = Rejected (internal_error "Not connected")
  /\ fst (fst (releaseLease "L1" c [])) = Rejected (internal_error "Not connected")
  /\ code (new_VaultError "Not connected" (code_opts "INTERNAL_ERROR")) = "INTERNAL_ERROR".
Proof.
  intros c. apply (operations_need_a_socket c [] "openai/api_key" "sign" "L1" None None).
  reflexivity.
Defined.

(** X28: [close] is final: once it has returned, the client has no socket,
    and every later operation is refused with ["Not connected"], whatever
    the daemon does. *)
Theorem operations_after_close (c : SanctumClient) (w : World) (c' : SanctumClient)
    (w' w2 : World) (credPath operation lid : string) (ttl : option Z)
    (params : option json) :
  close c w = (Fulfilled tt, c', w') ->
  fst (fst (retrieve credPath ttl c' w2)) = Rejected (internal_error "Not connected")
  /\ fst (fst (list_ c' w2)) = Rejected (internal_error "Not connected")
  /\ fst (fst (use credPath operation params c' w2))
     = Rejected (internal_error "Not connected")
  /\ fst (fst (releaseLease lid c' w2)) = Rejected (internal_error "Not connected").
Proof.
  intros Hclose. pose proof (close_spec c w) as H. rewrite Hclose in H.
  destruct H as (_ & Hdone & _). destruct (Hdone eq_refl) as (_ & Hs & _).
  destruct (not_connected c' w2 Hs) as (Hr & Hl & Hu & Hd).
  rewrite Hr, Hl, Hu, Hd. repeat split; reflexivity.
Qed.

Lemma operations_after_close_witness :
  let c' := snd (fst (close leased_client release_world)) in
  fst (fst (retrieve "openai/api_key" None c' [])) = Rejected (internal_error "Not connected")
  /\ fst (fst (list_ c' [])) = Rejected (internal_error "Not connected")
  /\ fst (fst (use "openai/api_key" "sign" None c' []))
     = Rejected (internal_error "Not connected")
  /\ fst (fst (releaseLease "L1" c' [])) = Rejected (internal_error "Not connected").
Proof.
  intros c'.
  apply (operations_after_close leased_client release_world c'
           (snd (close leased_client release_world)) [] "openai/api_key" "sign" "L1" None
           None).
  vm_compute. reflexivity.
Defined.

(** [close] on a client without a socket: each release is refused and
    the refusal swallowed, so the leases stay tracked. *)
Lemma release_all_not_connected (snapshot : list string) (c : SanctumClient) (w : World) :
  socket c = None ->
  release_all snapshot c w
  = (Fulfilled tt, set_calls (calls c ++ map release_request snapshot) c, w).
Proof.
  revert c. induction snapshot as [|lid rest IH]; intros c Hs.
  - cbn. rewrite app_nil_r. destruct c; reflexivity.
  - cbn [release_all]. destruct (not_connected c w Hs) as (_ & _ & _ & Hd). rewrite Hd.
    rewrite IH by exact Hs. cbn [map]. cbn. rewrite <- app_assoc. reflexivity.
Qed.

(** X27: [close] can be called again: the second [close] sends nothing, waits
    for nothing and is fulfilled; a lease whose release had failed is
    still tracked after it, and its release is attempted and refused
    again. *)
Theorem close_twice (c : SanctumClient) (w : World) (c1 : SanctumClient) (w1 w2 : World) :
  close c w = (Fulfilled tt, c1, w1) ->
  close c1 w2
  = (Fulfilled tt, set_calls (calls c1 ++ map release_request (leases c1)) c1, w2).
Proof.
  intros Hclose. pose proof (close_spec c w) as H. rewrite Hclose in H.
  destruct H as (_ & Hdone & _). destruct (Hdone eq_refl) as (_ & Hs & Hsid).
  unfold close, async_bind, read, update.
  rewrite release_all_not_connected by exact Hs.
  destruct c1. cbn in *. subst. reflexivity.
Qed.

Lemma close_twice_witness :
  let c1 := snd (fst (close leased_client release_world)) in
  close c1 [] = (Fulfilled tt, set_calls (calls c1 ++ map release_request (leases c1)) c1, []).
Proof.
  intros c1.
  apply (close_twice leased_client release_world c1 (snd (close leased_client release_world))).
  vm_compute. reflexivity.
Defined.

Lemma release_all_released (snapshot : list string) (c : SanctumClient) (w : World) :
  all_released snapshot c w ->
  fst (fst (release_all snapshot c w)) = Fulfilled tt
  /\ forall x, x ∈ leases (snd (fst (release_all snapshot c w))) ->
       x ∈ leases c /\ x ∉ snapshot.
Proof.
  revert c w. induction snapshot as [|lid rest IH]; intros c w Hall.
  - cbn. split; [reflexivity|]. intros x Hx. split; [exact Hx | apply not_elem_of_nil].
  - cbn [release_all all_released] in *.
    pose proof (releaseLease_session lid c w) as Hr.
    destruct (releaseLease lid c w) as [[[[]|e| |e|] c1] w1]; try contradiction.
    destruct Hr as (_ & _ & Hl). destruct (IH c1 w1 Hall) as [Ho Hleases].
    split; [exact Ho|]. intros x Hx. destruct (Hleases x Hx) as [Hin Hout].
    rewrite Hl in Hin. apply list_elem_of_filter in Hin as [Hne Hin].
    split; [exact Hin|]. apply not_elem_of_cons. split; assumption.
Qed.

(** X26: When every release is granted, [close] leaves no lease tracked. *)
Theorem close_releases_every_lease (c : SanctumClient) (w : World) :
  all_released (leases c) c w ->
  fst (fst (close c w)) = Fulfilled tt /\ leases (snd (fst (close c w))) = [].
Proof.
  intros Hall. destruct (release_all_released (leases c) c w Hall) as [Ho Hl].
  unfold close, async_bind, read, update.
  destruct (release_all (leases c) c w) as [[o c1] w1]. cbn [fst snd] in *. subst o.
  split; [reflexivity|]. cbn.
  destruct (leases c1) as [|x l]; [reflexivity|].
  destruct (Hl x) as [Hin Hout]; [left | contradiction].
Qed.

Lemma close_releases_every_lease_witness :
  fst (fst (close leased_client [[result_frame 5 (JObj [])]; [result_frame 6 (JObj [])]]))
  = Fulfilled tt
  /\ leases (snd (fst (close leased_client
                         [[result_frame 5 (JObj [])]; [result_frame 6 (JObj [])]]))) = [].
Proof.
  apply (close_releases_every_lease leased_client
           [[result_frame 5 (JObj [])]; [result_frame 6 (JObj [])]]).
  vm_compute. exact I.
Defined.

(** ** The tests of the repository and the scenarios of the specification *)

(** [tests/protocol.test.ts]: the length prefix is the length of the payload. *)
Example prefix_is_payload_length :
  readUInt32BE (frame_of (JObj [("hello", JStr "world")]))
  = Normal (Buffer_length (frame_of (JObj [("hello", JStr "world")])) - 4).
Proof. reflexivity. Qed.

(** [tests/protocol.test.ts]: two bytes are an incomplete header. *)
Example incomplete_header :
  decodeFrame [x00; x00] = Throw (internal_error "Incomplete frame header").
Proof. reflexivity. Qed.

(** [tests/protocol.test.ts]: a prefix of 100 before five bytes is an
    incomplete body. *)
Example incomplete_body :
  decodeFrame (uint32_bytes 100 ++ Buffer_from "short")
  = Throw (internal_error "Incomplete frame body").
Proof. reflexivity. Qed.

(** [tests/protocol.test.ts]: the code [ACCESS_DENIED] raises
    [AccessDenied], with the detail kept. *)
Example access_denied_is_typed :
  raiseOnError
    (structured_response
       (StructuredError.mk (Some "ACCESS_DENIED") (Some "not allowed")
          (Some "policy forbids") None None None))
  = Throw (ThrowError
      {| cls := AccessDenied; name := "AccessDenied"; message := "not allowed";
         code := "ACCESS_DENIED"; detail := Some "policy forbids"; suggestion := None;
         docsUrl := None; context := JObj [] |}).
Proof. reflexivity. Qed.

(** The hex value ["68656c6c6f"] is retrieved as ["hello"], and its lease
    is tracked. *)
Example retrieve_hello :
  let run := retrieve "openai/api_key" None connected_client retrieve_world in
  fst (fst run) = Fulfilled "hello" /\ leases (snd (fst run)) = ["L1"].
Proof. vm_compute. split; reflexivity. Qed.

(** [list()] gives the [credentials] of the answer. *)
Example list_two_entries :
  fst (fst (list_ connected_client
              [[result_frame 3
                  (JObj [("credentials",
                          JArr [JObj [("path", JStr "a")]; JObj [("path", JStr "b")]])])]]))
  = Fulfilled (JArr [JObj [("path", JStr "a")]; JObj [("path", JStr "b")]]).
Proof. vm_compute. reflexivity. Qed.

(** [close()] after one open lease makes exactly one [release_lease] call. *)
Example close_one_lease :
  let opened := snd (fst (retrieve "openai/api_key" None connected_client retrieve_world)) in
  let run := close opened [[result_frame 4 (JObj [])]] in
  fst (fst run) = Fulfilled tt
  /\ calls (snd (fst run)) = calls opened ++ [release_request "L1"]
  /\ leases (snd (fst run)) = [].
Proof. vm_compute. repeat split; reflexivity. Qed.

(** Answers that arrive in the reverse order of their requests settle
    each request with its own result. *)
Example answers_matched_by_id :
  let c := fst (onData reversed_answers two_in_flight) in
  promises c !! 3 = Some (Normal (JObj [("n", JNum 3)]))
  /\ promises c !! 4 = Some (Normal (JObj [("n", JNum 4)]))
  /\ elements (pending c) = [] /\ buffer c = [].
Proof. vm_compute. repeat split; reflexivity. Qed.

(** A frame split over two chunks is dispatched when its second part
    arrives. *)
Example frame_in_two_chunks :
  let frame := frame_of (JObj [("id", JNum 3); ("result", JObj [])]) in
  let c1 := fst (onData (take 7 frame) two_in_flight) in
  let c2 := fst (onData (drop 7 frame) c1) in
  promises c1 !! 3 = None /\ buffer c1 = take 7 frame
  /\ promises c2 !! 3 = Some (Normal (JObj [])) /\ buffer c2 = [].
Proof. vm_compute. repeat split; reflexivity. Qed.
